(** * TeasrSocial: the monetization core

    A shallow embedding of the pay-to-reveal core of the server
    ([server/routes.ts], [server/storage.ts],
    [server/services/x402-payment.ts], [server/services/encryption.ts] and
    the table definitions of the shared schema), and the properties the
    design document states about it.

    Conventions of the embedding.
    - A table is the list of its rows in insertion order; a query is a
      filter over that list.  Generated primary keys ([gen_random_uuid()])
      are drawn from a counter kept with the tables.
    - The handlers run in a state-and-exception monad.  A thrown exception
      keeps the writes made so far: the handlers open no database
      transaction, and the route's outer [try]/[catch] only turns the
      exception into a 500 answer.
    - The unique constraints of the schema are checked by the inserts; a
      violated constraint is the exception PostgreSQL raises.
    - Monetary amounts are exact rationals.  [toFixed6] is
      [Number.prototype.toFixed(6)]; the binary rounding of JavaScript
      numbers is not modelled.
    - [console.log] lines are dropped; the value [broadcast] sends and the
      result the x402 service returns are appended to logs kept in the
      state, so that their presence or absence can be stated.
    - The counters of a post are unbounded integers; the 32-bit range of
      the columns and the [updatedAt] timestamps are not modelled.
    - [withRetry] is modelled on its own.  The storage functions are
      written without it: the errors they raise here are constraint
      violations, which [withRetry] rethrows at once.
    - The [votes] table sits beside the ledger, in [Ballots].
    - [validNetworks] is the table the route writes out; the keys a
      JavaScript object inherits from its prototype are not currencies
      of the model. *)

From Stdlib Require Import List String Ascii ZArith QArith Qround Qabs Bool
  Lia Lqa Permutation.
From Stdlib.Init Require Import Byte.
Import ListNotations.

Local Open Scope string_scope.
Local Open Scope Z_scope.

(** ** Data model (shared schema) *)

Inductive PaymentType := content | comment.

Definition PaymentType_eqb (a b : PaymentType) : bool :=
  match a, b with
  | content, content | comment, comment => true
  | _, _ => false
  end.

Record User := mkUser {
  user_id : string;
  walletAddress : string;
  username : string
}.

Record Post := mkPost {
  post_id : string;
  creatorId : string;
  title : string;
  encryptedMediaPath : string;
  blurredThumbnailPath : string;
  mediaType : string;
  encryptedKey : string;
  post_iv : string;
  post_authTag : string;
  price : Q;
  isFree : bool;
  buyoutPrice : option Q;
  acceptedCryptos : string;
  maxInvestors : Z;
  investorRevenueShare : Q;
  commentsLocked : bool;
  commentFee : option Q;
  viewCount : Z;
  upvoteCount : Z;
  downvoteCount : Z;
  isViral : bool;
  viralDetectedAt : option nat
}.

Record Payment := mkPayment {
  pay_id : nat;
  pay_userId : string;
  pay_postId : string;
  pay_amount : Q;
  pay_cryptocurrency : string;
  pay_network : string;
  pay_isBuyout : bool;
  pay_transactionHash : string;
  pay_paymentType : PaymentType
}.

Record Investor := mkInvestor {
  inv_id : nat;
  inv_postId : string;
  inv_userId : string;
  inv_position : Z;
  investmentAmount : Q;
  totalEarnings : Q
}.

Record PlatformFee := mkPlatformFee {
  fee_paymentId : nat;
  fee_postId : string;
  fee_amount : Q;
  fee_cryptocurrency : string;
  fee_transactionHash : string;
  fee_platformWallet : string;
  fee_status : string
}.

Record Notification := mkNotification {
  notif_userId : string;
  notif_type : string;
  notif_actorId : string;
  notif_postId : string
}.

Record DirectMessage := mkDirectMessage {
  dm_senderId : string;
  dm_receiverId : string;
  dm_postId : string
}.

(** What [broadcast] hands to the WebSocket clients. *)
Inductive Event :=
| buyoutUpdate (postId : string) (investorCount : nat)
    (investorEarnings : list (string * Q))
| investorEarningsUpdate (userId postId : string) (earnings : Q)
| viralNotification (postId : string) (message : string).

(** [PaymentSplit] and [PaymentResult] of the x402 service.  The amounts of
    the [splits] strings are kept as numbers, next to their unit or
    recipient; the random mock transaction hash is left out. *)
Record PaymentSplit := mkSplit {
  recipient : string;
  split_amount : Q;
  description_position : Z
}.

Record Splits := mkSplits {
  platform : Q;
  creator : Q * string;
  splits_investors : option (list (Q * string))
}.

Record PaymentResult := mkResult {
  success : bool;
  splits : option Splits
}.

Record World := mkWorld {
  users : list User;
  posts : list Post;
  payments : list Payment;
  platformFees : list PlatformFee;
  investors : list Investor;
  notifications : list Notification;
  directMessages : list DirectMessage;
  nextId : nat;
  broadcasts : list Event;
  settlements : list PaymentResult
}.

(** Deployment configuration and the collaborators that live outside the
    repository: [NODE_ENV], [getNetwork] of [config/networks] (it may
    throw), the blob store behind [readEncryptedFile], Node's base64
    decoder and its AES-256-GCM decipher ([None] when [final()] throws). *)
Record Env := mkEnv {
  isProduction : bool;
  getNetwork : string -> option string;
  MASTER_KEY_BUFFER : list byte;
  readEncryptedFile : string -> option (list byte);
  base64Decode : string -> list byte;
  aes256gcmDecipher :
    list byte -> list byte -> list byte -> list byte -> option (list byte)
}.

(** ** Field updates *)

Definition set_posts (w : World) (l : list Post) : World :=
  mkWorld (users w) l (payments w) (platformFees w) (investors w)
    (notifications w) (directMessages w) (nextId w) (broadcasts w)
    (settlements w).

Definition set_payments (w : World) (l : list Payment) (n : nat) : World :=
  mkWorld (users w) (posts w) l (platformFees w) (investors w)
    (notifications w) (directMessages w) n (broadcasts w) (settlements w).

Definition set_platformFees (w : World) (l : list PlatformFee) : World :=
  mkWorld (users w) (posts w) (payments w) l (investors w)
    (notifications w) (directMessages w) (nextId w) (broadcasts w)
    (settlements w).

Definition set_investors (w : World) (l : list Investor) (n : nat) : World :=
  mkWorld (users w) (posts w) (payments w) (platformFees w) l
    (notifications w) (directMessages w) n (broadcasts w) (settlements w).

Definition set_notifications (w : World) (l : list Notification) : World :=
  mkWorld (users w) (posts w) (payments w) (platformFees w) (investors w)
    l (directMessages w) (nextId w) (broadcasts w) (settlements w).

Definition set_directMessages (w : World) (l : list DirectMessage) : World :=
  mkWorld (users w) (posts w) (payments w) (platformFees w) (investors w)
    (notifications w) l (nextId w) (broadcasts w) (settlements w).

Definition set_broadcasts (w : World) (l : list Event) : World :=
  mkWorld (users w) (posts w) (payments w) (platformFees w) (investors w)
    (notifications w) (directMessages w) (nextId w) l (settlements w).

Definition set_settlements (w : World) (l : list PaymentResult) : World :=
  mkWorld (users w) (posts w) (payments w) (platformFees w) (investors w)
    (notifications w) (directMessages w) (nextId w) (broadcasts w) l.

(** ** The state-and-exception monad of the handlers *)

Inductive outcome (A : Type) :=
| Ok (a : A)
| Throw (message : string).
Arguments Ok {A} a.
Arguments Throw {A} message.

Definition M (A : Type) : Type := World -> outcome A * World.

Definition ret {A} (a : A) : M A := fun w => (Ok a, w).

Definition bind {A B} (m : M A) (k : A -> M B) : M B :=
  fun w =>
    match m w with
    | (Ok a, w') => k a w'
    | (Throw e, w') => (Throw e, w')
    end.

Definition throw {A} (e : string) : M A := fun w => (Throw e, w).

Definition get {A} (f : World -> A) : M A := fun w => (Ok (f w), w).

Definition modify (f : World -> World) : M unit := fun w => (Ok tt, f w).

(** [promise.catch(err => console.error(...))] and a [try] block whose
    [catch] only logs: the failure is swallowed, the writes are kept. *)
Definition swallow {A} (m : M A) : M unit :=
  fun w => (Ok tt, snd (m w)).

Notation "x <- m ;; k" := (bind m (fun x => k))
  (at level 61, m at next level, right associativity).
Notation "m ;;; k" := (bind m (fun _ => k))
  (at level 61, right associativity).

Fixpoint forEach {A} (l : list A) (body : A -> M unit) : M unit :=
  match l with
  | [] => ret tt
  | a :: l' => body a ;;; forEach l' body
  end.

(** ** JavaScript helpers *)

(** [a || b] on strings: the empty string and [undefined] are falsy. *)
Definition orElse (a : option string) (b : string) : string :=
  match a with
  | Some s => if String.eqb s EmptyString then b else s
  | None => b
  end.

(** [s.split(',')]. *)
Fixpoint split (sep : ascii) (s : string) : list string :=
  match s with
  | EmptyString => [EmptyString]
  | String c s' =>
      if Ascii.eqb c sep then EmptyString :: split sep s'
      else match split sep s' with
           | h :: t => String c h :: t
           | [] => [String c EmptyString]
           end
  end.

Definition includes (l : list string) (s : string) : bool :=
  existsb (String.eqb s) l.

(** [x.toFixed(6)]: the multiple of 10^-6 nearest to [x], the larger one
    on a tie, computed on the absolute value. *)
Definition toFixed6 (x : Q) : Q :=
  if Qle_bool 0 x
  then Qmake (Qfloor (x * 1000000 + (1 # 2))%Q) 1000000
  else Qopp (Qmake (Qfloor (- x * 1000000 + (1 # 2))%Q) 1000000).

(** [buf.slice(start, end)] with negative indexes counted from the end. *)
Definition slice (buf : list byte) (start stop : Z) : list byte :=
  let len := Z.of_nat (List.length buf) in
  let norm i := if i <? 0 then Z.max 0 (len + i) else Z.min i len in
  let a := norm start in
  let b := norm stop in
  firstn (Z.to_nat (b - a)) (skipn (Z.to_nat a) buf).

Definition slice_from (buf : list byte) (start : Z) : list byte :=
  slice buf start (Z.of_nat (List.length buf)).

(** ** server/storage.ts *)

Definition getUserByWalletAddress (address : string) : M (option User) :=
  get (fun w => find (fun u => String.eqb (walletAddress u) address) (users w)).

Definition getUserById (userId : string) : M (option User) :=
  get (fun w => find (fun u => String.eqb (user_id u) userId) (users w)).

Definition getPost (id : string) : M (option Post) :=
  get (fun w => find (fun p => String.eqb (post_id p) id) (posts w)).

Definition set_viewCount (p : Post) (n : Z) : Post :=
  mkPost (post_id p) (creatorId p) (title p) (encryptedMediaPath p)
    (blurredThumbnailPath p) (mediaType p) (encryptedKey p) (post_iv p)
    (post_authTag p) (price p) (isFree p) (buyoutPrice p) (acceptedCryptos p)
    (maxInvestors p) (investorRevenueShare p) (commentsLocked p)
    (commentFee p) n (upvoteCount p) (downvoteCount p) (isViral p)
    (viralDetectedAt p).

Definition set_viral (p : Post) (now : nat) : Post :=
  mkPost (post_id p) (creatorId p) (title p) (encryptedMediaPath p)
    (blurredThumbnailPath p) (mediaType p) (encryptedKey p) (post_iv p)
    (post_authTag p) (price p) (isFree p) (buyoutPrice p) (acceptedCryptos p)
    (maxInvestors p) (investorRevenueShare p) (commentsLocked p)
    (commentFee p) (viewCount p) (upvoteCount p) (downvoteCount p) true
    (Some now).

(** [UPDATE posts SET ... WHERE id = postId]. *)
Definition update_post (postId : string) (f : Post -> Post) : M unit :=
  modify (fun w =>
    set_posts w
      (map (fun p => if String.eqb (post_id p) postId then f p else p) (posts w))).

Definition incrementViewCount (postId : string) : M unit :=
  update_post postId (fun p => set_viewCount p (viewCount p + 1)).

Definition markPostViral (now : nat) (postId : string) : M unit :=
  update_post postId (fun p => set_viral p now).

Record InsertPayment := mkInsertPayment {
  ins_userId : string;
  ins_postId : string;
  ins_amount : Q;
  ins_cryptocurrency : string;
  ins_network : string;
  ins_isBuyout : bool;
  ins_transactionHash : string;
  ins_paymentType : PaymentType
}.

Definition matches_payment (userId postId : string) (paymentType : PaymentType)
    (r : Payment) : bool :=
  String.eqb (pay_userId r) userId && String.eqb (pay_postId r) postId
  && PaymentType_eqb (pay_paymentType r) paymentType.

(** [db.insert(payments).values(...).returning()], under the constraint
    [uniqueUserPost] on (userId, postId, paymentType). *)
Definition insert_payment (v : InsertPayment) : M Payment :=
  fun w =>
    if existsb (matches_payment (ins_userId v) (ins_postId v)
                  (ins_paymentType v)) (payments w)
    then (Throw "duplicate key value violates unique constraint", w)
    else
      let r := mkPayment (nextId w) (ins_userId v) (ins_postId v)
                 (ins_amount v) (ins_cryptocurrency v) (ins_network v)
                 (ins_isBuyout v) (ins_transactionHash v)
                 (ins_paymentType v) in
      (Ok r, set_payments w (payments w ++ [r]) (S (nextId w))).

Definition createPayment (insertPayment : InsertPayment) : M Payment :=
  payment <- insert_payment insertPayment ;;
  post <- getPost (ins_postId insertPayment) ;;
  match post with
  | Some p =>
      if negb (String.eqb (creatorId p) (ins_userId insertPayment))
      then getUserById (creatorId p) ;;;
           getUserById (ins_userId insertPayment) ;;;
           ret tt
      else ret tt
  | None => ret tt
  end ;;;
  ret payment.

Definition hasUserPaid (userId postId : string) (paymentType : PaymentType)
    : M bool :=
  post <- getPost postId ;;
  if match post with Some p => isFree p | None => false end
  then ret true
  else
    payment <- get (fun w =>
      find (matches_payment userId postId paymentType) (payments w)) ;;
    ret (match payment with Some _ => true | None => false end).

Definition getInvestorCount (postId : string) : M nat :=
  get (fun w =>
    List.length (filter (fun i => String.eqb (inv_postId i) postId) (investors w))).

Definition createNotification (n : Notification) : M unit :=
  modify (fun w => set_notifications w (notifications w ++ [n])).

Definition createDirectMessage (d : DirectMessage) : M unit :=
  modify (fun w => set_directMessages w (directMessages w ++ [d])).

Definition broadcast (e : Event) : M unit :=
  modify (fun w => set_broadcasts w (broadcasts w ++ [e])).

(** ** server/services/x402-payment.ts *)

Definition PLATFORM_FEE_USDC : Q := 0.05.

Definition PLATFORM_WALLET : string :=
  "0x47aB5ba5f987A8f75f8Ef2F0D8FF33De1A04a020".

Record InvestorWallet := mkInvestorWallet {
  iw_userId : string;
  iw_walletAddress : string;
  iw_position : Z
}.

Definition format_splits (investorSplits : option (list PaymentSplit))
    : option (list (Q * string)) :=
  option_map (map (fun s => (split_amount s, recipient s))) investorSplits.

Definition processEvmPayment (env : Env) (totalAmount : Q)
    (cryptocurrency creatorWallet : string)
    (investorSplits : option (list PaymentSplit)) : PaymentResult :=
  match getNetwork env cryptocurrency with
  | Some network =>
      let total := totalAmount in
      let platformFee := PLATFORM_FEE_USDC in
      let creatorAmount := (total - platformFee)%Q in
      mkResult true
        (Some (mkSplits platformFee (creatorAmount, cryptocurrency)
                 (format_splits investorSplits)))
  | None => mkResult false None
  end.

Definition processSolanaPayment (env : Env) (totalAmount : Q)
    (creatorWallet : string) (investorSplits : option (list PaymentSplit))
    : PaymentResult :=
  match getNetwork env "SOL" with
  | Some network =>
      let total := totalAmount in
      let platformFee := PLATFORM_FEE_USDC in
      let creatorAmount := (total - platformFee)%Q in
      mkResult true
        (Some (mkSplits platformFee (creatorAmount, "USDC")
                 (format_splits investorSplits)))
  | None => mkResult false None
  end.

Definition calculateInvestorSplits (paymentAmount : Q)
    (investorRevenueSharePercent : Q) (investors : list InvestorWallet)
    : list PaymentSplit :=
  let payment := paymentAmount in
  let platformFee := PLATFORM_FEE_USDC in
  let afterPlatformFee := (payment - platformFee)%Q in
  let investorShareTotal :=
    (afterPlatformFee * (investorRevenueSharePercent / 100))%Q in
  let perInvestor :=
    (investorShareTotal / inject_Z (Z.of_nat (List.length investors)))%Q in
  map (fun inv =>
         mkSplit (iw_walletAddress inv) (toFixed6 perInvestor)
           (iw_position inv))
      investors.

(** A number is truthy unless it is zero (or NaN). *)
Definition truthy (x : Q) : bool := negb (Qeq_bool x 0).

Definition processPaymentWithSplits (env : Env) (totalAmount : Q)
    (cryptocurrency creatorWallet : string)
    (investorRevenueSharePercent : option Q)
    (investors : option (list InvestorWallet)) : PaymentResult :=
  let investorSplits :=
    match investors, investorRevenueSharePercent with
    | Some invs, Some percent =>
        if (0 <? List.length invs)%nat && truthy percent
        then Some (calculateInvestorSplits totalAmount percent invs)
        else None
    | _, _ => None
    end in
  if String.eqb cryptocurrency "SOL"
  then processSolanaPayment env totalAmount creatorWallet investorSplits
  else processEvmPayment env totalAmount cryptocurrency creatorWallet
         investorSplits.

(** The route awaits the service and drops its result; the result is
    appended to the settlement log. *)
Definition settle (r : PaymentResult) : M unit :=
  modify (fun w => set_settlements w (settlements w ++ [r])).

(** ** server/routes.ts: POST /api/posts/:id/pay *)

Record PayRequest := mkPayRequest {
  req_wallet : option string;
  req_postId : string;
  req_amount : Q;
  req_transactionHash : option string;
  req_cryptocurrency : string;
  req_network : option string;
  req_isBuyout : bool
}.

Inductive Response :=
| Unauthorized401
| NotFound404
| CurrencyNotAccepted400 (cryptocurrency : string)
| InvalidNetwork400 (network cryptocurrency : string)
| SlotsFull400 (maxInvestorSlots : Z)
| Success (alreadyPaid : bool)
| Error500 (message : string).

Definition getCurrentUser (wallet : option string) : M (option User) :=
  match wallet with
  | None => ret None
  | Some address =>
      if String.eqb address EmptyString then ret None
      else getUserByWalletAddress address
  end.

Definition validNetworks (isProduction : bool) (cryptocurrency : string)
    : option (list string) :=
  if String.eqb cryptocurrency "USDC" then
    Some (if isProduction then ["base-mainnet"]
          else ["base-sepolia"; "ethereum-sepolia"; "polygon-mumbai"])
  else if String.eqb cryptocurrency "SOL" then
    Some (if isProduction then ["solana-mainnet"] else ["solana-devnet"])
  else if String.eqb cryptocurrency "ETH" then
    Some (if isProduction then ["ethereum-mainnet"] else ["ethereum-sepolia"])
  else if String.eqb cryptocurrency "MATIC" then
    Some (if isProduction then ["polygon-mainnet"] else ["polygon-mumbai"])
  else if String.eqb cryptocurrency "BNB" then
    Some (if isProduction then ["bsc-mainnet"] else ["bsc-testnet"])
  else None.

(** [post.maxInvestors || 10]. *)
Definition maxInvestorSlots (post : Post) : Z :=
  if maxInvestors post =? 0 then 10 else maxInvestors post.

(** [ORDER BY position]: a stable insertion sort. *)
Fixpoint insert_by_position (i : Investor) (l : list Investor)
    : list Investor :=
  match l with
  | [] => [i]
  | j :: l' =>
      if inv_position i <? inv_position j then i :: j :: l'
      else j :: insert_by_position i l'
  end.

Definition orderBy_position (l : list Investor) : list Investor :=
  fold_right insert_by_position [] (rev l).

Definition investorsOf (postId : string) (w : World) : list Investor :=
  filter (fun i => String.eqb (inv_postId i) postId) (investors w).

(** [db.insert(investors)], under the constraints [uniqueInvestorPost] on
    (postId, userId) and [uniquePositionPost] on (postId, position). *)
Definition insert_investor (postId userId : string) (position : Z)
    (amount earnings : Q) : M unit :=
  fun w =>
    if existsb (fun i => String.eqb (inv_postId i) postId
                         && (String.eqb (inv_userId i) userId
                             || (inv_position i =? position)))
         (investors w)
    then (Throw "duplicate key value violates unique constraint", w)
    else
      (Ok tt,
       set_investors w
         (investors w
          ++ [mkInvestor (nextId w) postId userId position amount earnings])
         (S (nextId w))).

(** [UPDATE investors SET totalEarnings = ... WHERE id = ...]. *)
Definition set_totalEarnings (i : Investor) (e : Q) : Investor :=
  mkInvestor (inv_id i) (inv_postId i) (inv_userId i) (inv_position i)
    (investmentAmount i) e.

Definition update_totalEarnings (id : nat) (newEarnings : Q) : M unit :=
  modify (fun w =>
    set_investors w
      (map (fun i => if (inv_id i =? id)%nat
                     then set_totalEarnings i newEarnings else i)
           (investors w))
      (nextId w)).

Definition insert_platformFee (f : PlatformFee) : M unit :=
  modify (fun w => set_platformFees w (platformFees w ++ [f])).

Definition mock_tx (transactionHash : option string) (tag : string) : string :=
  orElse transactionHash tag.

(** The middle of the handler: what happens to the investors once the
    payment and its platform fee are recorded. *)
Definition allocate (env : Env) (req : PayRequest) (user : User) (post : Post)
    (creator : option User) (existingInvestors : list Investor)
    (paymentNumber : nat) : M unit :=
  let maxInvestorSlots := maxInvestorSlots post in
  let cryptocurrency := req_cryptocurrency req in
  if req_isBuyout req
     && (Z.of_nat (List.length existingInvestors) <? maxInvestorSlots)
  then
    let position := Z.of_nat (List.length existingInvestors) + 1 in
    insert_investor (post_id post) (user_id user) position
      (match buyoutPrice post with Some b => b | None => price post end)
      0%Q
  else if (maxInvestorSlots <? Z.of_nat paymentNumber)
          && (Z.of_nat (List.length existingInvestors) =? maxInvestorSlots)
          && negb (Qle_bool (investorRevenueShare post) 0)
  then
    let paymentAmount := req_amount req in
    let revenueAfterPlatformFee := (paymentAmount - PLATFORM_FEE_USDC)%Q in
    let investorSharePercentage := (investorRevenueShare post / 100)%Q in
    let totalInvestorShare :=
      (revenueAfterPlatformFee * investorSharePercentage)%Q in
    let earningsPerInvestor :=
      (totalInvestorShare
       / inject_Z (Z.of_nat (List.length existingInvestors)))%Q in
    forEach existingInvestors (fun investor =>
      let currentEarnings := totalEarnings investor in
      let newEarnings := toFixed6 (currentEarnings + earningsPerInvestor) in
      update_totalEarnings (inv_id investor) newEarnings) ;;;
    let investorUserIds := map inv_userId existingInvestors in
    investorUsers <- get (fun w =>
      match investorUserIds with
      | [] => []
      | _ => filter (fun u => includes investorUserIds (user_id u)) (users w)
      end) ;;
    let investorsWithWallets :=
      map (fun inv =>
             let investorUser :=
               find (fun u => String.eqb (user_id u) (inv_userId inv))
                 investorUsers in
             mkInvestorWallet (inv_userId inv)
               (match investorUser with
                | Some u => walletAddress u
                | None => EmptyString
                end)
               (inv_position inv))
          existingInvestors in
    match creator with
    | Some c =>
        settle
          (processPaymentWithSplits env (req_amount req)
             (orElse (Some cryptocurrency) "USDC") (walletAddress c)
             (Some (investorRevenueShare post))
             (Some (filter
                      (fun inv => negb (String.eqb (iw_walletAddress inv) EmptyString))
                      investorsWithWallets)))
    | None => ret tt
    end
  else
    match creator with
    | Some c =>
        if negb (isFree post)
        then settle
               (processPaymentWithSplits env (req_amount req)
                  (orElse (Some cryptocurrency) "USDC") (walletAddress c)
                  None None)
        else ret tt
    | None => ret tt
    end.

(** The end of the handler: the broadcasts to the WebSocket clients, the
    purchase notification and the welcome message. *)
Definition announce (user : User) (post : Post) : M unit :=
  newInvestorCount <- getInvestorCount (post_id post) ;;
  updatedInvestors <- get (investorsOf (post_id post)) ;;
  broadcast
    (buyoutUpdate (post_id post) newInvestorCount
       (map (fun inv => (inv_userId inv, totalEarnings inv))
          updatedInvestors)) ;;;
  forEach updatedInvestors (fun investor =>
    broadcast
      (investorEarningsUpdate (inv_userId investor) (post_id post)
         (totalEarnings investor))) ;;;
  if negb (String.eqb (user_id user) (creatorId post))
  then
    swallow (createNotification
               (mkNotification (creatorId post) "purchase" (user_id user)
                  (post_id post))) ;;;
    swallow (createDirectMessage
               (mkDirectMessage (creatorId post) (user_id user)
                  (post_id post)))
  else ret tt.

(** "Also grant comment access if comments are locked". *)
Definition grantCommentAccess (req : PayRequest) (user : User) (post : Post)
    : M unit :=
  if commentsLocked post
  then
    createPayment
      (mkInsertPayment (user_id user) (post_id post) 0%Q
         (orElse (Some (req_cryptocurrency req)) "USDC")
         (orElse (req_network req) "base-sepolia") false
         (mock_tx (req_transactionHash req)
            ("mock_tx_" ++ req_cryptocurrency req ++ "_comment"))
         comment) ;;;
    ret tt
  else ret tt.

(** From "Create payment record" to the answer. *)
Definition recordPayment (env : Env) (req : PayRequest) (user : User)
    (post : Post) (selectedNetwork : string) : M Response :=
  let cryptocurrency := req_cryptocurrency req in
  paymentRecord <- createPayment
    (mkInsertPayment (user_id user) (post_id post) (req_amount req)
       (orElse (Some cryptocurrency) "USDC") selectedNetwork
       (req_isBuyout req)
       (mock_tx (req_transactionHash req) ("mock_tx_" ++ cryptocurrency))
       content) ;;
  (if negb (isFree post)
   then insert_platformFee
          (mkPlatformFee (pay_id paymentRecord) (post_id post)
             PLATFORM_FEE_USDC "USDC"
             (mock_tx (req_transactionHash req) "platform_fee")
             PLATFORM_WALLET "completed")
   else ret tt) ;;;
  creator <- getUserById (creatorId post) ;;
  existingInvestors <- get (fun w =>
    orderBy_position (investorsOf (post_id post) w)) ;;
  totalPayments <- get (fun w =>
    List.length
      (filter (fun r => String.eqb (pay_postId r) (post_id post)
                        && PaymentType_eqb (pay_paymentType r) content)
         (payments w))) ;;
  let paymentNumber := totalPayments in
  allocate env req user post creator existingInvestors paymentNumber ;;;
  announce user post ;;;
  grantCommentAccess req user post ;;;
  ret (Success false).

Definition selectedNetwork (env : Env) (req : PayRequest) : string :=
  orElse (req_network req)
    (if isProduction env then "base-mainnet" else "base-sepolia").

Definition network_rejected (env : Env) (req : PayRequest) : bool :=
  negb (String.eqb (req_cryptocurrency req) EmptyString)
  && match validNetworks (isProduction env) (req_cryptocurrency req) with
     | Some nets => negb (includes nets (selectedNetwork env req))
     | None => false
     end.

Definition pay (env : Env) (req : PayRequest) : M Response :=
  user <- getCurrentUser (req_wallet req) ;;
  match user with
  | None => ret Unauthorized401
  | Some user =>
  let cryptocurrency := req_cryptocurrency req in
  post <- getPost (req_postId req) ;;
  match post with
  | None => ret NotFound404
  | Some post =>
  swallow (incrementViewCount (req_postId req)) ;;;
  let acceptedCryptos := split "," (acceptedCryptos post) in
  if negb (includes acceptedCryptos cryptocurrency)
  then ret (CurrencyNotAccepted400 cryptocurrency)
  else
  alreadyPaid <- hasUserPaid (user_id user) (post_id post) content ;;
  if alreadyPaid : bool then ret (Success true)
  else
  if network_rejected env req
  then ret (InvalidNetwork400 (selectedNetwork env req) cryptocurrency)
  else
  let maxInvestorSlots := maxInvestorSlots post in
  investorCount <- getInvestorCount (post_id post) ;;
  if req_isBuyout req && (maxInvestorSlots <=? Z.of_nat investorCount)
  then ret (SlotsFull400 maxInvestorSlots)
  else recordPayment env req user post (selectedNetwork env req)
  end
  end.

(** The route's outer [try]/[catch]: an exception becomes a 500 answer;
    nothing is undone. *)
Definition respond (m : M Response) (w : World) : Response * World :=
  match m w with
  | (Ok r, w') => (r, w')
  | (Throw e, w') => (Error500 e, w')
  end.

Definition POST_pay (env : Env) (req : PayRequest) (w : World)
    : Response * World :=
  respond (pay env req) w.

(** ** server/routes.ts: POST /api/posts/:id/pay-comment *)

Definition payComment (env : Env) (req : PayRequest) : M Response :=
  user <- getCurrentUser (req_wallet req) ;;
  match user with
  | None => ret Unauthorized401
  | Some user =>
  let cryptocurrency := req_cryptocurrency req in
  post <- getPost (req_postId req) ;;
  match post with
  | None => ret NotFound404
  | Some post =>
  if negb (commentsLocked post) then ret (Success true)
  else
  alreadyPaid <- hasUserPaid (user_id user) (post_id post) comment ;;
  if alreadyPaid : bool then ret (Success true)
  else
  commentPaymentRecord <- createPayment
    (mkInsertPayment (user_id user) (post_id post)
       (match commentFee post with Some f => f | None => 0%Q end)
       (orElse (Some cryptocurrency) "USDC")
       (orElse (req_network req) "base-sepolia") false
       (mock_tx (req_transactionHash req)
          ("mock_tx_comment_" ++ cryptocurrency))
       comment) ;;
  insert_platformFee
    (mkPlatformFee (pay_id commentPaymentRecord) (post_id post)
       PLATFORM_FEE_USDC "USDC"
       (mock_tx (req_transactionHash req) "platform_fee_comment")
       PLATFORM_WALLET "completed") ;;;
  swallow (createNotification
             (mkNotification (creatorId post) "comment_unlock" (user_id user)
                (post_id post))) ;;;
  ret (Success false)
  end
  end.

Definition POST_pay_comment (env : Env) (req : PayRequest) (w : World)
    : Response * World :=
  respond (payComment env req) w.

(** ** server/services/encryption.ts *)

Definition of_option {A} (o : option A) (e : string) : M A :=
  match o with
  | Some a => ret a
  | None => throw e
  end.

(** [try { body } catch (e) { handler }]. *)
Definition try_catch {A} (body : M A) (handler : M A) : M A :=
  fun w =>
    match body w with
    | (Ok a, w') => (Ok a, w')
    | (Throw _, w') => handler w'
    end.

Definition decryptBuffer (env : Env) (encrypted key iv authTag : list byte)
    : M (list byte) :=
  of_option (aes256gcmDecipher env key iv authTag encrypted)
    "Unsupported state or unable to authenticate data".

Definition decryptContentKey (env : Env)
    (encryptedKeyData : string * string * string) : M (list byte) :=
  let '(encryptedKey, iv, authTag) := encryptedKeyData in
  decryptBuffer env (base64Decode env encryptedKey) (MASTER_KEY_BUFFER env)
    (base64Decode env iv) (base64Decode env authTag).

(** ** server/routes.ts: GET /api/posts/:id/media *)

Record MediaRequest := mkMediaRequest {
  media_header_wallet : option string;
  media_query_wallet : option string;
  media_postId : string
}.

Inductive MediaResponse :=
| MediaNotFound404
| MediaSent (contentType : string) (body : list byte)
| Redirect (path : string)
| MediaError500 (message : string).

Definition is_truthy (s : option string) : bool :=
  match s with
  | Some a => negb (String.eqb a EmptyString)
  | None => false
  end.

(** The body of both [try] blocks of the route. *)
Definition decrypt_and_send (env : Env) (post : Post) : M MediaResponse :=
  encryptedBuffer <-
    of_option (readEncryptedFile env (encryptedMediaPath post))
      "ENOENT: no such file or directory" ;;
  contentKey <-
    decryptContentKey env (encryptedKey post, post_iv post, post_authTag post) ;;
  let fileIv := slice encryptedBuffer 0 12 in
  let fileAuthTag := slice_from encryptedBuffer (-16) in
  let fileEncryptedData := slice encryptedBuffer 12 (-16) in
  decryptedBuffer <-
    decryptBuffer env fileEncryptedData contentKey fileIv fileAuthTag ;;
  let mimeType :=
    if String.eqb (mediaType post) "image" then "image/jpeg"
    else "video/mp4" in
  ret (MediaSent mimeType decryptedBuffer).

Definition media (env : Env) (req : MediaRequest) : M MediaResponse :=
  let wallet :=
    if is_truthy (media_query_wallet req)
       && negb (is_truthy (media_header_wallet req))
    then media_query_wallet req
    else media_header_wallet req in
  user <- getCurrentUser wallet ;;
  post <- getPost (media_postId req) ;;
  match post with
  | None => ret MediaNotFound404
  | Some post =>
  if isFree post
  then try_catch (decrypt_and_send env post)
         (ret (Redirect (blurredThumbnailPath post)))
  else
  access <-
    match user with
    | Some u =>
        let isCreator := String.eqb (user_id u) (creatorId post) in
        if negb isCreator
        then hasPaid <- hasUserPaid (user_id u) (media_postId req) content ;;
             ret (isCreator, hasPaid)
        else ret (isCreator, false)
    | None => ret (false, false)
    end ;;
  let '(isCreator, hasPaid) := access in
  if negb isCreator && negb hasPaid
  then ret (Redirect (blurredThumbnailPath post))
  else try_catch (decrypt_and_send env post)
         (ret (Redirect (blurredThumbnailPath post)))
  end.

Definition GET_media (env : Env) (req : MediaRequest) (w : World)
    : MediaResponse * World :=
  match media env req w with
  | (Ok r, w') => (r, w')
  | (Throw e, w') => (MediaError500 e, w')
  end.

(** ** server/routes.ts: the viral detection worker *)

Definition VIRAL_UPVOTE_THRESHOLD : Z := 10.

(** [getAllPostsWithCreators()]: posts left-joined with their creator,
    newest first. *)
Definition getAllPostsWithCreators : M (list (Post * option User)) :=
  get (fun w =>
    map (fun p =>
           (p, find (fun u => String.eqb (user_id u) (creatorId p)) (users w)))
        (rev (posts w))).

Definition dquote : string := String "034"%char EmptyString.

Definition viral_message (post : Post) (creator : User) : string :=
  dquote ++ title post ++ dquote ++ " by " ++ username creator
  ++ " just went viral! ".

Definition viralDetection (now : nat) : M unit :=
  posts <- getAllPostsWithCreators ;;
  forEach posts (fun row =>
    let '(post, creator) := row in
    if isViral post then ret tt
    else if VIRAL_UPVOTE_THRESHOLD <=? upvoteCount post
    then
      markPostViral now (post_id post) ;;;
      match creator with
      | Some c => broadcast (viralNotification (post_id post)
                               (viral_message post c))
      | None => throw "Cannot read properties of null (reading 'username')"
      end
    else ret tt).

(** One firing of the cron job; its [catch] logs and goes on. *)
Definition viralSweep (now : nat) (w : World) : World :=
  snd (viralDetection now w).

(** ** server/storage.ts: getUserInvestorPosition *)

Definition getUserInvestorPosition (userId postId : string) : M (option Z) :=
  investor <- get (fun w =>
    find (fun i => String.eqb (inv_userId i) userId
                   && String.eqb (inv_postId i) postId)
         (investors w)) ;;
  ret (option_map inv_position investor).

(** ** server/services/encryption.ts: the master key *)

(** [s.padEnd(n, c)] for a one-character filler. *)
Fixpoint fill (n : nat) (c : ascii) : string :=
  match n with
  | O => EmptyString
  | S n' => String c (fill n' c)
  end.

Definition padEnd (n : nat) (c : ascii) (s : string) : string :=
  s ++ fill (n - String.length s) c.

(** [process.env.JWT_SECRET || 'development-master-key-change-in-production'],
    then [.padEnd(32, '0').substring(0, 32)]: the characters of the master
    key, before [Buffer.from] encodes them. *)
Definition MASTER_KEY (JWT_SECRET : option string) : string :=
  orElse JWT_SECRET "development-master-key-change-in-production".

Definition MASTER_KEY_STRING (JWT_SECRET : option string) : string :=
  substring 0 32 (padEnd 32 "0"%char (MASTER_KEY JWT_SECRET)).

(** ** server/routes.ts: the file written by the upload route *)

(** [Buffer.concat([iv, encrypted, authTag])]. *)
Definition fileWithMetadata (iv encrypted authTag : list byte) : list byte :=
  (iv ++ encrypted ++ authTag)%list.

(** The three slices the media route cuts out of the file. *)
Definition fileIv (encryptedBuffer : list byte) : list byte :=
  slice encryptedBuffer 0 12.

Definition fileAuthTag (encryptedBuffer : list byte) : list byte :=
  slice_from encryptedBuffer (-16).

Definition fileEncryptedData (encryptedBuffer : list byte) : list byte :=
  slice encryptedBuffer 12 (-16).

(** ** server/storage.ts: withRetry *)

(** An attempt of the wrapped operation returns, or throws an error that
    may carry a [code].  The pause between two attempts is not modelled. *)
Inductive attempt (A : Type) :=
| Returned (a : A)
| Failed (code : option string) (message : string).
Arguments Returned {A} a.
Arguments Failed {A} code message.

(** What the promise of [withRetry] settles to; [RejectedUndefined] is the
    [throw lastError] of a loop that never ran. *)
Inductive retried (A : Type) :=
| Resolved (a : A)
| Rejected (code : option string) (message : string)
| RejectedUndefined.
Arguments Resolved {A} a.
Arguments Rejected {A} code message.
Arguments RejectedUndefined {A}.

Definition retryable (code : option string) : bool :=
  match code with
  | Some c =>
      String.eqb c "57P01" || String.eqb c "ECONNRESET"
      || String.eqb c "ETIMEDOUT"
  | None => false
  end.

Fixpoint retry_loop {S A} (operation : S -> attempt A * S) (remaining : nat)
    (lastError : option (option string * string)) (s : S) : retried A * S :=
  match remaining with
  | O =>
      (match lastError with
       | Some (code, message) => Rejected code message
       | None => RejectedUndefined
       end, s)
  | Datatypes.S remaining' =>
      match operation s with
      | (Returned a, s') => (Resolved a, s')
      | (Failed code message, s') =>
          if retryable code
          then retry_loop operation remaining' (Some (code, message)) s'
          else (Rejected code message, s')
      end
  end.

Definition withRetry {S A} (operation : S -> attempt A * S)
    (maxRetries : nat) : S -> retried A * S :=
  retry_loop operation maxRetries None.

(** ** server/storage.ts: votes *)

Record Vote := mkVote {
  vote_id : nat;
  vote_postId : string;
  vote_userId : string;
  voteType : string
}.

Record InsertVote := mkInsertVote {
  iv_userId : string;
  iv_postId : string;
  iv_voteType : string
}.

(** The tables of the ledger together with the [votes] table. *)
Record Ballots := mkBallots {
  ledger : World;
  votes : list Vote
}.

Definition B (A : Type) : Type := Ballots -> outcome A * Ballots.

Definition retB {A} (a : A) : B A := fun b => (Ok a, b).

Definition bindB {A C} (m : B A) (k : A -> B C) : B C :=
  fun b =>
    match m b with
    | (Ok a, b') => k a b'
    | (Throw e, b') => (Throw e, b')
    end.

(** A statement on the tables of the ledger. *)
Definition liftB {A} (m : M A) : B A :=
  fun b =>
    match m (ledger b) with
    | (o, w) => (o, mkBallots w (votes b))
    end.

Definition same_vote (userId postId : string) (v : Vote) : bool :=
  String.eqb (vote_userId v) userId && String.eqb (vote_postId v) postId.

Definition getUserVote (userId postId : string) : B (option Vote) :=
  fun b => (Ok (find (same_vote userId postId) (votes b)), b).

(** [updates.upvoteCount] and [updates.downvoteCount]: the increment each
    key holds when the statement runs, [None] for a key that is not set. *)
Record Updates := mkUpdates {
  upd_upvoteCount : option Z;
  upd_downvoteCount : option Z
}.

Definition set_counts (p : Post) (up down : Z) : Post :=
  mkPost (post_id p) (creatorId p) (title p) (encryptedMediaPath p)
    (blurredThumbnailPath p) (mediaType p) (encryptedKey p) (post_iv p)
    (post_authTag p) (price p) (isFree p) (buyoutPrice p) (acceptedCryptos p)
    (maxInvestors p) (investorRevenueShare p) (commentsLocked p)
    (commentFee p) (viewCount p) up down (isViral p) (viralDetectedAt p).

Definition apply_updates (updates : Updates) (p : Post) : Post :=
  set_counts p
    (match upd_upvoteCount updates with
     | Some d => upvoteCount p + d
     | None => upvoteCount p
     end)
    (match upd_downvoteCount updates with
     | Some d => downvoteCount p + d
     | None => downvoteCount p
     end).

(** [updates.upvoteCount = ...] or [updates.downvoteCount = ...], by the
    vote type; a key set twice keeps the last value. *)
Definition assign (voteType : string) (d : Z) (updates : Updates) : Updates :=
  if String.eqb voteType "up"
  then mkUpdates (Some d) (upd_downvoteCount updates)
  else mkUpdates (upd_upvoteCount updates) (Some d).

(** [db.insert(votes)], under the foreign keys on the post and the user
    and the constraint [uniqueUserPostVote]. *)
Definition insert_vote (v : InsertVote) : B Vote :=
  fun b =>
    let w := ledger b in
    if negb (existsb (fun p => String.eqb (post_id p) (iv_postId v)) (posts w))
       || negb (existsb (fun u => String.eqb (user_id u) (iv_userId v))
                  (users w))
    then (Throw "violates foreign key constraint", b)
    else if existsb (same_vote (iv_userId v) (iv_postId v)) (votes b)
    then (Throw "duplicate key value violates unique constraint", b)
    else
      let vote :=
        mkVote (nextId w) (iv_postId v) (iv_userId v) (iv_voteType v) in
      (Ok vote,
       mkBallots (set_payments w (payments w) (S (nextId w)))
         (votes b ++ [vote])).

Definition set_voteType (v : Vote) (t : string) : Vote :=
  mkVote (vote_id v) (vote_postId v) (vote_userId v) t.

(** [db.update(votes).set({ voteType }).where(...).returning()], first
    row. *)
Definition update_vote (userId postId voteType : string) : B (option Vote) :=
  fun b =>
    let votes' :=
      map (fun v => if same_vote userId postId v
                    then set_voteType v voteType else v) (votes b) in
    (Ok (find (same_vote userId postId) votes'), mkBallots (ledger b) votes').

Definition createOrUpdateVote (insertVote : InsertVote) : B (option Vote) :=
  bindB (getUserVote (iv_userId insertVote) (iv_postId insertVote))
    (fun existing =>
  match existing with
  | Some existing =>
      bindB (liftB (getPost (iv_postId insertVote))) (fun post =>
      bindB
        (match post with
         | Some _ =>
             let updates := mkUpdates None None in
             let updates := assign (voteType existing) (-1) updates in
             let updates := assign (iv_voteType insertVote) 1 updates in
             liftB (update_post (iv_postId insertVote)
                      (apply_updates updates))
         | None => retB tt
         end) (fun _ =>
      update_vote (iv_userId insertVote) (iv_postId insertVote)
        (iv_voteType insertVote)))
  | None =>
      bindB (insert_vote insertVote) (fun vote =>
      let updates := assign (iv_voteType insertVote) 1 (mkUpdates None None) in
      bindB (liftB (update_post (iv_postId insertVote)
                      (apply_updates updates))) (fun _ =>
      retB (Some vote)))
  end).

Definition deleteVote (userId postId : string) : B unit :=
  bindB (getUserVote userId postId) (fun vote =>
  match vote with
  | None => retB tt
  | Some vote =>
      bindB (fun b =>
               (Ok tt,
                mkBallots (ledger b)
                  (filter (fun v => negb (same_vote userId postId v))
                     (votes b)))) (fun _ =>
      let updates := assign (voteType vote) (-1) (mkUpdates None None) in
      liftB (update_post postId (apply_updates updates)))
  end).

(** ** server/routes.ts: POST /api/admin/backfill-investor-earnings *)

(** [x.toFixed(2)], as [toFixed6]. *)
Definition toFixed2 (x : Q) : Q :=
  if Qle_bool 0 x
  then Qmake (Qfloor (x * 100 + (1 # 2))%Q) 100
  else Qopp (Qmake (Qfloor (- x * 100 + (1 # 2))%Q) 100).

Inductive BackfillResponse :=
| BackfillUnauthorized401
| Backfilled (updatedCount postsProcessed : nat)
| BackfillError500 (message : string).

(** A [for] loop that counts in a local variable. *)
Fixpoint forEachCounting {A} (l : list A) (count : nat)
    (body : A -> nat -> M nat) : M nat :=
  match l with
  | [] => ret count
  | a :: l' => count' <- body a count ;; forEachCounting l' count' body
  end.

Definition backfill_post (post : Post) (updatedCount : nat) : M nat :=
  postPayments <- get (fun w =>
    filter (fun r => String.eqb (pay_postId r) (post_id post)
                     && PaymentType_eqb (pay_paymentType r) content)
      (payments w)) ;;
  postInvestors <- get (fun w =>
    orderBy_position (investorsOf (post_id post) w)) ;;
  if (List.length postInvestors =? 0)%nat then ret updatedCount
  else
    forEach postInvestors (fun investor =>
      update_totalEarnings (inv_id investor) 0%Q) ;;;
    let paymentsAfterFirst10 := skipn 10 postPayments in
    let earningsPerInvestor :=
      (inject_Z (Z.of_nat (List.length paymentsAfterFirst10)) * (5 # 100))%Q in
    forEachCounting postInvestors updatedCount (fun investor count =>
      let newEarnings := toFixed2 earningsPerInvestor in
      update_totalEarnings (inv_id investor) newEarnings ;;;
      ret (S count)).

Definition backfill (wallet : option string) : M BackfillResponse :=
  user <- getCurrentUser wallet ;;
  match user with
  | None => ret BackfillUnauthorized401
  | Some _ =>
      postsWithBuyout <- get (fun w =>
        filter (fun p => match buyoutPrice p with
                         | Some _ => true
                         | None => false
                         end) (posts w)) ;;
      updatedCount <- forEachCounting postsWithBuyout 0%nat backfill_post ;;
      ret (Backfilled updatedCount (List.length postsWithBuyout))
  end.

Definition POST_backfill (wallet : option string) (w : World)
    : BackfillResponse * World :=
  match backfill wallet w with
  | (Ok r, w') => (r, w')
  | (Throw e, w') => (BackfillError500 e, w')
  end.

(** ** server/routes.ts: GET /api/posts/:id/comments *)

(** The answer of the route up to the list of comments itself, which is
    read from a table this development does not hold. *)
Inductive CommentsResponse :=
| CommentsNotFound404
| CommentsLocked403 (fee : option Q)
| CommentsListed
| CommentsError500 (message : string).

Definition comments (wallet : option string) (postId : string)
    : M CommentsResponse :=
  user <- getCurrentUser wallet ;;
  post <- getPost postId ;;
  match post with
  | None => ret CommentsNotFound404
  | Some post =>
      match user with
      | Some user =>
          if commentsLocked post
          then
            hasPaidContent <- hasUserPaid (user_id user) postId content ;;
            hasPaidComment <- hasUserPaid (user_id user) postId comment ;;
            let isCreator := String.eqb (user_id user) (creatorId post) in
            if negb hasPaidContent && negb hasPaidComment && negb isCreator
            then ret (CommentsLocked403 (commentFee post))
            else ret CommentsListed
          else ret CommentsListed
      | None =>
          if commentsLocked post
          then ret (CommentsLocked403 (commentFee post))
          else ret CommentsListed
      end
  end.

Definition GET_comments (wallet : option string) (postId : string)
    (w : World) : CommentsResponse * World :=
  match comments wallet postId w with
  | (Ok r, w') => (r, w')
  | (Throw e, w') => (CommentsError500 e, w')
  end.

(** ** A small deployment, used to run the handlers on concrete requests *)

Module Demo.

Definition env : Env :=
  mkEnv false (fun _ => Some "base-sepolia") [] (fun _ => None)
    (fun _ => []) (fun _ _ _ _ => None).

Definition creator0 : User := mkUser "u0" "0xC0" "carla".
Definition alice : User := mkUser "u1" "0xA1" "alice".
Definition bob : User := mkUser "u2" "0xB2" "bob".
Definition carol : User := mkUser "u3" "0xC3" "carol".
Definition dave : User := mkUser "u4" "0xD4" "dave".

(** The post of the design document's scenario: two investor slots, buyout
    price 10, price 5, revenue share 20 percent. *)
Definition post1 : Post :=
  mkPost "p1" "u0" "First" "p1.enc" "thumbnails/p1.jpg" "image" "k" "i" "t"
    5 false (Some 10%Q) "USDC,SOL" 2 20 false None 0 0 0 false None.

(** A free post whose comments are locked. *)
Definition post2 : Post :=
  mkPost "p2" "u0" "Second" "p2.enc" "thumbnails/p2.jpg" "image" "k" "i" "t"
    0 true None "USDC" 10 0 true (Some 1%Q) 0 12 0 false None.

(** A paid post with locked comments and three investor slots at ten percent. *)
Definition post3 : Post :=
  mkPost "p3" "u0" "Third" "p3.enc" "thumbnails/p3.jpg" "video" "k" "i" "t"
    (105 # 100) false (Some 2%Q) "USDC" 3 10 true (Some 1%Q) 0 3 0 false None.

Definition world0 : World :=
  mkWorld [creator0; alice; bob; carol; dave] [post1; post2; post3]
    [] [] [] [] [] 0 [] [].

Definition request (u : User) (postId : string) (amount : Q) (buyout : bool)
    : PayRequest :=
  mkPayRequest (Some (walletAddress u)) postId amount (Some "0xhash") "USDC"
    None buyout.

Definition pay_step (req : PayRequest) (w : World) : World :=
  snd (POST_pay env req w).

(** Carol has unlocked the comments of [post3] and nothing else. *)
Definition world_commented : World :=
  snd (POST_pay_comment env (request carol "p3" 1 false) world0).

(** Alice, Bob and Carol hold the three investor slots of [post3]. *)
Definition world_full : World :=
  pay_step (request carol "p3" 2 true)
    (pay_step (request bob "p3" 2 true)
       (pay_step (request alice "p3" 2 true) world0)).






(** A ledger with one post and no vote, and the same after Alice's
    upvote. *)
Definition ballots0 : Ballots := mkBallots (set_posts world0 [post1]) [].

Definition ballots1 : Ballots :=
  snd (createOrUpdateVote (mkInsertVote "u1" "p1" "up") ballots0).

(** An operation that hits a unique constraint, and one that loses its
    connection, each counting its attempts. *)
Definition duplicate_key (attempts : nat) : attempt unit * nat :=
  (Failed (Some "23505") "duplicate key value", S attempts).

Definition connection_reset (attempts : nat) : attempt unit * nat :=
  (Failed (Some "ECONNRESET") "read ECONNRESET", S attempts).

End Demo.

(** ** Vocabulary of the statements *)

Definition lookup_post (postId : string) (w : World) : option Post :=
  find (fun p => String.eqb (post_id p) postId) (posts w).

Definition post_is_free (postId : string) (w : World) : bool :=
  match lookup_post postId w with
  | Some p => isFree p
  | None => false
  end.

Definition has_record (userId postId : string) (paymentType : PaymentType)
    (w : World) : bool :=
  existsb (matches_payment userId postId paymentType) (payments w).

(** [hasPaid] as the design document words it: true for a free post when
    the payment type is [content], otherwise true exactly when a matching
    record exists. *)
Definition hasPaid_spec (userId postId : string) (paymentType : PaymentType)
    (w : World) : bool :=
  if post_is_free postId w && PaymentType_eqb paymentType content
  then true
  else has_record userId postId paymentType w.

(** The user behind the wallet header, as [getCurrentUser] finds him. *)
Definition whoami (wallet : option string) (w : World) : option User :=
  match wallet with
  | None => None
  | Some address =>
      if String.eqb address EmptyString then None
      else find (fun u => String.eqb (walletAddress u) address) (users w)
  end.

(** The world after [incrementViewCount]. *)
Definition viewed (postId : string) (w : World) : World :=
  set_posts w
    (map (fun p => if String.eqb (post_id p) postId
                   then set_viewCount p (viewCount p + 1) else p)
       (posts w)).

Definition content_count (postId : string) (w : World) : nat :=
  List.length
    (filter (fun r => String.eqb (pay_postId r) postId
                      && PaymentType_eqb (pay_paymentType r) content)
       (payments w)).

Definition paid_count (userId postId : string) (paymentType : PaymentType)
    (w : World) : nat :=
  List.length (filter (matches_payment userId postId paymentType) (payments w)).

(** The payment record and the fee record the handler writes first. *)
Definition content_record (env : Env) (req : PayRequest) (user : User)
    (post : Post) (id : nat) : Payment :=
  mkPayment id (user_id user) (post_id post) (req_amount req)
    (orElse (Some (req_cryptocurrency req)) "USDC") (selectedNetwork env req)
    (req_isBuyout req)
    (mock_tx (req_transactionHash req) ("mock_tx_" ++ req_cryptocurrency req))
    content.

Definition fee_record (req : PayRequest) (post : Post) (id : nat)
    : PlatformFee :=
  mkPlatformFee id (post_id post) PLATFORM_FEE_USDC "USDC"
    (mock_tx (req_transactionHash req) "platform_fee") PLATFORM_WALLET
    "completed".

Definition comment_record (req : PayRequest) (user : User) (post : Post)
    (id : nat) : Payment :=
  mkPayment id (user_id user) (post_id post) 0%Q
    (orElse (Some (req_cryptocurrency req)) "USDC")
    (orElse (req_network req) "base-sepolia") false
    (mock_tx (req_transactionHash req)
       ("mock_tx_" ++ req_cryptocurrency req ++ "_comment"))
    comment.

(** The share of one investor in a payment, and the table of investors
    after each row of the snapshot has been credited in turn. *)
Definition earningsPerInvestor (req : PayRequest) (post : Post) (K : nat) : Q :=
  ((req_amount req - PLATFORM_FEE_USDC) * (investorRevenueShare post / 100)
   / inject_Z (Z.of_nat K))%Q.

Definition distribute (per : Q) (snapshot table : list Investor)
    : list Investor :=
  fold_left
    (fun tbl inv =>
       map (fun i => if (inv_id i =? inv_id inv)%nat
                     then set_totalEarnings i (toFixed6 (totalEarnings inv + per))
                     else i)
           tbl)
    snapshot table.

Definition buyout_branch (req : PayRequest) (post : Post)
    (existingInvestors : list Investor) : bool :=
  req_isBuyout req
  && (Z.of_nat (List.length existingInvestors) <? maxInvestorSlots post).

Definition distribution_branch (post : Post)
    (existingInvestors : list Investor) (paymentNumber : nat) : bool :=
  (maxInvestorSlots post <? Z.of_nat paymentNumber)
  && (Z.of_nat (List.length existingInvestors) =? maxInvestorSlots post)
  && negb (Qle_bool (investorRevenueShare post) 0).

(** The world once the payment record and its platform fee record are
    written (the handler gets that far for a post that is not free only). *)
Definition recorded (env : Env) (req : PayRequest) (user : User) (post : Post)
    (w : World) : World :=
  set_platformFees
    (set_payments w
       (payments w ++ [content_record env req user post (nextId w)])
       (S (nextId w)))
    (platformFees w ++ [fee_record req post (nextId w)]).

(** The investor step of the handler, run on the recorded payment. *)
Definition allocated (env : Env) (req : PayRequest) (user : User)
    (post : Post) (w : World) : outcome unit * World :=
  allocate env req user post
    (find (fun u => String.eqb (user_id u) (creatorId post)) (users w))
    (orderBy_position (investorsOf (post_id post) w))
    (content_count (post_id post) (recorded env req user post w))
    (recorded env req user post w).

(** The checks of the handler that come before the slot check: the answer
    it gives at once, or the user and the post of a request it goes on
    with. *)
Definition validate (env : Env) (req : PayRequest) (w : World)
    : Response + User * Post :=
  match whoami (req_wallet req) w with
  | None => inl Unauthorized401
  | Some user =>
      match lookup_post (req_postId req) w with
      | None => inl NotFound404
      | Some post =>
          if negb (includes (split "," (acceptedCryptos post))
                     (req_cryptocurrency req))
          then inl (CurrencyNotAccepted400 (req_cryptocurrency req))
          else if isFree post
                  || has_record (user_id user) (post_id post) content w
          then inl (Success true)
          else if network_rejected env req
          then inl (InvalidNetwork400 (selectedNetwork env req)
                      (req_cryptocurrency req))
          else inr (user, post)
      end
  end.

Definition slots_full (req : PayRequest) (post : Post) (w : World) : bool :=
  req_isBuyout req
  && (maxInvestorSlots post
      <=? Z.of_nat (List.length (investorsOf (post_id post) w))).

(** The row a buyout adds to the investors of a post. *)
Definition investor_row (user : User) (post : Post) (id : nat) (w : World)
    : Investor :=
  mkInvestor id (post_id post) (user_id user)
    (Z.of_nat (List.length (investorsOf (post_id post) w)) + 1)
    (match buyoutPrice post with Some b => b | None => price post end)
    0%Q.




(** *** Runs of the server *)

(** The requests and timer events that write to the tables of the core. *)
Inductive Action :=
| APay (req : PayRequest)
| APayComment (req : PayRequest)
| ASweep (now : nat).

Definition step (env : Env) (a : Action) (w : World)
    : option Response * World :=
  match a with
  | APay req => (Some (fst (POST_pay env req w)), snd (POST_pay env req w))
  | APayComment req =>
      (Some (fst (POST_pay_comment env req w)),
       snd (POST_pay_comment env req w))
  | ASweep now => (None, viralSweep now w)
  end.

Fixpoint run (env : Env) (acts : list Action) (w : World)
    : list (option Response) * World :=
  match acts with
  | [] => ([], w)
  | a :: acts' =>
      let rw := step env a w in
      let rest := run env acts' (snd rw) in
      (fst rw :: fst rest, snd rest)
  end.

(** A buyout of the post that was answered [alreadyPaid: false]. *)
Definition is_buyout_success (postId : string) (a : Action)
    (r : option Response) : bool :=
  match a, r with
  | APay req, Some (Success false) =>
      req_isBuyout req && String.eqb (req_postId req) postId
  | _, _ => false
  end.

Fixpoint buyouts_succeeded (postId : string) (acts : list Action)
    (rs : list (option Response)) : nat :=
  match acts, rs with
  | a :: acts', r :: rs' =>
      ((if is_buyout_success postId a r then 1 else 0)
       + buyouts_succeeded postId acts' rs')%nat
  | _, _ => 0%nat
  end.

Definition positions (postId : string) (w : World) : list Z :=
  map inv_position (investorsOf postId w).

(** The number of [viralNotification] events for a post in a log. *)
Definition is_viral_event (postId : string) (e : Event) : bool :=
  match e with
  | viralNotification id _ => String.eqb id postId
  | _ => false
  end.

Definition count_viral (postId : string) (log : list Event) : nat :=
  List.length (filter (is_viral_event postId) log).

Definition viral_at (postId : string) (w : World) : Prop :=
  exists p, lookup_post postId w = Some p /\ isViral p = true.

(** What no handler of the core changes in a post, and the one direction
    in which [isViral] moves. *)
Definition post_evolves (p p' : Post) : Prop :=
  post_id p' = post_id p
  /\ maxInvestors p' = maxInvestors p
  /\ upvoteCount p' = upvoteCount p
  /\ (isViral p = true -> isViral p' = true).

(** One turn of the worker's loop. *)
Definition sweep_row (now : nat) (row : Post * option User) : M unit :=
  let '(post, creator) := row in
  if isViral post then ret tt
  else if VIRAL_UPVOTE_THRESHOLD <=? upvoteCount post
  then
    markPostViral now (post_id post) ;;;
    match creator with
    | Some c => broadcast (viralNotification (post_id post)
                             (viral_message post c))
    | None => throw "Cannot read properties of null (reading 'username')"
    end
  else ret tt.

(** The events a run of the worker adds to the log. *)
Definition new_events (w w' : World) : list Event :=
  skipn (List.length (broadcasts w)) (broadcasts w').

(** Every post that carries the id is viral. *)
Definition all_viral (id : string) (l : list Post) : Prop :=
  forall p, In p l -> post_id p = id -> isViral p = true.

(** What a run of the worker's loop over [rows] does to the world. *)
Record sweep_facts (now : nat) (rows : list (Post * option User))
    (w w' : World) : Prop := {
  sf_users : users w' = users w;
  sf_payments : payments w' = payments w;
  sf_fees : platformFees w' = platformFees w;
  sf_investors : investors w' = investors w;
  sf_settlements : settlements w' = settlements w;
  sf_nextId : nextId w' = nextId w;
  sf_posts : Forall2 post_evolves (posts w) (posts w');
  sf_promoted :
    forall p p', In (p, p') (combine (posts w) (posts w')) ->
      isViral p = false -> isViral p' = true ->
      exists row, In row rows /\ post_id (fst row) = post_id p
                  /\ isViral (fst row) = false
                  /\ VIRAL_UPVOTE_THRESHOLD <= upvoteCount (fst row);
  sf_events :
    exists bs,
      broadcasts w' = (broadcasts w ++ bs)%list
      /\ (forall e, In e bs ->
            exists row msg, In row rows
              /\ e = viralNotification (post_id (fst row)) msg
              /\ isViral (fst row) = false
              /\ VIRAL_UPVOTE_THRESHOLD <= upvoteCount (fst row))
      /\ (forall id,
            (count_viral id bs
             <= List.length
                  (filter (fun row => String.eqb (post_id (fst row)) id) rows))%nat)
      /\ (forall id, (1 <= count_viral id bs)%nat -> all_viral id (posts w'))
}.

(** The rows the worker iterates over. *)
Definition snapshot (w : World) : list (Post * option User) :=
  map (fun p =>
         (p, find (fun u => String.eqb (user_id u) (creatorId p)) (users w)))
      (rev (posts w)).

(** The record and the world a first comment payment leaves. *)
Definition comment_fee_record (req : PayRequest) (user : User) (post : Post)
    (id : nat) : Payment :=
  mkPayment id (user_id user) (post_id post)
    (match commentFee post with Some f => f | None => 0%Q end)
    (orElse (Some (req_cryptocurrency req)) "USDC")
    (orElse (req_network req) "base-sepolia") false
    (mock_tx (req_transactionHash req)
       ("mock_tx_comment_" ++ req_cryptocurrency req))
    comment.

Definition comment_paid (req : PayRequest) (user : User) (post : Post)
    (w : World) : World :=
  set_notifications
    (set_platformFees
       (set_payments w
          (payments w ++ [comment_fee_record req user post (nextId w)])
          (S (nextId w)))
       (platformFees w
        ++ [mkPlatformFee (nextId w) (post_id post) PLATFORM_FEE_USDC "USDC"
              (mock_tx (req_transactionHash req) "platform_fee_comment")
              PLATFORM_WALLET "completed"]))
    (notifications w
     ++ [mkNotification (creatorId post) "comment_unlock" (user_id user)
           (post_id post)]).

(** What one step of a run does to the viral flag of a post and to the
    notifications about it. *)
Definition viral_step (id : string) (w w' : World) : Prop :=
  Forall2 post_evolves (posts w) (posts w')
  /\ exists bs,
       broadcasts w' = (broadcasts w ++ bs)%list
       /\ (count_viral id bs <= 1)%nat
       /\ ((1 <= count_viral id bs)%nat -> viral_at id w')
       /\ (viral_at id w -> count_viral id bs = 0%nat).

(** The investor positions of a post are 1, 2, ..., in the order in which
    they were taken. *)
Definition dense (postId : string) (w : World) : Prop :=
  positions postId w
  = map Z.of_nat (seq 1 (List.length (positions postId w))).

(** *** Vocabulary of the settlement and of the access gate *)




(** The wallet the media route looks the viewer up with. *)
Definition media_wallet (req : MediaRequest) : option string :=
  if is_truthy (media_query_wallet req)
     && negb (is_truthy (media_header_wallet req))
  then media_query_wallet req
  else media_header_wallet req.

(** The viewer may see the media: the post is free, or the viewer is its
    creator, or holds a content record for it. *)
Definition entitled (req : MediaRequest) (post : Post) (w : World) : bool :=
  isFree post
  || match whoami (media_wallet req) w with
     | Some u =>
         String.eqb (user_id u) (creatorId post)
         || has_record (user_id u) (media_postId req) content w
     | None => false
     end.

(** The decrypted media of a post, when the blob can be read and both
    authentication tags verify. *)
Definition plaintext (env : Env) (post : Post) : option (list byte) :=
  match readEncryptedFile env (encryptedMediaPath post) with
  | None => None
  | Some encryptedBuffer =>
      match aes256gcmDecipher env (MASTER_KEY_BUFFER env)
              (base64Decode env (post_iv post))
              (base64Decode env (post_authTag post))
              (base64Decode env (encryptedKey post))
      with
      | None => None
      | Some contentKey =>
          aes256gcmDecipher env contentKey (slice encryptedBuffer 0 12)
            (slice_from encryptedBuffer (-16))
            (slice encryptedBuffer 12 (-16))
      end
  end.

Definition mimeType (post : Post) : string :=
  if String.eqb (mediaType post) "image" then "image/jpeg" else "video/mp4".

(** The character occurs in the string. *)
Fixpoint has_char (c : ascii) (s : string) : bool :=
  match s with
  | EmptyString => false
  | String d s' => Ascii.eqb d c || has_char c s'
  end.

(** *** Consistency of the ledger *)

(** The columns of an investor row that never change. *)
Definition inv_key (i : Investor) : nat * string * string * Z :=
  (inv_id i, inv_postId i, inv_userId i, inv_position i).

(** What the payment routes keep true of the ledger: the positions of
    every post are dense, every investor holds a content record for the
    post, no post has more investors than content payments, and the ids of
    the investor rows are distinct and below the next id to hand out. *)
Definition consistent (w : World) : Prop :=
  (forall id, dense id w)
  /\ (forall i, In i (investors w) ->
        has_record (inv_userId i) (inv_postId i) content w = true)
  /\ (forall id,
        (List.length (investorsOf id w) <= content_count id w)%nat)
  /\ NoDup (map inv_id (investors w))
  /\ (forall i, In i (investors w) -> (inv_id i < nextId w)%nat).

(** The media request of the payer of a payment request. *)
Definition media_request_of (req : PayRequest) : MediaRequest :=
  mkMediaRequest (req_wallet req) None (req_postId req).

(** *** The viral detection worker, as a function *)

(** The worker promotes the post: not yet viral, ten upvotes or more. *)
Definition eligible (p : Post) : bool :=
  negb (isViral p) && (VIRAL_UPVOTE_THRESHOLD <=? upvoteCount p).

Definition swept (now : nat) (p : Post) : Post :=
  if eligible p then set_viral p now else p.

(** The user row the join finds for the creator of a post. *)
Definition creatorOf (p : Post) (w : World) : option User :=
  find (fun u => String.eqb (user_id u) (creatorId p)) (users w).

(** The notifications of a run: one for each eligible post, newest first. *)
Definition viral_events (w : World) : list Event :=
  flat_map
    (fun p =>
       match creatorOf p w with
       | Some c => [viralNotification (post_id p) (viral_message p c)]
       | None => []
       end)
    (filter eligible (rev (posts w))).

(** The posts whose id is listed are marked viral. *)
Definition mark (now : nat) (ids : list string) (p : Post) : Post :=
  if existsb (String.eqb (post_id p)) ids then set_viral p now else p.

(** *** Votes and their tally *)

Definition is_up (t : string) : bool := String.eqb t "up".

Definition up_votes (postId : string) (l : list Vote) : nat :=
  List.length
    (filter (fun v => String.eqb (vote_postId v) postId && is_up (voteType v))
       l).

Definition down_votes (postId : string) (l : list Vote) : nat :=
  List.length
    (filter (fun v => String.eqb (vote_postId v) postId
                      && negb (is_up (voteType v))) l).

(** The counters of every post agree with the votes table. *)
Definition tallied (b : Ballots) : Prop :=
  forall p, In p (posts (ledger b)) ->
    upvoteCount p = Z.of_nat (up_votes (post_id p) (votes b))
    /\ downvoteCount p = Z.of_nat (down_votes (post_id p) (votes b)).

(** [uniqueUserPostVote]. *)
Definition one_vote_each (b : Ballots) : Prop :=
  NoDup (map (fun v => (vote_userId v, vote_postId v)) (votes b)).

Definition vote_key (v : Vote) : string * string :=
  (vote_userId v, vote_postId v).

Definition b2n (b : bool) : nat := if b then 1%nat else 0%nat.

(** [UPDATE votes SET voteType = t] on the vote of the user for the post. *)
Definition recast (u p t : string) (v : Vote) : Vote :=
  if same_vote u p v then set_voteType v t else v.

(** [UPDATE posts SET ... WHERE id = postId] with the increments of
    [updates]. *)
Definition recount (postId : string) (updates : Updates) (l : list Post)
    : list Post :=
  map (fun q => if String.eqb (post_id q) postId
                then apply_updates updates q else q) l.

(** *** The backfill *)

Definition has_buyout (postId : string) (w : World) : bool :=
  existsb (fun p => String.eqb (post_id p) postId
                    && match buyoutPrice p with
                       | Some _ => true
                       | None => false
                       end) (posts w).

(** The earnings the backfill writes for the investors of a post: five
    cents for each content payment after the tenth. *)
Definition backfill_earnings (postId : string) (w : World) : Q :=
  toFixed2
    (inject_Z
       (Z.of_nat
          (List.length
             (skipn 10
                (filter
                   (fun r => String.eqb (pay_postId r) postId
                             && PaymentType_eqb (pay_paymentType r) content)
                   (payments w)))))
     * (5 # 100))%Q.

(** What the backfill makes of an investor row. *)
Definition backfilled (w : World) (i : Investor) : Investor :=
  if has_buyout (inv_postId i) w
  then set_totalEarnings i (backfill_earnings (inv_postId i) w)
  else i.

(** The rows the loops of the backfill overwrite. *)
Definition overwrite (l : list Investor) (e : Q) (i : Investor) : Investor :=
  if existsb (fun inv => (inv_id i =? inv_id inv)%nat) l
  then set_totalEarnings i e else i.

Definition with_buyout (p : Post) : bool :=
  match buyoutPrice p with
  | Some _ => true
  | None => false
  end.

(** * Properties *)

(** ** PaymentLedger.hasPaid *)

Lemma find_existsb {A} (f : A -> bool) (l : list A) :
  match find f l with Some _ => true | None => false end = existsb f l.
Proof.
  induction l as [|a l IH]; simpl; [reflexivity|].
  destruct (f a); simpl; auto.
Qed.

Lemma hasUserPaid_eq userId postId paymentType w :
  hasUserPaid userId postId paymentType w
  = (Ok (post_is_free postId w || has_record userId postId paymentType w), w).
Proof.
  unfold hasUserPaid, bind, getPost, get, ret, post_is_free, lookup_post,
    has_record.
  destruct (find _ (posts w)) as [p|]; simpl.
  - destruct (isFree p); simpl; [reflexivity|].
    now rewrite find_existsb.
  - now rewrite find_existsb.
Qed.

(** C7, as amended.  [hasUserPaid] answers true for every free post,
    whatever the payment type, and otherwise answers true exactly when a
    record matching (userId, postId, paymentType) exists; it never throws
    and writes nothing. *)
Theorem hasUserPaid_free_or_record :
  forall userId postId paymentType w,
    exists b,
      hasUserPaid userId postId paymentType w = (Ok b, w)
      /\ (b = true <->
          post_is_free postId w = true
          \/ has_record userId postId paymentType w = true).
Proof.
  intros. eexists. split; [apply hasUserPaid_eq|].
  apply orb_true_iff.
Qed.

(** C7, as stated, fails: on the free post [p2] nobody holds a [comment]
    record, yet [hasUserPaid] answers true where the document's [hasPaid]
    answers false. *)
Lemma hasUserPaid_differs_from_spec :
  fst (hasUserPaid "u1" "p2" comment Demo.world0) = Ok true
  /\ hasPaid_spec "u1" "p2" comment Demo.world0 = false
  /\ has_record "u1" "p2" comment Demo.world0 = false.
Proof. repeat split. Qed.

Lemma world_eta w :
  mkWorld (users w) (posts w) (payments w) (platformFees w) (investors w)
    (notifications w) (directMessages w) (nextId w) (broadcasts w)
    (settlements w) = w.
Proof. now destruct w. Qed.

Lemma createPayment_eq v w : createPayment v w = insert_payment v w.
Proof.
  unfold createPayment, bind.
  destruct (insert_payment v w) as [[r|e] w'] eqn:E; [|reflexivity].
  unfold getPost, get.
  destruct (find _ (posts w')) as [p|]; [|reflexivity].
  destruct (negb _); reflexivity.
Qed.

Lemma forEach_broadcast {A} (f : A -> Event) (l : list A) w :
  forEach l (fun x => broadcast (f x)) w
  = (Ok tt, set_broadcasts w (broadcasts w ++ map f l)).
Proof.
  revert w. induction l as [|a l IH]; intros w; simpl.
  - unfold ret, set_broadcasts. now rewrite app_nil_r, world_eta.
  - unfold bind, broadcast at 1, modify. rewrite IH.
    unfold set_broadcasts; simpl. now rewrite <- app_assoc.
Qed.

Lemma announce_eq user post w :
  exists bs ns ds,
    announce user post w
    = (Ok tt,
       mkWorld (users w) (posts w) (payments w) (platformFees w) (investors w)
         ns ds (nextId w) (broadcasts w ++ bs) (settlements w)).
Proof.
  unfold announce, bind, getInvestorCount, get, broadcast at 1, modify.
  rewrite forEach_broadcast. simpl.
  destruct (negb _); simpl; unfold swallow, ret; simpl;
    rewrite <- app_assoc; do 3 eexists; reflexivity.
Qed.

Lemma getCurrentUser_eq wallet w :
  getCurrentUser wallet w = (Ok (whoami wallet w), w).
Proof.
  unfold getCurrentUser, whoami. destruct wallet as [a|]; [|reflexivity].
  destruct (String.eqb a EmptyString); reflexivity.
Qed.

Lemma find_map_key {A} (key : A -> string) (h : A -> A) (id : string) l :
  (forall a, key (h a) = key a) ->
  find (fun a => String.eqb (key a) id) (map h l)
  = option_map h (find (fun a => String.eqb (key a) id) l).
Proof.
  intros Hk. induction l as [|a l IH]; simpl; [reflexivity|].
  rewrite Hk. destruct (String.eqb (key a) id); simpl; auto.
Qed.

Lemma lookup_post_viewed id id' w :
  lookup_post id (viewed id' w)
  = option_map (fun p => if String.eqb (post_id p) id'
                         then set_viewCount p (viewCount p + 1) else p)
      (lookup_post id w).
Proof.
  unfold lookup_post, viewed; simpl.
  apply (find_map_key post_id). intros a.
  destruct (String.eqb (post_id a) id'); reflexivity.
Qed.

Lemma lookup_post_id id w p : lookup_post id w = Some p -> post_id p = id.
Proof.
  unfold lookup_post. intros H. apply find_some in H as [_ H].
  now apply String.eqb_eq.
Qed.

Lemma pay_eq env req w :
  pay env req w =
  match whoami (req_wallet req) w with
  | None => (Ok Unauthorized401, w)
  | Some user =>
      match lookup_post (req_postId req) w with
      | None => (Ok NotFound404, w)
      | Some post =>
          let wv := viewed (req_postId req) w in
          if negb (includes (split "," (acceptedCryptos post))
                     (req_cryptocurrency req))
          then (Ok (CurrencyNotAccepted400 (req_cryptocurrency req)), wv)
          else if isFree post
                  || has_record (user_id user) (post_id post) content w
          then (Ok (Success true), wv)
          else if network_rejected env req
          then (Ok (InvalidNetwork400 (selectedNetwork env req)
                      (req_cryptocurrency req)), wv)
          else if req_isBuyout req
                  && (maxInvestorSlots post
                      <=? Z.of_nat (List.length (investorsOf (post_id post) w)))
          then (Ok (SlotsFull400 (maxInvestorSlots post)), wv)
          else recordPayment env req user post (selectedNetwork env req) wv
      end
  end.
Proof.
  unfold pay, bind. rewrite getCurrentUser_eq.
  destruct (whoami _ w) as [user|]; [|reflexivity].
  unfold getPost at 1, get. fold (lookup_post (req_postId req) w).
  destruct (lookup_post _ w) as [post|] eqn:Hp; [|reflexivity].
  unfold swallow, incrementViewCount, update_post, modify; simpl.
  fold (viewed (req_postId req) w).
  destruct (negb (includes _ _)); [reflexivity|].
  rewrite hasUserPaid_eq.
  assert (Hfree : post_is_free (post_id post) (viewed (req_postId req) w)
                  = isFree post).
  { unfold post_is_free. rewrite lookup_post_viewed.
    rewrite (lookup_post_id _ _ _ Hp), Hp; simpl.
    destruct (String.eqb _ _); reflexivity. }
  rewrite Hfree.
  change (has_record (user_id user) (post_id post) content
            (viewed (req_postId req) w))
    with (has_record (user_id user) (post_id post) content w).
  destruct (isFree post || has_record _ _ _ w); [reflexivity|].
  destruct (network_rejected env req); [reflexivity|].
  unfold getInvestorCount, get.
  change (investors (viewed (req_postId req) w)) with (investors w).
  fold (investorsOf (post_id post) w).
  destruct (req_isBuyout req && _); reflexivity.
Qed.

Lemma forEach_update per l w :
  forEach l (fun investor =>
    update_totalEarnings (inv_id investor)
      (toFixed6 (totalEarnings investor + per))) w
  = (Ok tt, set_investors w (distribute per l (investors w)) (nextId w)).
Proof.
  revert w. induction l as [|a l IH]; intros w; simpl.
  - unfold ret, set_investors, distribute; simpl. now rewrite world_eta.
  - unfold bind, update_totalEarnings at 1, modify. rewrite IH.
    reflexivity.
Qed.

Lemma settle_eq r w : settle r w = (Ok tt, set_settlements w (settlements w ++ [r])).
Proof. reflexivity. Qed.

Lemma allocate_buyout env req user post creator existing n w :
  buyout_branch req post existing = true ->
  allocate env req user post creator existing n w
  = insert_investor (post_id post) (user_id user)
      (Z.of_nat (List.length existing) + 1)
      (match buyoutPrice post with Some b => b | None => price post end)
      0%Q w.
Proof.
  unfold allocate, buyout_branch. intros ->. reflexivity.
Qed.

Lemma allocate_distribute env req user post creator existing n w :
  buyout_branch req post existing = false ->
  distribution_branch post existing n = true ->
  exists ss,
    allocate env req user post creator existing n w
    = (Ok tt,
       set_settlements
         (set_investors w
            (distribute
               (earningsPerInvestor req post (List.length existing))
               existing (investors w))
            (nextId w))
         (settlements w ++ ss)).
Proof.
  unfold allocate, buyout_branch, distribution_branch. intros -> ->.
  unfold bind. 
  rewrite forEach_update. unfold get.
  destruct creator as [c|].
  - rewrite settle_eq. eexists [_]. reflexivity.
  - exists []. unfold ret, set_settlements; simpl. now rewrite app_nil_r.
Qed.

Lemma allocate_regular env req user post creator existing n w :
  buyout_branch req post existing = false ->
  distribution_branch post existing n = false ->
  exists ss,
    allocate env req user post creator existing n w
    = (Ok tt, set_settlements w (settlements w ++ ss)).
Proof.
  unfold allocate, buyout_branch, distribution_branch. intros -> ->.
  destruct creator as [c|].
  - destruct (negb (isFree post)).
    + rewrite settle_eq. eexists [_]. reflexivity.
    + exists []. unfold ret, set_settlements. now rewrite app_nil_r, world_eta.
  - exists []. unfold ret, set_settlements. now rewrite app_nil_r, world_eta.
Qed.

Lemma PaymentType_eqb_refl t : PaymentType_eqb t t = true.
Proof. now destruct t. Qed.

Lemma matches_content_record env req user post id :
  matches_payment (user_id user) (post_id post) content
    (content_record env req user post id) = true.
Proof.
  unfold matches_payment; simpl. now rewrite !String.eqb_refl.
Qed.

Lemma content_count_recorded env req user post w :
  content_count (post_id post) (recorded env req user post w)
  = S (content_count (post_id post) w).
Proof.
  unfold content_count, recorded; simpl.
  rewrite filter_app, length_app; simpl.
  rewrite String.eqb_refl; simpl. lia.
Qed.

Lemma grantCommentAccess_eq req user post w :
  grantCommentAccess req user post w
  = if commentsLocked post
    then
      if has_record (user_id user) (post_id post) comment w
      then (Throw "duplicate key value violates unique constraint", w)
      else (Ok tt,
            set_payments w
              (payments w ++ [comment_record req user post (nextId w)])
              (S (nextId w)))
    else (Ok tt, w).
Proof.
  unfold grantCommentAccess. destruct (commentsLocked post); [|reflexivity].
  unfold bind. rewrite createPayment_eq. unfold insert_payment, has_record.
  simpl. destruct (existsb _ _); reflexivity.
Qed.

Lemma recordPayment_step env req user post w :
  isFree post = false ->
  has_record (user_id user) (post_id post) content w = false ->
  recordPayment env req user post (selectedNetwork env req) w
  = match allocated env req user post w with
    | (Throw e, w2) => (Throw e, w2)
    | (Ok _, w2) =>
        match grantCommentAccess req user post (snd (announce user post w2))
        with
        | (Throw e, w4) => (Throw e, w4)
        | (Ok _, w4) => (Ok (Success false), w4)
        end
    end.
Proof.
  intros Hfree Hrec.
  unfold recordPayment, bind. rewrite createPayment_eq.
  unfold insert_payment; simpl.
  unfold has_record in Hrec. rewrite Hrec, Hfree; simpl.
  unfold allocated, recorded, content_count, investorsOf, fee_record,
    content_record; simpl.
  destruct (allocate _ _ _ _ _ _ _ _) as [[[]|e] w2]; [|reflexivity].
  destruct (announce_eq user post w2) as (bs & ns & ds & ->); simpl.
  destruct (grantCommentAccess _ _ _ _) as [[[]|e] w4]; reflexivity.
Qed.

Lemma pay_validate env req w :
  pay env req w =
  match validate env req w with
  | inl r =>
      (Ok r,
       match whoami (req_wallet req) w, lookup_post (req_postId req) w with
       | Some _, Some _ => viewed (req_postId req) w
       | _, _ => w
       end)
  | inr (user, post) =>
      if slots_full req post w
      then (Ok (SlotsFull400 (maxInvestorSlots post)),
            viewed (req_postId req) w)
      else recordPayment env req user post (selectedNetwork env req)
             (viewed (req_postId req) w)
  end.
Proof.
  rewrite pay_eq. unfold validate, slots_full.
  destruct (whoami _ w) as [user|]; [|reflexivity].
  destruct (lookup_post _ w) as [post|]; [|reflexivity].
  cbv zeta.
  destruct (negb (includes _ _)); [reflexivity|].
  destruct (isFree post || _); [reflexivity|].
  destruct (network_rejected env req); reflexivity.
Qed.

Lemma validate_inr env req w user post :
  validate env req w = inr (user, post) ->
  whoami (req_wallet req) w = Some user
  /\ lookup_post (req_postId req) w = Some post
  /\ post_id post = req_postId req
  /\ includes (split "," (acceptedCryptos post)) (req_cryptocurrency req) = true
  /\ isFree post = false
  /\ has_record (user_id user) (post_id post) content w = false
  /\ network_rejected env req = false.
Proof.
  unfold validate.
  destruct (whoami _ w) as [u|]; [|discriminate].
  destruct (lookup_post _ w) as [p|] eqn:Hp; [|discriminate].
  destruct (includes _ _) eqn:Hi; simpl; [|discriminate].
  destruct (isFree p) eqn:Hf; simpl; [discriminate|].
  destruct (has_record _ _ _ w) eqn:Hr; [discriminate|].
  destruct (network_rejected env req); [discriminate|].
  intros H; inversion H; subst.
  repeat split; auto. eapply lookup_post_id; eauto.
Qed.

Lemma validate_inl env req w r :
  validate env req w = inl r ->
  r <> Success false /\ (forall e, r <> Error500 e)
  /\ (forall n, r <> SlotsFull400 n).
Proof.
  unfold validate.
  destruct (whoami _ w) as [u|]; [|intros H; inversion H; repeat split; congruence].
  destruct (lookup_post _ w) as [p|] eqn:Hp; [|intros H; inversion H; repeat split; congruence].
  destruct (negb _); [intros H; inversion H; repeat split; congruence|].
  destruct (_ || _); [intros H; inversion H; repeat split; congruence|].
  destruct (network_rejected env req); intros H; inversion H;
    repeat split; congruence.
Qed.

Lemma length_insert_by_position i l :
  List.length (insert_by_position i l) = S (List.length l).
Proof.
  induction l as [|j l IH]; simpl; [reflexivity|].
  destruct (_ <? _); simpl; auto.
Qed.

Lemma length_orderBy_position l :
  List.length (orderBy_position l) = List.length l.
Proof.
  unfold orderBy_position. rewrite <- (length_rev l).
  induction (rev l) as [|a r IH]; simpl; [reflexivity|].
  now rewrite length_insert_by_position, IH.
Qed.

(** What the investor step leaves alone, and what it does to the
    investors and to the settlement log. *)
Lemma allocated_frame env req user post w o w2 :
  allocated env req user post w = (o, w2) ->
  users w2 = users w /\ posts w2 = posts w
  /\ payments w2
     = (payments w ++ [content_record env req user post (nextId w)])%list
  /\ platformFees w2
     = (platformFees w ++ [fee_record req post (nextId w)])%list
  /\ broadcasts w2 = broadcasts w
  /\ notifications w2 = notifications w
  /\ directMessages w2 = directMessages w.
Proof.
  unfold allocated. intros H.
  destruct (buyout_branch req post (orderBy_position (investorsOf (post_id post) w))) eqn:Hb.
  - rewrite allocate_buyout in H by exact Hb.
    unfold insert_investor in H.
    destruct (existsb _ _); inversion H; subst; simpl; repeat split.
  - destruct (distribution_branch post
                (orderBy_position (investorsOf (post_id post) w))
                (content_count (post_id post) (recorded env req user post w)))
      eqn:Hd.
    + eapply allocate_distribute in Hd; [|exact Hb].
      destruct Hd as [ss Hd]. rewrite Hd in H. inversion H; subst; simpl.
      repeat split.
    + eapply allocate_regular in Hd; [|exact Hb].
      destruct Hd as [ss Hd]. rewrite Hd in H. inversion H; subst; simpl.
      repeat split.
Qed.

Lemma allocated_investors env req user post w o w2 :
  allocated env req user post w = (o, w2) ->
  let existing := orderBy_position (investorsOf (post_id post) w) in
  (buyout_branch req post existing = true
   /\ settlements w2 = settlements w
   /\ ((exists e, o = Throw e) /\ investors w2 = investors w
       \/ o = Ok tt
          /\ investors w2
             = (investors w ++ [investor_row user post (S (nextId w)) w])%list))
  \/ (buyout_branch req post existing = false
      /\ o = Ok tt
      /\ (exists ss, settlements w2 = (settlements w ++ ss)%list)
      /\ (distribution_branch post existing (S (content_count (post_id post) w))
          = true
          /\ investors w2
             = distribute
                 (earningsPerInvestor req post (List.length existing))
                 existing (investors w)
          \/ distribution_branch post existing
               (S (content_count (post_id post) w)) = false
             /\ investors w2 = investors w)).
Proof.
  unfold allocated. rewrite content_count_recorded. intros H. cbv zeta.
  destruct (buyout_branch req post (orderBy_position (investorsOf (post_id post) w))) eqn:Hb.
  - left. split; [reflexivity|].
    rewrite allocate_buyout in H by exact Hb.
    unfold insert_investor in H.
    destruct (existsb _ _); inversion H; subst; simpl.
    + split; [reflexivity|]. left. split; [eauto|reflexivity].
    + split; [reflexivity|]. right. split; [reflexivity|].
      unfold investor_row. now rewrite length_orderBy_position.
  - right. split; [reflexivity|].
    destruct (distribution_branch post
                (orderBy_position (investorsOf (post_id post) w))
                (S (content_count (post_id post) w))) eqn:Hd.
    + eapply allocate_distribute in Hd; [|exact Hb].
      destruct Hd as [ss Hd]. rewrite Hd in H. inversion H; subst; simpl.
      split; [reflexivity|]. split; [eauto|]. left. split; reflexivity.
    + eapply allocate_regular in Hd; [|exact Hb].
      destruct Hd as [ss Hd]. rewrite Hd in H. inversion H; subst; simpl.
      split; [reflexivity|]. split; [eauto|]. right. split; reflexivity.
Qed.

Lemma announce_frame user post w :
  let w3 := snd (announce user post w) in
  users w3 = users w /\ posts w3 = posts w /\ payments w3 = payments w
  /\ platformFees w3 = platformFees w /\ investors w3 = investors w
  /\ nextId w3 = nextId w /\ settlements w3 = settlements w.
Proof.
  destruct (announce_eq user post w) as (bs & ns & ds & ->); simpl.
  repeat split.
Qed.

Lemma has_record_viewed u p t id w :
  has_record u p t (viewed id w) = has_record u p t w.
Proof. reflexivity. Qed.

Lemma has_record_comment_allocated env req user post w o w2 :
  allocated env req user post w = (o, w2) ->
  has_record (user_id user) (post_id post) comment
    (snd (announce user post w2))
  = has_record (user_id user) (post_id post) comment w.
Proof.
  intros H. apply allocated_frame in H as (_ & _ & Hp & _).
  destruct (announce_frame user post w2) as (_ & _ & Hp3 & _).
  unfold has_record. rewrite Hp3, Hp, existsb_app; simpl.
  unfold matches_payment at 2; simpl.
  now rewrite !andb_false_r, orb_false_r.
Qed.

(** The handler, path by path. *)
Lemma POST_pay_run env req w :
  match validate env req w with
  | inl r =>
      POST_pay env req w
      = (r,
         match whoami (req_wallet req) w, lookup_post (req_postId req) w with
         | Some _, Some _ => viewed (req_postId req) w
         | _, _ => w
         end)
  | inr (user, post) =>
      if slots_full req post w
      then POST_pay env req w
           = (SlotsFull400 (maxInvestorSlots post), viewed (req_postId req) w)
      else
        match allocated env req user post (viewed (req_postId req) w) with
        | (Throw e, w2) => POST_pay env req w = (Error500 e, w2)
        | (Ok _, w2) =>
            let w3 := snd (announce user post w2) in
            if commentsLocked post
            then
              if has_record (user_id user) (post_id post) comment w
              then POST_pay env req w
                   = (Error500
                        "duplicate key value violates unique constraint", w3)
              else POST_pay env req w
                   = (Success false,
                      set_payments w3
                        (payments w3
                         ++ [comment_record req user post (nextId w3)])
                        (S (nextId w3)))
            else POST_pay env req w = (Success false, w3)
        end
  end.
Proof.
  unfold POST_pay, respond. rewrite pay_validate.
  destruct (validate env req w) as [r|[user post]] eqn:Hv; [reflexivity|].
  destruct (slots_full req post w) eqn:Hs; [reflexivity|].
  apply validate_inr in Hv as (_ & _ & _ & _ & Hfree & Hrec & _).
  rewrite recordPayment_step by assumption.
  destruct (allocated env req user post _) as [[[]|e] w2] eqn:Ha;
    [|reflexivity].
  cbv zeta. rewrite grantCommentAccess_eq.
  rewrite (has_record_comment_allocated _ _ _ _ _ _ _ Ha).
  rewrite has_record_viewed.
  destruct (commentsLocked post); [|reflexivity].
  destruct (has_record _ _ comment w); reflexivity.
Qed.

Lemma filter_none {A} (f : A -> bool) l : existsb f l = false -> filter f l = [].
Proof.
  induction l as [|a l IH]; simpl; [reflexivity|].
  destruct (f a); simpl; [discriminate|exact IH].
Qed.

(** What a successful payment leaves in the ledger. *)
Lemma POST_pay_success env req w w1 :
  POST_pay env req w = (Success false, w1) ->
  exists user post w2,
    validate env req w = inr (user, post)
    /\ slots_full req post w = false
    /\ allocated env req user post (viewed (req_postId req) w) = (Ok tt, w2)
    /\ users w1 = users w
    /\ posts w1 = posts (viewed (req_postId req) w)
    /\ platformFees w1
       = (platformFees w ++ [fee_record req post (nextId w)])%list
    /\ investors w1 = investors w2
    /\ settlements w1 = settlements w2
    /\ payments w1
       = (payments w ++ content_record env req user post (nextId w)
            :: (if commentsLocked post
                then [comment_record req user post (nextId w2)] else []))%list
    /\ (commentsLocked post = true ->
        has_record (user_id user) (post_id post) comment w = false).
Proof.
  intros H. pose proof (POST_pay_run env req w) as R.
  destruct (validate env req w) as [r|[user post]] eqn:Hv.
  - rewrite R in H. inversion H; subst.
    now apply validate_inl in Hv as [Hv _].
  - destruct (slots_full req post w) eqn:Hs.
    { rewrite R in H. discriminate. }
    destruct (allocated env req user post _) as [[[]|e] w2] eqn:Ha.
    2:{ rewrite R in H. discriminate. }
    exists user, post, w2.
    destruct (allocated_frame _ _ _ _ _ _ _ Ha)
      as (Hu & Hpo & Hpa & Hfe & _).
    destruct (announce_frame user post w2)
      as (Hu3 & Hpo3 & Hpa3 & Hfe3 & Hin3 & Hid3 & Hse3).
    cbv zeta in R.
    destruct (commentsLocked post).
    + destruct (has_record _ _ comment w) eqn:Hc.
      { rewrite R in H. discriminate. }
      rewrite R in H. inversion H; subst; simpl.
      rewrite Hu3, Hpo3, Hpa3, Hfe3, Hin3, Hid3, Hse3, Hu, Hpo, Hpa, Hfe.
      simpl. rewrite <- app_assoc. repeat split; auto.
    + rewrite R in H. inversion H; subst.
      rewrite Hu3, Hpo3, Hpa3, Hfe3, Hin3, Hse3, Hu, Hpo, Hpa, Hfe.
      repeat split; auto. discriminate.
Qed.




(** After a payment answered [alreadyPaid: false] the payer holds exactly
    one content record for the post. *)
Lemma POST_pay_success_count env req w w1 user :
  POST_pay env req w = (Success false, w1) ->
  whoami (req_wallet req) w = Some user ->
  paid_count (user_id user) (req_postId req) content w1 = 1%nat.
Proof.
  intros H Hw0.
  apply POST_pay_success in H
    as (user' & post & w2 & Hv & _ & _ & _ & _ & _ & _ & _ & Hpa & _).
  apply validate_inr in Hv as (Hw & Hp & Hid & Hi & Hfree & Hrec & _).
  rewrite Hw0 in Hw. inversion Hw; subst user'.
  unfold paid_count. rewrite Hpa, filter_app, <- Hid.
  unfold has_record in Hrec. rewrite (filter_none _ _ Hrec). simpl.
  rewrite matches_content_record.
  destruct (commentsLocked post); simpl; [|reflexivity].
  unfold matches_payment; simpl. now rewrite !andb_false_r.
Qed.


(** C10.  A payment answered [alreadyPaid: false] on a post whose comments
    are locked leaves, next to the content record, a new record of the same
    payer and post with payment type [comment], amount 0 and no buyout. *)
Theorem content_payment_grants_comment_access :
  forall env req w w1 post,
    POST_pay env req w = (Success false, w1) ->
    lookup_post (req_postId req) w = Some post ->
    commentsLocked post = true ->
    exists user r,
      whoami (req_wallet req) w = Some user
      /\ In r (payments w1) /\ ~ In r (payments w)
      /\ pay_userId r = user_id user
      /\ pay_postId r = req_postId req
      /\ pay_paymentType r = comment
      /\ pay_amount r = 0%Q
      /\ pay_isBuyout r = false
      /\ paid_count (user_id user) (req_postId req) content w1 = 1%nat.
Proof.
  intros env req w w1 post H Hp Hlock. pose proof H as H0.
  apply POST_pay_success in H
    as (user & post' & w2 & Hv & _ & _ & _ & _ & _ & _ & _ & Hpa & Hnew).
  apply validate_inr in Hv as (Hw & Hp' & Hid & _).
  rewrite Hp in Hp'. inversion Hp'; subst post'.
  pose proof (POST_pay_success_count _ _ _ _ _ H0 Hw) as Hcount.
  rewrite Hlock in Hpa. specialize (Hnew Hlock).
  exists user, (comment_record req user post (nextId w2)).
  split; [exact Hw|]. split.
  { rewrite Hpa. apply in_or_app. right. simpl. auto. }
  split.
  { intros Hin. unfold has_record in Hnew.
    rewrite <- not_true_iff_false in Hnew. apply Hnew.
    apply existsb_exists. eexists. split; [exact Hin|].
    unfold matches_payment; simpl. now rewrite !String.eqb_refl. }
  simpl. repeat split; auto.
Qed.




(** *** Revenue distribution *)

Lemma find_app {A} (f : A -> bool) l1 l2 :
  find f (l1 ++ l2)
  = match find f l1 with Some a => Some a | None => find f l2 end.
Proof.
  induction l1 as [|a l1 IH]; simpl; [reflexivity|].
  destruct (f a); auto.
Qed.

(** Row by row: a row takes the earnings computed from the last row of
    the snapshot that carries its id. *)
Lemma distribute_rows per snapshot table :
  distribute per snapshot table
  = map (fun i =>
           match find (fun inv => (inv_id i =? inv_id inv)%nat) (rev snapshot)
           with
           | Some inv =>
               set_totalEarnings i (toFixed6 (totalEarnings inv + per))
           | None => i
           end)
        table.
Proof.
  unfold distribute. revert table.
  induction snapshot as [|a l IH]; intros table; simpl.
  - symmetry. apply map_id.
  - rewrite IH, map_map. apply map_ext. intros i.
    rewrite find_app. simpl.
    destruct (inv_id i =? inv_id a)%nat eqn:E; simpl.
    + destruct (find _ (rev l)); reflexivity.
    + destruct (find _ (rev l)); reflexivity.
Qed.

Lemma In_insert_by_position x i l :
  In x (insert_by_position i l) <-> x = i \/ In x l.
Proof.
  induction l as [|j l IH]; simpl.
  - intuition.
  - destruct (_ <? _); simpl; [intuition|]. rewrite IH. intuition.
Qed.

Lemma In_orderBy_position x l : In x (orderBy_position l) <-> In x l.
Proof.
  unfold orderBy_position. rewrite (in_rev l).
  induction (rev l) as [|a r IH]; simpl; [reflexivity|].
  rewrite In_insert_by_position, IH. intuition.
Qed.

Lemma NoDup_map_eq {A B} (f : A -> B) l a b :
  NoDup (map f l) -> In a l -> In b l -> f a = f b -> a = b.
Proof.
  induction l as [|c l IH]; simpl; [tauto|].
  intros Hnd Ha Hb E. inversion Hnd as [|? ? Hc Hnd']; subst.
  destruct Ha as [->|Ha], Hb as [->|Hb]; auto.
  - elim Hc. rewrite E. now apply in_map.
  - elim Hc. rewrite <- E. now apply in_map.
Qed.




(** *** Posts along a run *)

Lemma post_evolves_refl p : post_evolves p p.
Proof. repeat split; auto. Qed.

Lemma post_evolves_trans p q r :
  post_evolves p q -> post_evolves q r -> post_evolves p r.
Proof.
  intros (A1 & A2 & A3 & A4) (B1 & B2 & B3 & B4).
  repeat split; try congruence. auto.
Qed.

Lemma evolves_refl l : Forall2 post_evolves l l.
Proof. induction l; constructor; auto using post_evolves_refl. Qed.

Lemma evolves_trans l1 l2 l3 :
  Forall2 post_evolves l1 l2 -> Forall2 post_evolves l2 l3 ->
  Forall2 post_evolves l1 l3.
Proof.
  intros H. revert l3. induction H; intros l3 H'; inversion H'; subst;
    constructor; eauto using post_evolves_trans.
Qed.

Lemma evolves_map (h : Post -> Post) l :
  (forall p, post_evolves p (h p)) -> Forall2 post_evolves l (map h l).
Proof. intros Hh. induction l; simpl; constructor; auto. Qed.

Lemma evolves_viewed id w : Forall2 post_evolves (posts w) (posts (viewed id w)).
Proof.
  unfold viewed; simpl. apply evolves_map. intros p.
  destruct (String.eqb _ _); repeat split; auto.
Qed.

Lemma evolves_ids l l' :
  Forall2 post_evolves l l' -> map post_id l' = map post_id l.
Proof.
  induction 1 as [|p p' l l' (H & _) _ IH]; simpl; congruence.
Qed.

Lemma evolves_lookup id l l' p :
  Forall2 post_evolves l l' ->
  find (fun q => String.eqb (post_id q) id) l = Some p ->
  exists p', find (fun q => String.eqb (post_id q) id) l' = Some p'
             /\ post_evolves p p'.
Proof.
  induction 1 as [|q q' l l' Hq _ IH]; simpl; [discriminate|].
  destruct Hq as (Hid & Hrest). rewrite Hid.
  destruct (String.eqb (post_id q) id).
  - intros E; inversion E; subst. eexists; split; [reflexivity|].
    split; auto.
  - exact IH.
Qed.

Lemma evolves_lookup_none id l l' :
  Forall2 post_evolves l l' ->
  find (fun q => String.eqb (post_id q) id) l = None ->
  find (fun q => String.eqb (post_id q) id) l' = None.
Proof.
  induction 1 as [|q q' l l' (Hid & _) _ IH]; simpl; [reflexivity|].
  rewrite Hid. destruct (String.eqb (post_id q) id); [discriminate|exact IH].
Qed.

(** *** The viral detection worker *)

Lemma all_viral_evolves id l l' :
  Forall2 post_evolves l l' -> all_viral id l -> all_viral id l'.
Proof.
  induction 1 as [|p p' l l' (Hid & _ & _ & Hv) _ IH]; intros Ha q Hq E.
  - inversion Hq.
  - destruct Hq as [<-|Hq].
    + apply Hv. apply Ha; [now left|congruence].
    + apply IH; auto. intros r Hr. apply Ha. now right.
Qed.

Lemma all_viral_marked now id l :
  all_viral id
    (map (fun p => if String.eqb (post_id p) id then set_viral p now else p) l).
Proof.
  intros q Hq E. apply in_map_iff in Hq as (p & <- & _).
  destruct (String.eqb (post_id p) id) eqn:F; [reflexivity|].
  apply String.eqb_neq in F. now elim F.
Qed.

Lemma evolves_marked now id l :
  Forall2 post_evolves l
    (map (fun p => if String.eqb (post_id p) id then set_viral p now else p) l).
Proof.
  apply evolves_map. intros p.
  destruct (String.eqb _ _); repeat split; auto.
Qed.

Lemma count_viral_app id l1 l2 :
  count_viral id (l1 ++ l2) = (count_viral id l1 + count_viral id l2)%nat.
Proof. unfold count_viral. now rewrite filter_app, length_app. Qed.

Lemma sweep_facts_nil now w : sweep_facts now [] w w.
Proof.
  constructor; auto using evolves_refl.
  - intros p p' Hin Hf Ht. exfalso.
    assert (p = p').
    { clear -Hin. induction (posts w) as [|a l IH]; simpl in Hin; [tauto|].
      destruct Hin as [E|Hin]; [now inversion E|auto]. }
    congruence.
  - exists []. rewrite app_nil_r. repeat split; auto.
    + intros e [].
    + intros id Hc. inversion Hc.
Qed.

Lemma combine_map_r {A B} (h : A -> B) l a b :
  In (a, b) (combine l (map h l)) -> In a l /\ b = h a.
Proof.
  induction l as [|x l IH]; simpl; [tauto|].
  intros [E|H]; [inversion E; auto|]. apply IH in H. tauto.
Qed.

Lemma combine_evolves_trans {A} (l1 l2 l3 : list A) (p r : A) :
  List.length l1 = List.length l2 -> List.length l2 = List.length l3 ->
  In (p, r) (combine l1 l3) ->
  exists q, In (p, q) (combine l1 l2) /\ In (q, r) (combine l2 l3).
Proof.
  revert l2 l3. induction l1 as [|a l1 IH]; intros [|b l2] [|c l3];
    simpl; try tauto; try discriminate.
  intros H1 H2 [E|H].
  - inversion E; subst. exists b. auto.
  - destruct (IH l2 l3) as (q & ? & ?); auto. exists q. auto.
Qed.

Lemma Forall2_length' {A B} (R : A -> B -> Prop) l l' :
  Forall2 R l l' -> List.length l = List.length l'.
Proof. induction 1; simpl; auto. Qed.

Lemma combine_evolves l l' p p' :
  Forall2 post_evolves l l' -> In (p, p') (combine l l') -> post_evolves p p'.
Proof.
  induction 1 as [|a b l l' Hab _ IH]; simpl; [tauto|].
  intros [E|H]; [inversion E; subst; auto|auto].
Qed.

Lemma sweep_loop now rows :
  forall w, sweep_facts now rows w (snd (forEach rows (sweep_row now) w)).
Proof.
  induction rows as [|[post creator] rows IH]; intros w.
  - apply sweep_facts_nil.
  - simpl forEach. unfold bind.
    set (loop := forEach rows (sweep_row now)) in *.
    assert (Hskip :
      sweep_facts now rows w (snd (loop w)) ->
      sweep_facts now ((post, creator) :: rows) w (snd (loop w))).
    { intros [Hu Hpa Hfe Hiv Hse Hid Hpo Hpr (bs & Hb & He & Hc & Hv)].
      constructor; auto.
      - intros p p' Hin Hf Ht.
        destruct (Hpr p p' Hin Hf Ht) as (row & ? & ?).
        exists row. split; [now right|auto].
      - exists bs. repeat split; auto.
        + intros e Hin. destruct (He e Hin) as (row & msg & ? & ?).
          exists row, msg. split; [now right|auto].
        + intros id. specialize (Hc id). simpl.
          destruct (String.eqb _ _); simpl; lia. }
    cbv beta iota.
    destruct (isViral post) eqn:Hviral.
    { unfold ret; cbv beta iota. apply Hskip, IH. }
    destruct (VIRAL_UPVOTE_THRESHOLD <=? upvoteCount post) eqn:Hup.
    2:{ unfold ret; cbv beta iota. apply Hskip, IH. }
    apply Z.leb_le in Hup.
    unfold bind, markPostViral, update_post, modify.
    set (w1 := set_posts w _).
    assert (Hmark : sweep_facts now [(post, creator)] w w1).
    { constructor; try reflexivity.
      - apply evolves_marked.
      - intros p p' Hin Hf Ht. exists (post, creator). simpl.
        apply combine_map_r in Hin as [_ ->].
        destruct (String.eqb (post_id p) (post_id post)) eqn:E;
          [|congruence].
        apply String.eqb_eq in E. repeat split; auto.
      - exists []. simpl. rewrite app_nil_r. repeat split; auto.
        + intros e [].
        + intros id. unfold count_viral; simpl. lia.
        + intros id Hc. inversion Hc. }
    destruct creator as [c|].
    + unfold broadcast, modify.
      set (e := viralNotification (post_id post) (viral_message post c)).
      set (w2 := set_broadcasts w1 (broadcasts w1 ++ [e])).
      cbv beta iota. fold w2.
      specialize (IH w2). revert IH.
      generalize (snd (loop w2)). intros w' IH.
      pose proof (sf_promoted _ _ _ _ Hmark) as Hpr1.
      destruct IH as [Hu Hpa Hfe Hiv Hse Hid Hpo Hpr (bs & Hb & He & Hc & Hv)].
      constructor;
        [exact Hu|exact Hpa|exact Hfe|exact Hiv|exact Hse|exact Hid| | | ].
      * eapply evolves_trans; [apply evolves_marked|exact Hpo].
      * intros p p' Hin Hf Ht.
        destruct (combine_evolves_trans (posts w) (posts w2) (posts w') p p')
          as (q & Hq1 & Hq2); auto.
        { simpl. now rewrite length_map. }
        { eapply Forall2_length'; eauto. }
        destruct (isViral q) eqn:Hq.
        -- destruct (Hpr1 p q Hq1 Hf Hq) as (row & [<-|[]] & ?).
           exists (post, Some c). split; [now left|auto].
        -- destruct (Hpr q p' Hq2 Hq Ht) as (row & ? & Hrid & ?).
           exists row. split; [now right|].
           assert (post_evolves p q) as (Hpq & _).
           { eapply combine_evolves; [|exact Hq1]. apply evolves_marked. }
           split; [congruence|auto].
      * exists (e :: bs). split.
        { rewrite Hb. simpl. now rewrite <- app_assoc. }
        split.
        { intros e' [<-|Hin].
          - exists (post, Some c), (viral_message post c).
            repeat split; auto. now left.
          - destruct (He e' Hin) as (row & msg & ? & ?).
            exists row, msg. split; [now right|auto]. }
        split.
        { intros id. specialize (Hc id).
          change (e :: bs) with ([e] ++ bs)%list.
          rewrite count_viral_app. unfold count_viral at 1. simpl.
          destruct (String.eqb (post_id post) id); simpl; lia. }
        { intros id Hcount.
          change (e :: bs) with ([e] ++ bs)%list in Hcount.
          rewrite count_viral_app in Hcount.
          destruct (count_viral id bs) eqn:Hn.
          - unfold count_viral in Hcount at 1. simpl in Hcount.
            destruct (String.eqb (post_id post) id) eqn:E;
              [|simpl in Hcount; lia].
            apply String.eqb_eq in E. subst id.
            eapply all_viral_evolves; [exact Hpo|].
            apply all_viral_marked.
          - apply Hv. lia. }
    + unfold throw. simpl.
      destruct Hmark
        as [Hu Hpa Hfe Hiv Hse Hid Hpo Hpr (bs & Hb & He & Hc & Hv)].
      constructor; auto.
      * intros p p' Hin Hf Ht.
        destruct (Hpr p p' Hin Hf Ht) as (row & [<-|[]] & ?).
        exists (post, None). split; [now left|auto].
      * exists bs. repeat split; auto.
        -- intros e Hin. destruct (He e Hin) as (row & msg & [<-|[]] & ?).
           exists (post, None), msg. split; [now left|auto].
        -- intros id. specialize (Hc id). simpl in *.
           destruct (String.eqb _ _); simpl in *; lia.
Qed.

Lemma viralSweep_eq now w :
  viralSweep now w = snd (forEach (snapshot w) (sweep_row now) w).
Proof. reflexivity. Qed.

Lemma viralSweep_facts now w :
  sweep_facts now (snapshot w) w (viralSweep now w).
Proof. rewrite viralSweep_eq. apply sweep_loop. Qed.

Lemma filter_key_le_1 {A} (key : A -> string) id l :
  NoDup (map key l) ->
  (List.length (filter (fun a => String.eqb (key a) id) l) <= 1)%nat.
Proof.
  induction l as [|a l IH]; simpl; [lia|].
  intros Hnd. inversion Hnd as [|? ? Hn Hnd']; subst.
  destruct (String.eqb (key a) id) eqn:E; [|auto].
  apply String.eqb_eq in E. simpl.
  rewrite (filter_none (fun a0 => String.eqb (key a0) id) l); [simpl; lia|].
  apply not_true_iff_false. intros Hex.
  apply existsb_exists in Hex as (b & Hb & Eb).
  apply String.eqb_eq in Eb. apply Hn. rewrite E, <- Eb. now apply in_map.
Qed.

Lemma snapshot_rows id w :
  NoDup (map post_id (posts w)) ->
  (List.length
     (filter (fun row => String.eqb (post_id (fst row)) id) (snapshot w))
   <= 1)%nat.
Proof.
  intros Hnd. apply (filter_key_le_1 (fun row => post_id (fst row))).
  unfold snapshot. rewrite map_map. simpl.
  rewrite map_rev. now apply NoDup_rev.
Qed.

Lemma snapshot_In row w : In row (snapshot w) -> In (fst row) (posts w).
Proof.
  unfold snapshot. intros H. apply in_map_iff in H as (p & <- & Hp).
  simpl. now apply in_rev.
Qed.

Lemma lookup_post_In id w p :
  lookup_post id w = Some p -> In p (posts w) /\ post_id p = id.
Proof.
  unfold lookup_post. intros H. apply find_some in H as [Hin E].
  split; [exact Hin|now apply String.eqb_eq].
Qed.

Lemma In_lookup_post p w :
  In p (posts w) -> exists q, lookup_post (post_id p) w = Some q.
Proof.
  unfold lookup_post. intros Hin.
  destruct (find _ (posts w)) as [q|] eqn:F; [eauto|].
  eapply find_none in F; [|exact Hin].
  rewrite String.eqb_refl in F. discriminate.
Qed.

Lemma count_viral_pos id bs :
  (1 <= count_viral id bs)%nat ->
  exists msg, In (viralNotification id msg) bs.
Proof.
  unfold count_viral. intros H.
  destruct (filter _ bs) as [|e l] eqn:F; [simpl in H; lia|].
  assert (Hin : In e (filter (is_viral_event id) bs)) by (rewrite F; now left).
  apply filter_In in Hin as [Hin He].
  destruct e as [| |id' msg]; simpl in He; try discriminate.
  apply String.eqb_eq in He. subst. eauto.
Qed.

Lemma viral_at_evolves id w w' :
  Forall2 post_evolves (posts w) (posts w') -> viral_at id w -> viral_at id w'.
Proof.
  intros He (p & Hp & Hv).
  destruct (evolves_lookup id _ _ p He Hp) as (p' & Hp' & _ & _ & _ & Hv').
  exists p'. split; auto.
Qed.

Lemma viralSweep_viral_step now id w :
  NoDup (map post_id (posts w)) -> viral_step id w (viralSweep now w).
Proof.
  intros Hnd.
  destruct (viralSweep_facts now w)
    as [_ _ _ _ _ _ Hpo _ (bs & Hb & He & Hc & Hv)].
  split; [exact Hpo|]. exists bs. split; [exact Hb|].
  assert (Hrow : (1 <= count_viral id bs)%nat ->
                 exists p, In p (posts w) /\ post_id p = id
                           /\ isViral p = false).
  { intros H1. apply count_viral_pos in H1 as (msg & Hin).
    destruct (He _ Hin) as (row & msg' & Hr & E & Hf & _).
    inversion E; subst. exists (fst row).
    split; [now apply snapshot_In|auto]. }
  split; [|split].
  - etransitivity; [apply Hc|]. now apply snapshot_rows.
  - intros H1. destruct (Hrow H1) as (p & Hin & Hid & _).
    destruct (In_lookup_post p w Hin) as (q & Hq). rewrite Hid in Hq.
    destruct (evolves_lookup id _ _ q Hpo Hq) as (q' & Hq' & _).
    exists q'. split; [exact Hq'|].
    destruct (lookup_post_In _ _ _ Hq') as [Hin' Hid'].
    exact (Hv id H1 q' Hin' Hid').
  - intros (p & Hp & Hviral).
    destruct (count_viral id bs) eqn:Hn; [reflexivity|].
    destruct Hrow as (q & Hin & Hid & Hf); [lia|].
    destruct (lookup_post_In _ _ _ Hp) as [Hin' Hid'].
    assert (p = q) by (eapply NoDup_map_eq; eauto; congruence).
    congruence.
Qed.

(** *** The comment payment, path by path *)

Lemma POST_pay_comment_run env req w :
  POST_pay_comment env req w =
  match whoami (req_wallet req) w with
  | None => (Unauthorized401, w)
  | Some user =>
      match lookup_post (req_postId req) w with
      | None => (NotFound404, w)
      | Some post =>
          if negb (commentsLocked post) then (Success true, w)
          else if isFree post
                  || has_record (user_id user) (post_id post) comment w
          then (Success true, w)
          else (Success false, comment_paid req user post w)
      end
  end.
Proof.
  unfold POST_pay_comment, respond, payComment, bind.
  rewrite getCurrentUser_eq.
  destruct (whoami _ w) as [user|]; [|reflexivity].
  unfold getPost at 1, get. fold (lookup_post (req_postId req) w).
  destruct (lookup_post _ w) as [post|] eqn:Hp; [|reflexivity].
  destruct (negb (commentsLocked post)); [reflexivity|].
  rewrite hasUserPaid_eq.
  assert (Hfree : post_is_free (post_id post) w = isFree post).
  { unfold post_is_free. now rewrite (lookup_post_id _ _ _ Hp), Hp. }
  rewrite Hfree.
  destruct (isFree post); simpl; [reflexivity|].
  destruct (has_record _ _ comment w) eqn:Hr; [reflexivity|].
  rewrite createPayment_eq. unfold insert_payment; simpl.
  unfold has_record in Hr. rewrite Hr. reflexivity.
Qed.

Lemma POST_pay_comment_frame env req w :
  let w' := snd (POST_pay_comment env req w) in
  users w' = users w /\ posts w' = posts w /\ investors w' = investors w
  /\ broadcasts w' = broadcasts w /\ settlements w' = settlements w.
Proof.
  rewrite POST_pay_comment_run.
  destruct (whoami _ w); [|repeat split].
  destruct (lookup_post _ w); [|repeat split].
  destruct (negb _); [repeat split|].
  destruct (_ || _); repeat split.
Qed.

(** *** Posts and broadcasts of a payment *)

Lemma announce_broadcasts user post w :
  exists bs,
    broadcasts (snd (announce user post w)) = (broadcasts w ++ bs)%list
    /\ forall id, count_viral id bs = 0%nat.
Proof.
  unfold announce, bind, getInvestorCount, get, broadcast at 1, modify.
  rewrite forEach_broadcast. simpl.
  eexists (_ :: map _ _). split.
  - destruct (negb _); simpl; rewrite <- app_assoc; reflexivity.
  - intros id. unfold count_viral. simpl.
    induction (investorsOf (post_id post) w); simpl; auto.
Qed.

Lemma POST_pay_world env req w :
  let w' := snd (POST_pay env req w) in
  users w' = users w
  /\ (posts w' = posts w \/ posts w' = posts (viewed (req_postId req) w))
  /\ exists bs,
       broadcasts w' = (broadcasts w ++ bs)%list
       /\ forall id, count_viral id bs = 0%nat.
Proof.
  pose proof (POST_pay_run env req w) as R. cbv zeta.
  assert (Hnil : exists bs,
             broadcasts w = (broadcasts w ++ bs)%list
             /\ forall id, count_viral id bs = 0%nat).
  { exists []. now rewrite app_nil_r. }
  destruct (validate env req w) as [r|[user post]].
  - rewrite R. simpl.
    destruct (whoami (req_wallet req) w), (lookup_post (req_postId req) w);
      simpl; auto.
  - destruct (slots_full req post w).
    { rewrite R. simpl. auto. }
    destruct (allocated env req user post _) as [o w2] eqn:Ha.
    destruct (allocated_frame _ _ _ _ _ _ _ Ha)
      as (Hu & Hpo & _ & _ & Hb & _).
    destruct (announce_frame user post w2) as (Hu3 & Hpo3 & _).
    destruct (announce_broadcasts user post w2) as (bs & Hb3 & Hc).
    destruct o as [[]|e].
    + cbv zeta in R.
      destruct (commentsLocked post);
        [destruct (has_record _ _ comment w)|]; rewrite R; simpl;
        rewrite Hu3, Hpo3, Hu, Hpo, Hb3, Hb; simpl;
        (split; [reflexivity|split; [now right|eauto]]).
    + rewrite R. simpl. rewrite Hu, Hpo, Hb. simpl.
      split; [reflexivity|split; [now right|auto]].
Qed.

Lemma POST_pay_evolves env req w :
  Forall2 post_evolves (posts w) (posts (snd (POST_pay env req w))).
Proof.
  destruct (POST_pay_world env req w) as (_ & [->| ->] & _).
  - apply evolves_refl.
  - apply evolves_viewed.
Qed.

Lemma step_viral_step env a id w :
  NoDup (map post_id (posts w)) -> viral_step id w (snd (step env a w)).
Proof.
  intros Hnd. destruct a as [req|req|now]; simpl.
  - destruct (POST_pay_world env req w) as (_ & _ & bs & Hb & Hc).
    split; [apply POST_pay_evolves|].
    exists bs. rewrite Hc. repeat split; auto; lia.
  - destruct (POST_pay_comment_frame env req w) as (_ & Hpo & _ & Hb & _).
    split; [rewrite Hpo; apply evolves_refl|].
    exists []. rewrite Hb, app_nil_r. unfold count_viral; simpl.
    repeat split; auto; lia.
  - now apply viralSweep_viral_step.
Qed.

Lemma run_viral_step env acts id :
  forall w,
    NoDup (map post_id (posts w)) ->
    viral_step id w (snd (run env acts w)).
Proof.
  induction acts as [|a acts IH]; intros w Hnd; simpl.
  - split; [apply evolves_refl|]. exists []. rewrite app_nil_r.
    unfold count_viral; simpl. repeat split; auto; lia.
  - destruct (step_viral_step env a id w Hnd)
      as (Hpo1 & bs1 & Hb1 & Hle1 & Hv1 & Hz1).
    assert (Hnd1 : NoDup (map post_id (posts (snd (step env a w))))).
    { now rewrite (evolves_ids _ _ Hpo1). }
    destruct (IH _ Hnd1) as (Hpo2 & bs2 & Hb2 & Hle2 & Hv2 & Hz2).
    split; [eapply evolves_trans; eauto|].
    exists (bs1 ++ bs2)%list. rewrite count_viral_app.
    split; [rewrite Hb2, Hb1; now rewrite app_assoc|].
    split; [|split].
    + destruct (count_viral id bs1) eqn:E1; [simpl; auto|].
      rewrite Hz2; [lia|]. apply Hv1. lia.
    + intros H1. destruct (count_viral id bs2) eqn:E2.
      * eapply viral_at_evolves; [exact Hpo2|]. apply Hv1. lia.
      * apply Hv2. lia.
    + intros Hv. rewrite (Hz1 Hv), Hz2; [reflexivity|].
      eapply viral_at_evolves; eauto.
Qed.

(** C9.  In any run of payments, comment payments and sweeps over posts
    with distinct ids: at most one [viralNotification] is ever broadcast
    for a post, none at all once the post is viral, and a viral post stays
    viral; every notification of a sweep is for a post that was not viral
    and had at least ten upvotes when the sweep started, and so is every
    post a sweep turns viral. *)
Theorem viral_is_monotone_and_notified_once :
  forall env acts now id w,
    NoDup (map post_id (posts w)) ->
    (exists bs,
       broadcasts (snd (run env acts w)) = (broadcasts w ++ bs)%list
       /\ (count_viral id bs <= 1)%nat
       /\ (viral_at id w ->
           count_viral id bs = 0%nat /\ viral_at id (snd (run env acts w))))
    /\ (forall msg,
          In (viralNotification id msg) (new_events w (viralSweep now w)) ->
          exists p, lookup_post id w = Some p /\ isViral p = false
                    /\ VIRAL_UPVOTE_THRESHOLD <= upvoteCount p)
    /\ (forall p p',
          lookup_post id w = Some p ->
          lookup_post id (viralSweep now w) = Some p' ->
          isViral p' = true ->
          isViral p = true \/ VIRAL_UPVOTE_THRESHOLD <= upvoteCount p).
Proof.
  intros env acts now id w Hnd. split; [|split].
  - destruct (run_viral_step env acts id w Hnd)
      as (Hpo & bs & Hb & Hle & _ & Hz).
    exists bs. repeat split; auto.
    eapply viral_at_evolves; eauto.
  - intros msg Hin.
    destruct (viralSweep_facts now w)
      as [_ _ _ _ _ _ _ _ (bs & Hb & He & _)].
    unfold new_events in Hin. rewrite Hb in Hin.
    rewrite skipn_app, skipn_all, Nat.sub_diag in Hin. simpl in Hin.
    destruct (He _ Hin) as (row & msg' & Hr & E & Hf & Hup).
    inversion E; subst.
    apply snapshot_In in Hr.
    destruct (In_lookup_post _ _ Hr) as (q & Hq).
    destruct (lookup_post_In _ _ _ Hq) as [Hqin Hqid].
    assert (q = fst row) by (eapply NoDup_map_eq; eauto).
    subst q. eauto.
  - intros p p' Hp Hp' Hv'.
    destruct (isViral p) eqn:Hv; [now left|right].
    destruct (viralSweep_facts now w) as [_ _ _ _ _ _ Hpo Hpr _].
    assert (Hc : In (p, p') (combine (posts w) (posts (viralSweep now w)))).
    { clear -Hpo Hp Hp'. unfold lookup_post in *.
      induction Hpo as [|q q' l l' (Hid & _) _ IH]; simpl in *;
        [discriminate|].
      rewrite Hid in Hp'.
      destruct (String.eqb (post_id q) id).
      - inversion Hp; inversion Hp'; subst. now left.
      - right. auto. }
    destruct (Hpr p p' Hc Hv Hv') as (row & Hr & Hid & _ & Hup).
    apply snapshot_In in Hr.
    destruct (lookup_post_In _ _ _ Hp) as [Hpin Hpid].
    assert (fst row = p) by (eapply NoDup_map_eq; eauto).
    congruence.
Qed.

(** *** Investor positions along a run *)

Lemma positions_map (h : Investor -> Investor) postId table :
  (forall i, inv_postId (h i) = inv_postId i
             /\ inv_position (h i) = inv_position i) ->
  map inv_position
    (filter (fun i => String.eqb (inv_postId i) postId) (map h table))
  = map inv_position
      (filter (fun i => String.eqb (inv_postId i) postId) table).
Proof.
  intros Hh. induction table as [|a l IH]; simpl; [reflexivity|].
  destruct (Hh a) as [-> Hp].
  destruct (String.eqb (inv_postId a) postId); simpl; congruence.
Qed.

Lemma positions_distribute per snapshot postId table :
  map inv_position
    (filter (fun i => String.eqb (inv_postId i) postId)
       (distribute per snapshot table))
  = map inv_position
      (filter (fun i => String.eqb (inv_postId i) postId) table).
Proof.
  rewrite distribute_rows. apply positions_map. intros i.
  destruct (find _ _); split; reflexivity.
Qed.

Lemma not_buyout_success id req r :
  r <> Success false -> is_buyout_success id (APay req) (Some r) = false.
Proof.
  intros H. destruct r as [| | | | |[]|]; try reflexivity. now elim H.
Qed.

Lemma other_post_not_buyout_success id req r :
  String.eqb (req_postId req) id = false ->
  is_buyout_success id (APay req) (Some r) = false.
Proof.
  intros H. destruct r as [| | | | |[]|]; try reflexivity.
  simpl. now rewrite H, andb_false_r.
Qed.

Lemma regular_not_buyout_success id req r :
  req_isBuyout req = false ->
  is_buyout_success id (APay req) (Some r) = false.
Proof.
  intros H. destruct r as [| | | | |[]|]; try reflexivity.
  simpl. now rewrite H.
Qed.

(** The investors a payment leaves behind. *)
Lemma POST_pay_investors env req w :
  investors (snd (POST_pay env req w))
  = match validate env req w with
    | inl _ => investors w
    | inr (user, post) =>
        if slots_full req post w then investors w
        else investors
               (snd (allocated env req user post (viewed (req_postId req) w)))
    end.
Proof.
  pose proof (POST_pay_run env req w) as R.
  destruct (validate env req w) as [r|[user post]].
  - rewrite R. simpl.
    destruct (whoami (req_wallet req) w), (lookup_post (req_postId req) w);
      reflexivity.
  - destruct (slots_full req post w); [now rewrite R|].
    destruct (allocated env req user post _) as [[[]|e] w2] eqn:Ha.
    + destruct (announce_frame user post w2) as (_ & _ & _ & _ & Hin & _).
      cbv zeta in R.
      destruct (commentsLocked post);
        [destruct (has_record _ _ comment w)|]; rewrite R; simpl;
        now rewrite Hin.
    + now rewrite R.
Qed.

(** A payment either leaves the positions of a post as they are, or takes
    the next position of the post while slots remain; every buyout that is
    answered [alreadyPaid: false] takes one. *)
Lemma POST_pay_positions env req w id :
  let r := fst (POST_pay env req w) in
  let w' := snd (POST_pay env req w) in
  (positions id w' = positions id w
   /\ is_buyout_success id (APay req) (Some r) = false)
  \/ (positions id w'
      = (positions id w
         ++ [Z.of_nat (List.length (positions id w)) + 1])%list
      /\ exists post,
           lookup_post id w = Some post
           /\ Z.of_nat (List.length (positions id w)) < maxInvestorSlots post).
Proof.
  cbv zeta. unfold positions at 1 3, investorsOf.
  rewrite POST_pay_investors.
  pose proof (POST_pay_run env req w) as R.
  destruct (validate env req w) as [r|[user post]] eqn:Hv.
  - left. split; [reflexivity|]. rewrite R. simpl.
    apply not_buyout_success. now apply validate_inl in Hv.
  - destruct (slots_full req post w) eqn:Hs.
    { left. split; [reflexivity|]. now rewrite R. }
    apply validate_inr in Hv as (_ & Hp & Hid & _).
    destruct (allocated env req user post _) as [o w2] eqn:Ha.
    pose proof (allocated_investors _ _ _ _ _ _ _ Ha) as Hi.
    cbv zeta in Hi.
    change (investorsOf (post_id post) (viewed (req_postId req) w))
      with (investorsOf (post_id post) w) in Hi.
    change (content_count (post_id post) (viewed (req_postId req) w))
      with (content_count (post_id post) w) in Hi.
    change (investors (viewed (req_postId req) w)) with (investors w) in Hi.
    change (nextId (viewed (req_postId req) w)) with (nextId w) in Hi.
    simpl snd.
    assert (Hreg : buyout_branch req post
                (orderBy_position (investorsOf (post_id post) w)) = false ->
              req_isBuyout req = false).
    { unfold buyout_branch, slots_full in *.
      rewrite length_orderBy_position.
      destruct (req_isBuyout req); [|reflexivity]. simpl in *.
      intros Hb. apply Z.leb_gt in Hs. apply Z.ltb_ge in Hb. lia. }
    destruct Hi as [(Hb & _ & [((e & ->) & Hi)|(-> & Hi)])
                   |(Hb & -> & _ & [(_ & Hi)|(_ & Hi)])].
    + left. rewrite Hi. split; [reflexivity|].
      cbv beta iota in R. rewrite R. reflexivity.
    + rewrite Hi, filter_app, map_app. simpl.
      destruct (String.eqb (post_id post) id) eqn:E.
      * right. apply String.eqb_eq in E. subst id. simpl.
        unfold positions, investorsOf. rewrite length_map.
        split; [reflexivity|]. exists post. rewrite Hid. split; [exact Hp|].
        unfold buyout_branch in Hb. rewrite length_orderBy_position in Hb.
        apply andb_true_iff in Hb as [_ Hb]. apply Z.ltb_lt in Hb.
        unfold investorsOf in Hb. rewrite ?length_map.
        rewrite Hid in Hb. exact Hb.
      * left. simpl. rewrite app_nil_r. split; [reflexivity|].
        apply other_post_not_buyout_success. now rewrite <- Hid.
    + left. rewrite Hi, positions_distribute. split; [reflexivity|].
      apply regular_not_buyout_success; auto.
    + left. rewrite Hi. split; [reflexivity|].
      apply regular_not_buyout_success; auto.
Qed.

Lemma step_evolves env a w :
  Forall2 post_evolves (posts w) (posts (snd (step env a w))).
Proof.
  destruct a as [req|req|now]; simpl.
  - apply POST_pay_evolves.
  - destruct (POST_pay_comment_frame env req w) as (_ & -> & _).
    apply evolves_refl.
  - apply (sf_posts _ _ _ _ (viralSweep_facts now w)).
Qed.

Lemma step_positions env a w id :
  (positions id (snd (step env a w)) = positions id w
   /\ is_buyout_success id a (fst (step env a w)) = false)
  \/ (positions id (snd (step env a w))
      = (positions id w
         ++ [Z.of_nat (List.length (positions id w)) + 1])%list
      /\ exists post,
           lookup_post id w = Some post
           /\ Z.of_nat (List.length (positions id w)) < maxInvestorSlots post).
Proof.
  destruct a as [req|req|now]; simpl.
  - apply POST_pay_positions.
  - left. split; [|reflexivity]. unfold positions, investorsOf.
    now destruct (POST_pay_comment_frame env req w) as (_ & _ & -> & _).
  - left. split; [|reflexivity]. unfold positions, investorsOf.
    now rewrite (sf_investors _ _ _ _ (viralSweep_facts now w)).
Qed.

Lemma dense_next id w w' :
  dense id w ->
  positions id w'
  = (positions id w ++ [Z.of_nat (List.length (positions id w)) + 1])%list ->
  dense id w'.
Proof.
  unfold dense. intros Hd ->. rewrite length_app. simpl.
  rewrite Nat.add_1_r, seq_S, map_app, <- Hd. simpl.
  do 3 f_equal. lia.
Qed.

Lemma run_positions env id N acts :
  forall w,
    dense id w ->
    (forall p, lookup_post id w = Some p -> maxInvestorSlots p = N) ->
    Z.of_nat (List.length (positions id w)) <= Z.max 0 N ->
    let w' := snd (run env acts w) in
    dense id w'
    /\ Z.of_nat (List.length (positions id w')) <= Z.max 0 N
    /\ (List.length (positions id w)
        + buyouts_succeeded id acts (fst (run env acts w))
        <= List.length (positions id w'))%nat.
Proof.
  induction acts as [|a acts IH]; intros w Hd HN Hle; simpl.
  - repeat split; auto. lia.
  - assert (HN1 : forall p, lookup_post id (snd (step env a w)) = Some p ->
                            maxInvestorSlots p = N).
    { intros p' Hp'.
      destruct (lookup_post id w) as [p|] eqn:Hp.
      - destruct (evolves_lookup id _ _ p (step_evolves env a w) Hp)
          as (q & Hq & _ & Hm & _).
        unfold lookup_post in Hp'. rewrite Hq in Hp'. inversion Hp'; subst.
        unfold maxInvestorSlots. rewrite Hm. now apply HN.
      - pose proof (evolves_lookup_none id _ _ (step_evolves env a w) Hp)
          as Hn.
        unfold lookup_post in Hp'. rewrite Hn in Hp'. discriminate. }
    destruct (step_positions env a w id)
      as [(Hsame & Hno)|(Hnext & post & Hp & Hlt)].
    + rewrite Hno. simpl.
      destruct (IH (snd (step env a w))) as (H1 & H2 & H3); auto.
      { unfold dense. now rewrite Hsame. }
      { now rewrite Hsame. }
      cbv zeta in *. rewrite Hsame in H3. repeat split; auto.
    + destruct (IH (snd (step env a w))) as (H1 & H2 & H3); auto.
      { eapply dense_next; eauto. }
      { rewrite Hnext, length_app. simpl. rewrite (HN _ Hp) in Hlt. lia. }
      cbv zeta in *. rewrite Hnext, length_app in H3. simpl in H3.
      repeat split; auto.
      destruct (is_buyout_success id a (fst (step env a w))); lia.
Qed.

Lemma run_evolves env acts :
  forall w, Forall2 post_evolves (posts w) (posts (snd (run env acts w))).
Proof.
  induction acts as [|a acts IH]; intros w; simpl.
  - apply evolves_refl.
  - eapply evolves_trans; [apply step_evolves|apply IH].
Qed.

(** C2.  Start from a post without investors and run any payments, comment
    payments and sweeps.  Once as many buyouts of the post have been
    answered [alreadyPaid: false] as the post has investor slots, the
    positions taken are 1, 2, ..., N in this order, and a further buyout
    request for the post creates no investor, is never answered
    [alreadyPaid: false], and is answered "all N investor spots are filled"
    as soon as it passes the checks that come before the slot check. *)
Theorem buyout_slots_are_dense :
  forall env acts w id post,
    lookup_post id w = Some post ->
    investorsOf id w = [] ->
    Z.of_nat (buyouts_succeeded id acts (fst (run env acts w)))
    = maxInvestorSlots post ->
    let w' := snd (run env acts w) in
    positions id w'
    = map Z.of_nat
        (seq 1 (buyouts_succeeded id acts (fst (run env acts w))))
    /\ forall req,
         req_postId req = id -> req_isBuyout req = true ->
         investors (snd (POST_pay env req w')) = investors w'
         /\ fst (POST_pay env req w') <> Success false
         /\ (forall user p,
               validate env req w' = inr (user, p) ->
               fst (POST_pay env req w')
               = SlotsFull400 (maxInvestorSlots post)).
Proof.
  intros env acts w id post Hp Hempty HN. cbv zeta.
  set (N := maxInvestorSlots post) in *.
  destruct (run_positions env id N acts w) as (Hd & Hle & Hge).
  { unfold dense, positions. now rewrite Hempty. }
  { intros p Hp'. rewrite Hp in Hp'. inversion Hp'; subst p. reflexivity. }
  { unfold positions. rewrite Hempty. simpl. lia. }
  cbv zeta in *.
  set (w' := snd (run env acts w)) in *.
  set (k := buyouts_succeeded id acts (fst (run env acts w))) in *.
  assert (Hk : List.length (positions id w') = k).
  { unfold positions in Hge at 1. rewrite Hempty in Hge. simpl in Hge. lia. }
  split; [now rewrite <- Hk|].
  intros req Hreq Hbuy.
  assert (Hfull : forall user p,
            validate env req w' = inr (user, p) ->
            slots_full req p w' = true /\ maxInvestorSlots p = N).
  { intros user p Hv.
    apply validate_inr in Hv as (_ & Hp' & Hid & _).
    assert (HpN : maxInvestorSlots p = N).
    { pose proof (run_evolves env acts w) as He. fold w' in He.
      destruct (evolves_lookup id _ _ post He Hp) as (q & Hq & _ & Hm & _).
      rewrite Hreq in Hp'. unfold lookup_post in Hp'.
      rewrite Hq in Hp'. inversion Hp'; subst q.
      unfold N, maxInvestorSlots. now rewrite Hm. }
    split; [|exact HpN].
    unfold slots_full. rewrite Hbuy, HpN, Hid, Hreq. simpl.
    apply Z.leb_le. unfold positions in Hk. rewrite length_map in Hk.
    rewrite Hk. lia. }
  rewrite POST_pay_investors.
  pose proof (POST_pay_run env req w') as R.
  destruct (validate env req w') as [r|[user p]] eqn:Hv.
  - split; [reflexivity|]. rewrite R. simpl.
    split; [now apply validate_inl in Hv|]. intros ? ? E. discriminate.
  - destruct (Hfull user p eq_refl) as [Hs HpN]. rewrite Hs in *.
    rewrite R. simpl. split; [reflexivity|]. split; [discriminate|].
    intros ? ? _. now rewrite HpN.
Qed.

(** ** SettlementSimulator *)




(** ** AccessGate *)

Lemma decrypt_and_send_eq env post w :
  try_catch (decrypt_and_send env post)
    (ret (Redirect (blurredThumbnailPath post))) w
  = (Ok (match plaintext env post with
         | Some body => MediaSent (mimeType post) body
         | None => Redirect (blurredThumbnailPath post)
         end), w).
Proof.
  unfold try_catch, decrypt_and_send, plaintext, bind, decryptContentKey,
    decryptBuffer, of_option.
  destruct (readEncryptedFile env _) as [buf|]; [|reflexivity].
  simpl.
  destruct (aes256gcmDecipher env (MASTER_KEY_BUFFER env) _ _ _) as [key|];
    [|reflexivity].
  simpl.
  destruct (aes256gcmDecipher env key _ _ _); reflexivity.
Qed.

Lemma GET_media_eq env req w :
  GET_media env req w
  = (match lookup_post (media_postId req) w with
     | None => MediaNotFound404
     | Some post =>
         if entitled req post w
         then match plaintext env post with
              | Some body => MediaSent (mimeType post) body
              | None => Redirect (blurredThumbnailPath post)
              end
         else Redirect (blurredThumbnailPath post)
     end, w).
Proof.
  unfold GET_media, media, bind. fold (media_wallet req).
  rewrite getCurrentUser_eq.
  unfold getPost, get. fold (lookup_post (media_postId req) w).
  destruct (lookup_post _ w) as [post|] eqn:Hp; [|reflexivity].
  unfold entitled.
  destruct (isFree post) eqn:Hfree; simpl.
  { now rewrite decrypt_and_send_eq. }
  destruct (whoami _ w) as [u|]; [|reflexivity].
  destruct (String.eqb (user_id u) (creatorId post)); simpl.
  { unfold ret. now rewrite decrypt_and_send_eq. }
  rewrite hasUserPaid_eq.
  assert (Hf : post_is_free (media_postId req) w = false).
  { unfold post_is_free. now rewrite Hp. }
  rewrite Hf. simpl.
  destruct (has_record _ _ _ w); simpl; [|reflexivity].
  now rewrite decrypt_and_send_eq.
Qed.


(** ** The theorems at work on the small deployment *)


Lemma buyout_slots_are_dense_witness :
  positions "p1"
    (snd (run Demo.env
            [APay (Demo.request Demo.alice "p1" 10 true);
             APay (Demo.request Demo.bob "p1" 10 true)] Demo.world0))
  = [1; 2].
Proof.
  refine (proj1 (buyout_slots_are_dense Demo.env
            [APay (Demo.request Demo.alice "p1" 10 true);
             APay (Demo.request Demo.bob "p1" 10 true)]
            Demo.world0 "p1" Demo.post1 _ _ _));
    vm_compute; reflexivity.
Defined.





Lemma viral_is_monotone_and_notified_once_witness :
  exists bs,
    broadcasts (snd (run Demo.env [ASweep 1; ASweep 2] Demo.world0))
    = (broadcasts Demo.world0 ++ bs)%list
    /\ (count_viral "p2" bs <= 1)%nat.
Proof.
  assert (Hnd : NoDup (map post_id (posts Demo.world0))).
  { vm_compute. repeat constructor; simpl; intuition discriminate. }
  destruct (proj1 (viral_is_monotone_and_notified_once Demo.env
                     [ASweep 1; ASweep 2] 1%nat "p2" Demo.world0 Hnd))
    as (bs & Hb & Hc & _).
  exists bs. split; [exact Hb|exact Hc].
Defined.

Lemma content_payment_grants_comment_access_witness :
  exists user r,
    whoami (Some "0xA1") Demo.world0 = Some user
    /\ In r (payments
               (Demo.pay_step (Demo.request Demo.alice "p3" 2 false)
                  Demo.world0))
    /\ pay_paymentType r = comment
    /\ pay_amount r = 0%Q.
Proof.
  assert (H : POST_pay Demo.env (Demo.request Demo.alice "p3" 2 false)
                Demo.world0
              = (Success false,
                 Demo.pay_step (Demo.request Demo.alice "p3" 2 false)
                   Demo.world0))
    by (vm_compute; reflexivity).
  destruct (content_payment_grants_comment_access Demo.env _ _ _ Demo.post3 H)
    as (user & r & Hw & Hin & _ & _ & _ & Ht & Ha & _).
  - vm_compute; reflexivity.
  - reflexivity.
  - exists user, r. repeat split; assumption.
Defined.

(** ** Helpers *)

(** *** [toFixed(6)] *)

Lemma Qmake_inject n : (n # 1000000 == inject_Z n * (1 # 1000000))%Q.
Proof.
  unfold Qeq, Qmult, inject_Z; simpl. lia.
Qed.

Lemma round_bounds (y : Q) :
  (inject_Z (Qfloor (y + (1 # 2))) <= y + (1 # 2)
   /\ y + (1 # 2) < inject_Z (Qfloor (y + (1 # 2))) + 1)%Q.
Proof.
  split; [apply Qfloor_le|].
  pose proof (Qlt_floor (y + (1 # 2))) as H.
  rewrite inject_Z_plus in H. exact H.
Qed.

Lemma toFixed6_bounds (x : Q) :
  (x - (1 # 2000000) <= toFixed6 x /\ toFixed6 x <= x + (1 # 2000000))%Q.
Proof.
  unfold toFixed6.
  destruct (Qle_bool 0 x) eqn:E.
  - destruct (round_bounds (x * 1000000)) as [H1 H2].
    rewrite Qmake_inject.
    set (n := inject_Z _) in *. split; lra.
  - destruct (round_bounds (- x * 1000000)) as [H1 H2].
    rewrite Qmake_inject.
    set (n := inject_Z _) in *. split; lra.
Qed.

(** X1.  [toFixed6] moves a number by at most half a millionth. *)
Theorem toFixed6_error_bound :
  forall x : Q, (Qabs (toFixed6 x - x) <= 1 # 2000000)%Q.
Proof.
  intros x. destruct (toFixed6_bounds x) as [H1 H2].
  apply Qabs_case; intros _; lra.
Qed.

Lemma Qfloor_half n : Qfloor (inject_Z n + (1 # 2)) = n.
Proof.
  apply Z.le_antisymm.
  - apply Z.lt_succ_r. rewrite Zlt_Qlt.
    eapply Qle_lt_trans; [apply Qfloor_le|].
    unfold Z.succ. rewrite inject_Z_plus.
    change (inject_Z 1) with 1%Q. set (q := inject_Z n). lra.
  - rewrite <- (Qfloor_Z n) at 1. apply Qfloor_resp_le.
    set (q := inject_Z n). lra.
Qed.

Lemma toFixed6_grid n : (toFixed6 (n # 1000000) == n # 1000000)%Q.
Proof.
  unfold toFixed6.
  destruct (Qle_bool 0 (n # 1000000)) eqn:E.
  - assert (H : ((n # 1000000) * 1000000 + (1 # 2)
                 == inject_Z n + (1 # 2))%Q).
    { rewrite Qmake_inject. field. }
    rewrite H, Qfloor_half. reflexivity.
  - assert (H : (- (n # 1000000) * 1000000 + (1 # 2)
                 == inject_Z (- n) + (1 # 2))%Q).
    { rewrite Qmake_inject, inject_Z_opp. field. }
    rewrite H, Qfloor_half.
    unfold Qeq, Qopp; simpl. lia.
Qed.

(** X2.  [toFixed6] leaves its own results alone: rounding twice is
    rounding once, so an amount read back from a six-decimal column and
    rounded again does not drift. *)
Theorem toFixed6_idempotent :
  forall x : Q, (toFixed6 (toFixed6 x) == toFixed6 x)%Q.
Proof.
  intros x. unfold toFixed6 at 2 3.
  destruct (Qle_bool 0 x).
  - apply toFixed6_grid.
  - apply (toFixed6_grid (- Qfloor (- x * 1000000 + (1 # 2)))).
Qed.

(** *** [split] *)

Lemma split_cons sep s : exists h t, split sep s = h :: t.
Proof.
  destruct s as [|c s]; simpl; [eauto|].
  destruct (Ascii.eqb c sep); [eauto|].
  destruct (split sep s); eauto.
Qed.

(** X3.  Joining the parts of [s.split(sep)] with the separator gives [s]
    back, there is always at least one part, and no part contains the
    separator. *)
Theorem split_join_round_trip :
  forall sep s,
    String.concat (String sep EmptyString) (split sep s) = s
    /\ split sep s <> []
    /\ forall part, In part (split sep s) -> has_char sep part = false.
Proof.
  intros sep s. induction s as [|c s (IH1 & IH2 & IH3)].
  - simpl. repeat split; [discriminate|].
    intros part [<-|[]]. reflexivity.
  - simpl. destruct (split_cons sep s) as (h & t & E).
    rewrite E in *. destruct (Ascii.eqb c sep) eqn:Ec.
    + apply Ascii.eqb_eq in Ec. subst c. repeat split.
      * simpl in *. now rewrite IH1.
      * discriminate.
      * intros part [<-|Hin]; [reflexivity|now apply IH3].
    + repeat split.
      * simpl in *. destruct t; simpl in *; now rewrite <- IH1.
      * discriminate.
      * intros part [<-|Hin].
        -- simpl. rewrite Ec. apply IH3. now left.
        -- apply IH3. now right.
Qed.

(** *** The encrypted file *)

Lemma slice_nonneg (buf : list byte) (a b : nat) :
  (a <= List.length buf)%nat ->
  slice buf (Z.of_nat a) (Z.of_nat b)
  = firstn (Nat.min b (List.length buf) - a) (skipn a buf).
Proof.
  intros Ha. unfold slice.
  destruct (Z.of_nat a <? 0) eqn:Ea; [apply Z.ltb_lt in Ea; lia|].
  destruct (Z.of_nat b <? 0) eqn:Eb; [apply Z.ltb_lt in Eb; lia|].
  f_equal; [|f_equal]; lia.
Qed.

Lemma slice_neg_stop (buf : list byte) (a k : nat) :
  (a <= List.length buf)%nat -> (0 < k)%nat ->
  slice buf (Z.of_nat a) (- Z.of_nat k)
  = firstn (List.length buf - k - a) (skipn a buf).
Proof.
  intros Ha Hk. unfold slice.
  destruct (Z.of_nat a <? 0) eqn:Ea; [apply Z.ltb_lt in Ea; lia|].
  destruct (- Z.of_nat k <? 0) eqn:Eb; [|apply Z.ltb_ge in Eb; lia].
  f_equal; [|f_equal]; lia.
Qed.

Lemma slice_from_neg (buf : list byte) (k : nat) :
  (0 < k)%nat ->
  slice_from buf (- Z.of_nat k) = skipn (List.length buf - k) buf.
Proof.
  intros Hk. unfold slice_from, slice.
  destruct (- Z.of_nat k <? 0) eqn:Ea; [|apply Z.ltb_ge in Ea; lia].
  destruct (Z.of_nat (List.length buf) <? 0) eqn:Eb;
    [apply Z.ltb_lt in Eb; lia|].
  replace (Z.to_nat (Z.max 0 (Z.of_nat (List.length buf) + - Z.of_nat k)))
    with (List.length buf - k)%nat by lia.
  apply firstn_all2. rewrite length_skipn. lia.
Qed.

Lemma file_slices (buf : list byte) :
  fileIv buf = firstn 12 buf
  /\ fileEncryptedData buf
     = firstn (List.length buf - 28) (skipn 12 buf)
  /\ fileAuthTag buf = skipn (List.length buf - 16) buf.
Proof.
  unfold fileIv, fileEncryptedData, fileAuthTag. split; [|split].
  - change 0 with (Z.of_nat 0). change 12 with (Z.of_nat 12).
    rewrite slice_nonneg by lia. simpl skipn. rewrite Nat.sub_0_r.
    destruct (Nat.le_gt_cases 12 (List.length buf)).
    + now rewrite Nat.min_l.
    + rewrite Nat.min_r by lia. rewrite !firstn_all2; auto; lia.
  - destruct (Nat.le_gt_cases 12 (List.length buf)).
    + change 12 with (Z.of_nat 12). change (-16) with (- Z.of_nat 16).
      rewrite slice_neg_stop by lia. f_equal. lia.
    + rewrite (skipn_all2 buf (n := 12)) by lia. rewrite firstn_nil.
      unfold slice.
      replace (12 <? 0) with false by reflexivity.
      replace (-16 <? 0) with true by reflexivity.
      replace (Z.to_nat _) with 0%nat by lia. reflexivity.
  - change (-16) with (- Z.of_nat 16). apply slice_from_neg. lia.
Qed.

(** X4.  The media route cuts the file the upload route wrote back into
    its parts: with a 12-byte IV and a 16-byte tag, the three slices of
    [iv ++ encrypted ++ authTag] are the IV, the ciphertext and the tag. *)
Theorem file_slices_recover_parts :
  forall iv encrypted authTag : list byte,
    List.length iv = 12%nat ->
    List.length authTag = 16%nat ->
    fileIv (fileWithMetadata iv encrypted authTag) = iv
    /\ fileEncryptedData (fileWithMetadata iv encrypted authTag) = encrypted
    /\ fileAuthTag (fileWithMetadata iv encrypted authTag) = authTag.
Proof.
  intros iv ct tag Hiv Htag.
  destruct (file_slices (fileWithMetadata iv ct tag)) as (-> & -> & ->).
  unfold fileWithMetadata. rewrite !length_app, Hiv, Htag.
  split; [|split].
  - rewrite <- Hiv. now rewrite firstn_app, Nat.sub_diag, firstn_all,
      firstn_O, app_nil_r.
  - rewrite skipn_app, Hiv, (skipn_all2 iv) by lia.
    change (12 - 12)%nat with 0%nat. rewrite app_nil_l, skipn_O.
    replace (12 + (List.length ct + 16) - 28)%nat
      with (List.length ct + 0)%nat by lia.
    rewrite firstn_app_2. simpl. apply app_nil_r.
  - replace (12 + (List.length ct + 16) - 16)%nat
      with (List.length (iv ++ ct)) by (rewrite length_app; lia).
    rewrite app_assoc, skipn_app, skipn_all, Nat.sub_diag. reflexivity.
Qed.

(** X5.  Whatever the blob store returns, the slices never fail: a file of
    at least 28 bytes is cut into IV, ciphertext and tag without loss, and
    a shorter file yields an empty ciphertext (which the decipher then
    rejects). *)
Theorem file_slices_on_any_buffer :
  forall buf : list byte,
    ((28 <= List.length buf)%nat ->
     fileWithMetadata (fileIv buf) (fileEncryptedData buf) (fileAuthTag buf)
     = buf
     /\ List.length (fileIv buf) = 12%nat
     /\ List.length (fileAuthTag buf) = 16%nat)
    /\ ((List.length buf < 28)%nat -> fileEncryptedData buf = []).
Proof.
  intros buf. destruct (file_slices buf) as (-> & -> & ->).
  unfold fileWithMetadata. split.
  - intros Hn. split; [|split].
    + replace (skipn (List.length buf - 16) buf)
        with (skipn (List.length buf - 28) (skipn 12 buf))
        by (rewrite skipn_skipn; f_equal; lia).
      now rewrite !firstn_skipn.
    + rewrite length_firstn. lia.
    + rewrite length_skipn. lia.
  - intros Hn. replace (List.length buf - 28)%nat with 0%nat by lia.
    reflexivity.
Qed.

(** *** The master key *)

Lemma length_fill n c : String.length (fill n c) = n.
Proof. induction n; simpl; auto. Qed.

Lemma substring_0_all n s : String.length s = n -> substring 0 n s = s.
Proof.
  revert n. induction s as [|c s IH]; intros n Hn; simpl in *; subst n.
  - reflexivity.
  - simpl. now rewrite IH.
Qed.

Lemma substring_0_length n s :
  (n <= String.length s)%nat -> String.length (substring 0 n s) = n.
Proof.
  revert s. induction n as [|n IH]; intros s Hs.
  - destruct s; reflexivity.
  - destruct s as [|c s]; simpl in *; [lia|]. rewrite IH; [reflexivity|lia].
Qed.

Lemma substring_0_prefix n s t :
  (n <= String.length s)%nat -> substring 0 n (s ++ t) = substring 0 n s.
Proof.
  revert s. induction n as [|n IH]; intros s Hs.
  - destruct s, t; reflexivity.
  - destruct s as [|c s]; simpl in *; [lia|]. rewrite IH; [reflexivity|lia].
Qed.

Lemma length_append s t :
  String.length (s ++ t) = (String.length s + String.length t)%nat.
Proof. induction s; simpl; auto. Qed.

(** X6.  The master key always has 32 characters: a secret of 32
    characters or more is cut to its first 32, a shorter one is filled up
    with the character '0', and a missing or empty secret falls back to
    the development key. *)
Theorem master_key_has_32_characters :
  forall JWT_SECRET,
    String.length (MASTER_KEY_STRING JWT_SECRET) = 32%nat
    /\ ((32 <= String.length (MASTER_KEY JWT_SECRET))%nat ->
        MASTER_KEY_STRING JWT_SECRET
        = substring 0 32 (MASTER_KEY JWT_SECRET))
    /\ ((String.length (MASTER_KEY JWT_SECRET) < 32)%nat ->
        MASTER_KEY_STRING JWT_SECRET
        = MASTER_KEY JWT_SECRET
          ++ fill (32 - String.length (MASTER_KEY JWT_SECRET)) "0"%char)
    /\ (JWT_SECRET = None \/ JWT_SECRET = Some EmptyString ->
        MASTER_KEY_STRING JWT_SECRET = "development-master-key-change-in").
Proof.
  intros secret. unfold MASTER_KEY_STRING, padEnd.
  set (k := MASTER_KEY secret).
  split; [|split; [|split]].
  - apply substring_0_length. rewrite length_append, length_fill. lia.
  - intros H. now apply substring_0_prefix.
  - intros H. apply substring_0_all.
    rewrite length_append, length_fill. lia.
  - intros [->| ->]; reflexivity.
Qed.

(** *** The investor splits of the x402 service *)



Lemma sol_or_evm env A crypto wallet sp :
  (if String.eqb crypto "SOL"
   then processSolanaPayment env A wallet sp
   else processEvmPayment env A crypto wallet sp)
  = match getNetwork env (if String.eqb crypto "SOL" then "SOL" else crypto)
    with
    | Some _ =>
        mkResult true
          (Some (mkSplits PLATFORM_FEE_USDC
                   ((A - PLATFORM_FEE_USDC)%Q,
                    if String.eqb crypto "SOL" then "USDC" else crypto)
                   (format_splits sp)))
    | None => mkResult false None
    end.
Proof.
  unfold processSolanaPayment, processEvmPayment.
  destruct (String.eqb crypto "SOL"); reflexivity.
Qed.

(** X8.  The x402 service never divides by an empty investor list: the
    breakdown lists investor amounts exactly when investors were given, the
    list is not empty and the percentage is not zero, and then one amount
    per investor; when [getNetwork] throws the service answers
    [success: false] without a breakdown. *)
Theorem settlement_lists_investors_only_when_there_are_some :
  forall env A crypto wallet R invs,
    let r := processPaymentWithSplits env A crypto wallet R invs in
    (success r = false <-> splits r = None)
    /\ forall s,
         splits r = Some s ->
         match splits_investors s with
         | Some l =>
             exists percent given,
               R = Some percent /\ ~ (percent == 0)%Q
               /\ invs = Some given /\ given <> []
               /\ List.length l = List.length given
         | None =>
             R = None \/ invs = None \/ invs = Some []
             \/ exists percent, R = Some percent /\ (percent == 0)%Q
         end.
Proof.
  intros env A crypto wallet R invs. cbv zeta.
  unfold processPaymentWithSplits. rewrite sol_or_evm.
  destruct (getNetwork env _); simpl.
  2:{ split; [tauto|discriminate]. }
  split; [split; discriminate|].
  intros s0 E. inversion E; subst s0; clear E. simpl.
  destruct invs as [given|]; [|simpl; auto].
  destruct R as [percent|]; [|simpl; auto].
  destruct given as [|i given]; simpl; [auto|].
  unfold truthy. destruct (Qeq_bool percent 0) eqn:Eq; simpl.
  - apply Qeq_bool_iff in Eq. right. right. right. eauto.
  - exists percent, (i :: given). repeat split; auto.
    + intros H. apply Qeq_bool_iff in H. congruence.
    + discriminate.
    + unfold calculateInvestorSplits. now rewrite !length_map.
Qed.

(** ** The ledger along a run *)

Lemma distribute_keys per snapshot table :
  map inv_key (distribute per snapshot table) = map inv_key table.
Proof.
  rewrite distribute_rows, map_map. apply map_ext. intros i.
  destruct (find _ _); reflexivity.
Qed.

Lemma allocated_nextId env req user post w o w2 :
  allocated env req user post w = (o, w2) ->
  (investors w2 = (investors w ++ [investor_row user post (S (nextId w)) w])%list
   /\ nextId w2 = S (S (nextId w))
   /\ o = Ok tt
   /\ buyout_branch req post (orderBy_position (investorsOf (post_id post) w))
      = true)
  \/ (map inv_key (investors w2) = map inv_key (investors w)
      /\ nextId w2 = S (nextId w)).
Proof.
  unfold allocated. intros H.
  destruct (buyout_branch req post
              (orderBy_position (investorsOf (post_id post) w))) eqn:Hb.
  - rewrite allocate_buyout in H by exact Hb.
    unfold insert_investor in H.
    destruct (existsb _ _); inversion H; subst; simpl.
    + right. split; reflexivity.
    + left. unfold investor_row. rewrite length_orderBy_position.
      repeat split.
  - right.
    destruct (distribution_branch post
                (orderBy_position (investorsOf (post_id post) w))
                (content_count (post_id post) (recorded env req user post w)))
      eqn:Hd.
    + eapply allocate_distribute in Hd; [|exact Hb].
      destruct Hd as [ss Hd]. rewrite Hd in H. inversion H; subst; simpl.
      split; [apply distribute_keys|reflexivity].
    + eapply allocate_regular in Hd; [|exact Hb].
      destruct Hd as [ss Hd]. rewrite Hd in H. inversion H; subst; simpl.
      split; reflexivity.
Qed.

(** What a payment request does to the three things the ledger's
    consistency speaks of. *)
Lemma POST_pay_effect env req w :
  let w' := snd (POST_pay env req w) in
  (payments w' = payments w /\ investors w' = investors w
   /\ nextId w' = nextId w)
  \/ exists user post extra,
       validate env req w = inr (user, post)
       /\ slots_full req post w = false
       /\ payments w'
          = (payments w
             ++ content_record env req user post (nextId w) :: extra)%list
       /\ (forall r, In r extra -> pay_paymentType r = comment)
       /\ ((investors w'
            = (investors w ++ [investor_row user post (S (nextId w)) w])%list
            /\ (S (S (nextId w)) <= nextId w')%nat
            /\ req_isBuyout req = true
            /\ Z.of_nat (List.length (investorsOf (post_id post) w))
               < maxInvestorSlots post)
           \/ (map inv_key (investors w') = map inv_key (investors w)
               /\ (S (nextId w) <= nextId w')%nat)).
Proof.
  cbv zeta. pose proof (POST_pay_run env req w) as R.
  destruct (validate env req w) as [r|[user post]] eqn:Hv.
  - left. rewrite R. simpl.
    destruct (whoami (req_wallet req) w), (lookup_post (req_postId req) w);
      repeat split.
  - destruct (slots_full req post w) eqn:Hs.
    { left. rewrite R. repeat split. }
    right. exists user, post.
    destruct (allocated env req user post _) as [o w2] eqn:Ha.
    destruct (allocated_frame _ _ _ _ _ _ _ Ha) as (_ & _ & Hpa & _).
    pose proof (allocated_nextId _ _ _ _ _ _ _ Ha) as Hn.
    change (investorsOf (post_id post) (viewed (req_postId req) w))
      with (investorsOf (post_id post) w) in Hn.
    change (investors (viewed (req_postId req) w)) with (investors w) in *.
    change (nextId (viewed (req_postId req) w)) with (nextId w) in *.
    change (payments (viewed (req_postId req) w)) with (payments w) in *.
    change (investor_row user post (S (nextId w))
              (viewed (req_postId req) w))
      with (investor_row user post (S (nextId w)) w) in Hn.
    destruct (announce_frame user post w2)
      as (_ & _ & Hpa3 & _ & Hin3 & Hid3 & _).
    assert (Hfin : forall w',
              investors w' = investors w2 -> (nextId w2 <= nextId w')%nat ->
              (investors w'
               = (investors w
                  ++ [investor_row user post (S (nextId w)) w])%list
               /\ (S (S (nextId w)) <= nextId w')%nat
               /\ req_isBuyout req = true
               /\ Z.of_nat (List.length (investorsOf (post_id post) w))
                  < maxInvestorSlots post)
              \/ (map inv_key (investors w') = map inv_key (investors w)
                  /\ (S (nextId w) <= nextId w')%nat)).
    { intros w' Hi Hle.
      destruct Hn as [(Hi2 & Hn2 & _ & Hb)|(Hk & Hn2)].
      - left. rewrite Hi, Hi2. split; [reflexivity|]. split; [lia|].
        unfold buyout_branch in Hb. rewrite length_orderBy_position in Hb.
        apply andb_true_iff in Hb as [Hb1 Hb2]. apply Z.ltb_lt in Hb2. auto.
      - right. rewrite Hi, Hk. split; [reflexivity|lia]. }
    destruct o as [[]|e].
    + cbv zeta in R. destruct (commentsLocked post).
      * destruct (has_record _ _ comment w).
        -- exists []. rewrite R. simpl. rewrite Hpa3, Hpa.
           split; [reflexivity|]. split; [exact Hs|]. split; [reflexivity|].
           split; [intros ? []|].
           apply Hfin; [exact Hin3|lia].
        -- eexists [_]. rewrite R. cbn [snd].
           split; [reflexivity|]. split; [exact Hs|].
           split; [simpl; rewrite Hpa3, Hpa, <- app_assoc; reflexivity|].
           split; [intros r [<-|[]]; reflexivity|].
           apply Hfin; simpl; [exact Hin3|lia].
      * exists []. rewrite R. simpl. rewrite Hpa3, Hpa.
        split; [reflexivity|]. split; [exact Hs|]. split; [reflexivity|].
        split; [intros ? []|].
        apply Hfin; [exact Hin3|lia].
    + exists []. rewrite R. simpl. rewrite Hpa.
      split; [reflexivity|]. split; [exact Hs|]. split; [reflexivity|].
      split; [intros ? []|].
      apply Hfin; [reflexivity|lia].
Qed.

Lemma inv_key_eq i j :
  inv_key j = inv_key i ->
  inv_id j = inv_id i /\ inv_postId j = inv_postId i
  /\ inv_userId j = inv_userId i /\ inv_position j = inv_position i.
Proof. unfold inv_key. intros H. inversion H. auto. Qed.

Lemma keys_ids a b :
  map inv_key a = map inv_key b -> map inv_id a = map inv_id b.
Proof.
  intros H. apply (f_equal (map (fun k => fst (fst (fst k))))) in H.
  now rewrite !map_map in H.
Qed.

Lemma keys_positions id a b :
  map inv_key a = map inv_key b ->
  map inv_position (filter (fun i => String.eqb (inv_postId i) id) a)
  = map inv_position (filter (fun i => String.eqb (inv_postId i) id) b).
Proof.
  revert b. induction a as [|x a IH]; intros [|y b] H; try discriminate;
    [reflexivity|].
  simpl in H.
  pose proof (f_equal (@hd _ (inv_key x)) H) as Hk.
  pose proof (f_equal (@tl _) H) as H5. simpl in Hk, H5.
  apply inv_key_eq in Hk as (_ & H2 & _ & H4). simpl. rewrite <- H2.
  destruct (String.eqb (inv_postId x) id); simpl; rewrite <- ?H4;
    now rewrite (IH b H5).
Qed.

Lemma keys_In a b i :
  map inv_key a = map inv_key b -> In i a ->
  exists j, In j b /\ inv_key j = inv_key i.
Proof.
  intros H Hin. apply (in_map inv_key) in Hin. rewrite H in Hin.
  apply in_map_iff in Hin as (j & E & Hj). eauto.
Qed.

Lemma has_record_app u p t w l :
  has_record u p t w = true ->
  existsb (matches_payment u p t) (payments w ++ l) = true.
Proof. intros H. rewrite existsb_app. unfold has_record in H. now rewrite H. Qed.

Lemma content_count_app id w c extra :
  (forall r, In r extra -> pay_paymentType r = comment) ->
  List.length
    (filter (fun r => String.eqb (pay_postId r) id
                      && PaymentType_eqb (pay_paymentType r) content)
       (payments w ++ c :: extra))
  = (content_count id w
     + if String.eqb (pay_postId c) id
          && PaymentType_eqb (pay_paymentType c) content
       then 1 else 0)%nat.
Proof.
  intros Hex. unfold content_count. rewrite filter_app, length_app. simpl.
  rewrite (filter_none _ extra).
  - destruct (_ && _); simpl; lia.
  - apply not_true_iff_false. intros H.
    apply existsb_exists in H as (r & Hr & E). rewrite (Hex r Hr) in E.
    simpl in E. now rewrite andb_false_r in E.
Qed.


Lemma POST_pay_consistent env req w :
  consistent w -> consistent (snd (POST_pay env req w)).
Proof.
  intros (Hd & Hp & Hc & Hn & Hi).
  destruct (POST_pay_effect env req w)
    as [(Epa & Ein & Eid)
       |(user & post & extra & Hv & Hs & Epa & Hex & Hcase)].
  { unfold consistent, dense, positions, investorsOf, has_record,
      content_count in *.
    rewrite Epa, Ein, Eid. auto. }
  apply validate_inr in Hv as (_ & _ & _ & _ & _ & Hrec & _).
  set (w' := snd (POST_pay env req w)) in *.
  assert (Hrec' : forall u p,
            has_record u p content w = true ->
            has_record u p content w' = true).
  { intros u p H. unfold has_record at 1. rewrite Epa.
    now apply has_record_app. }
  assert (Hcount : forall id,
            content_count id w'
            = (content_count id w
               + if String.eqb (post_id post) id then 1 else 0)%nat).
  { intros id. unfold content_count at 1. rewrite Epa.
    rewrite (content_count_app id w _ extra Hex). simpl.
    now rewrite andb_true_r. }
  destruct Hcase as [(Ein & Eid & Hbuy & Hlt)|(Ek & Eid)].
  - assert (Hpos : forall id,
              positions id w'
              = (positions id w
                 ++ if String.eqb (post_id post) id
                    then [Z.of_nat (List.length (positions id w)) + 1]
                    else [])%list).
    { intros id. unfold positions, investorsOf. rewrite Ein, filter_app.
      simpl. destruct (String.eqb (post_id post) id) eqn:E; simpl.
      - apply String.eqb_eq in E. subst id.
        rewrite map_app, length_map. reflexivity.
      - now rewrite !app_nil_r. }
    repeat split.
    + intros id. specialize (Hpos id).
      destruct (String.eqb (post_id post) id).
      * eapply dense_next; eauto.
      * unfold dense. rewrite Hpos, app_nil_r. apply Hd.
    + intros i Hin. rewrite Ein in Hin. apply in_app_or in Hin as [Hin|[<-|[]]].
      * apply Hrec'. now apply Hp.
      * simpl. unfold has_record. rewrite Epa, existsb_app. simpl.
        now rewrite matches_content_record, orb_true_r.
    + intros id. rewrite Hcount. specialize (Hc id).
      unfold investorsOf in *. rewrite Ein, filter_app, length_app. simpl.
      destruct (String.eqb (post_id post) id); simpl; lia.
    + rewrite Ein, map_app. simpl. apply NoDup_app; auto.
      * repeat constructor. intros [].
      * intros x Hx [<-|[]]. apply in_map_iff in Hx as (i & E & Hin).
        apply Hi in Hin. lia.
    + intros i Hin. rewrite Ein in Hin. apply in_app_or in Hin as [Hin|[<-|[]]].
      * apply Hi in Hin. lia.
      * simpl. lia.
  - repeat split.
    + intros id. unfold dense, positions, investorsOf.
      rewrite (keys_positions id _ _ Ek). apply Hd.
    + intros i Hin. destruct (keys_In _ _ i Ek Hin) as (j & Hj & E).
      apply inv_key_eq in E as (_ & E2 & E3 & _). rewrite <- E2, <- E3.
      apply Hrec'. now apply Hp.
    + intros id. rewrite Hcount. specialize (Hc id).
      unfold investorsOf in *.
      rewrite <- (length_map inv_position), (keys_positions id _ _ Ek),
        length_map.
      lia.
    + now rewrite (keys_ids _ _ Ek).
    + intros i Hin. destruct (keys_In _ _ i Ek Hin) as (j & Hj & E).
      apply inv_key_eq in E as (E1 & _). rewrite <- E1.
      apply Hi in Hj. lia.
Qed.

Lemma POST_pay_comment_consistent env req w :
  consistent w -> consistent (snd (POST_pay_comment env req w)).
Proof.
  intros H. rewrite POST_pay_comment_run.
  destruct (whoami _ w) as [user|]; [|exact H].
  destruct (lookup_post _ w) as [post|]; [|exact H].
  destruct (negb _); [exact H|].
  destruct (_ || _); [exact H|]. simpl.
  destruct H as (Hd & Hp & Hc & Hn & Hi). repeat split; auto.
  - intros i Hin. unfold has_record; simpl. rewrite existsb_app.
    specialize (Hp i Hin). unfold has_record in Hp. now rewrite Hp.
  - intros id. specialize (Hc id). unfold content_count; simpl.
    rewrite filter_app, length_app. unfold content_count in Hc.
    simpl. rewrite andb_false_r. simpl.
    change (investorsOf id (comment_paid req user post w))
      with (investorsOf id w).
    lia.
  - intros i Hin. simpl. apply Hi in Hin. lia.
Qed.

Lemma viralSweep_consistent now w :
  consistent w -> consistent (viralSweep now w).
Proof.
  destruct (viralSweep_facts now w) as [_ Epa _ Ein _ Eid _ _ _].
  unfold consistent, dense, positions, investorsOf, has_record,
    content_count.
  now rewrite Epa, Ein, Eid.
Qed.

(** X9.  The payment routes and the sweep keep the ledger consistent along
    any run: investor positions of every post stay 1, 2, ... without gaps,
    every investor holds a content record for the post, no post has more
    investors than content payments, and investor ids stay distinct. *)
Theorem runs_keep_the_ledger_consistent :
  forall env acts w,
    consistent w -> consistent (snd (run env acts w)).
Proof.
  intros env acts. induction acts as [|a acts IH]; intros w H; simpl.
  - exact H.
  - apply IH. destruct a as [req|req|now]; simpl.
    + now apply POST_pay_consistent.
    + now apply POST_pay_comment_consistent.
    + now apply viralSweep_consistent.
Qed.


(** ** More on the payment routes *)

(** X11.  A payment request that is turned down (401, 404, a 400, or
    [alreadyPaid: true]) writes nothing but the view counter: payments,
    fees, investors, settlements, broadcasts, notifications and messages
    are as before, and without a known user or post not even the counter
    moves. *)
Theorem rejected_payment_writes_nothing :
  forall env req w,
    fst (POST_pay env req w) <> Success false ->
    (forall e, fst (POST_pay env req w) <> Error500 e) ->
    let w' := snd (POST_pay env req w) in
    payments w' = payments w /\ platformFees w' = platformFees w
    /\ investors w' = investors w /\ settlements w' = settlements w
    /\ broadcasts w' = broadcasts w /\ notifications w' = notifications w
    /\ directMessages w' = directMessages w /\ nextId w' = nextId w
    /\ users w' = users w
    /\ posts w'
       = match whoami (req_wallet req) w, lookup_post (req_postId req) w with
         | Some _, Some _ => posts (viewed (req_postId req) w)
         | _, _ => posts w
         end.
Proof.
  intros env req w Hs He. cbv zeta.
  pose proof (POST_pay_run env req w) as R.
  destruct (validate env req w) as [r|[user post]] eqn:Hv.
  - rewrite R. simpl.
    destruct (whoami (req_wallet req) w), (lookup_post (req_postId req) w);
      repeat split.
  - apply validate_inr in Hv as (Hw & Hp & _). rewrite Hw, Hp.
    destruct (slots_full req post w); [rewrite R; repeat split|].
    exfalso.
    destruct (allocated env req user post _) as [[[]|e] w2].
    + cbv zeta in R.
      destruct (commentsLocked post);
        [destruct (has_record _ _ comment w)|]; rewrite R in *; simpl in *;
        solve [now apply Hs | eapply He; reflexivity].
    + rewrite R in He. eapply He. reflexivity.
Qed.

(** X12.  The comment payment is idempotent: a request answered
    [alreadyPaid: false] leaves exactly one comment record of the payer for
    the post, at the post's comment fee, with one platform fee of 0.05
    linked to it; the same request again is answered [alreadyPaid: true]
    and writes nothing at all. *)
Theorem comment_payment_is_idempotent :
  forall env req w w1,
    POST_pay_comment env req w = (Success false, w1) ->
    exists user post,
      whoami (req_wallet req) w = Some user
      /\ lookup_post (req_postId req) w = Some post
      /\ commentsLocked post = true
      /\ paid_count (user_id user) (req_postId req) comment w1 = 1%nat
      /\ payments w1
         = (payments w ++ [comment_fee_record req user post (nextId w)])%list
      /\ map (fun f => (fee_paymentId f, fee_amount f)) (platformFees w1)
         = (map (fun f => (fee_paymentId f, fee_amount f)) (platformFees w)
            ++ [(nextId w, PLATFORM_FEE_USDC)])%list
      /\ POST_pay_comment env req w1 = (Success true, w1).
Proof.
  intros env req w w1 H. rewrite POST_pay_comment_run in H.
  destruct (whoami _ w) as [user|] eqn:Hw; [|discriminate].
  destruct (lookup_post _ w) as [post|] eqn:Hp; [|discriminate].
  destruct (commentsLocked post) eqn:Hl; simpl in H; [|discriminate].
  destruct (isFree post) eqn:Hf; simpl in H; [discriminate|].
  destruct (has_record _ _ comment w) eqn:Hr; [discriminate|].
  inversion H; subst w1; clear H.
  pose proof (lookup_post_id _ _ _ Hp) as Hid.
  exists user, post. repeat split; auto.
  - unfold paid_count, comment_paid; simpl. rewrite filter_app, <- Hid.
    unfold has_record in Hr. rewrite (filter_none _ _ Hr). simpl.
    unfold matches_payment; simpl. now rewrite !String.eqb_refl.
  - unfold comment_paid; simpl. now rewrite map_app.
  - rewrite POST_pay_comment_run.
    change (whoami (req_wallet req) (comment_paid req user post w))
      with (whoami (req_wallet req) w).
    change (lookup_post (req_postId req) (comment_paid req user post w))
      with (lookup_post (req_postId req) w).
    rewrite Hw, Hp, Hl, Hf. simpl.
    unfold has_record, comment_paid; simpl. rewrite existsb_app. simpl.
    unfold matches_payment at 2; simpl.
    now rewrite !String.eqb_refl, orb_true_r.
Qed.

Lemma find_app_none {A} (f : A -> bool) l a :
  existsb f l = false -> f a = true -> find f (l ++ [a]) = Some a.
Proof.
  intros Hl Ha. rewrite find_app.
  rewrite <- find_existsb in Hl.
  destruct (find f l); [discriminate|]. simpl. now rewrite Ha.
Qed.

(** X13.  A buyout answered [alreadyPaid: false] adds one investor row
    for the payer, at the position after the investors the post had, with
    the buyout price (the price when the post has none) as investment and
    no earnings; it credits nobody and records no settlement.  In a
    consistent ledger [getUserInvestorPosition] then returns that position
    and [getInvestorCount] has grown by one. *)
Theorem buyout_adds_one_investor_row :
  forall env req w w1 post,
    POST_pay env req w = (Success false, w1) ->
    lookup_post (req_postId req) w = Some post ->
    req_isBuyout req = true ->
    consistent w ->
    exists user id,
      whoami (req_wallet req) w = Some user
      /\ investors w1
         = (investors w
            ++ [mkInvestor id (req_postId req) (user_id user)
                  (Z.of_nat (List.length (investorsOf (req_postId req) w)) + 1)
                  (match buyoutPrice post with
                   | Some b => b
                   | None => price post
                   end) 0%Q])%list
      /\ settlements w1 = settlements w
      /\ fst (getUserInvestorPosition (user_id user) (req_postId req) w1)
         = Ok (Some (Z.of_nat (List.length (investorsOf (req_postId req) w))
                     + 1))
      /\ fst (getInvestorCount (req_postId req) w1)
         = Ok (S (List.length (investorsOf (req_postId req) w))).
Proof.
  intros env req w w1 post H Hp Hbuy (_ & Hpaid & _).
  apply POST_pay_success in H
    as (user & post' & w2 & Hv & Hs & Ha & _ & _ & _ & Hin & Hse & _).
  apply validate_inr in Hv as (Hw & Hp' & Hid & _ & _ & Hrec & _).
  rewrite Hp in Hp'. inversion Hp'; subst post'.
  exists user, (S (nextId w)). split; [exact Hw|].
  apply allocated_investors in Ha. cbv zeta in Ha.
  change (investorsOf (post_id post) (viewed (req_postId req) w))
    with (investorsOf (post_id post) w) in Ha.
  change (investors (viewed (req_postId req) w)) with (investors w) in Ha.
  change (nextId (viewed (req_postId req) w)) with (nextId w) in Ha.
  change (settlements (viewed (req_postId req) w)) with (settlements w) in Ha.
  assert (Hb : buyout_branch req post
                 (orderBy_position (investorsOf (post_id post) w)) = true).
  { unfold buyout_branch, slots_full in *.
    rewrite length_orderBy_position, Hbuy in *. simpl in *.
    apply Z.ltb_lt. apply Z.leb_gt in Hs. lia. }
  destruct Ha as [(_ & Hset & [((e & He) & _)|(_ & Hi)])|(Hb' & _)];
    [discriminate| |congruence].
  assert (Erow : investor_row user post (S (nextId w))
                   (viewed (req_postId req) w)
                 = mkInvestor (S (nextId w)) (req_postId req) (user_id user)
                     (Z.of_nat
                        (List.length (investorsOf (req_postId req) w)) + 1)
                     (match buyoutPrice post with
                      | Some b => b
                      | None => price post
                      end) 0%Q).
  { unfold investor_row. now rewrite Hid. }
  rewrite Erow in Hi. rewrite Hi in Hin. rewrite Hse.
  split; [exact Hin|]. split; [exact Hset|]. split.
  - unfold getUserInvestorPosition, bind, get, ret. cbv beta iota.
    rewrite Hin, find_app_none;
      [reflexivity| |cbn [inv_userId inv_postId]; now rewrite !String.eqb_refl].
    apply not_true_iff_false. intros Hex.
    apply existsb_exists in Hex as (i & Hi' & E).
    apply andb_true_iff in E as [Eu Ep].
    apply String.eqb_eq in Eu. apply String.eqb_eq in Ep.
    specialize (Hpaid i Hi'). rewrite Eu, Ep, <- Hid in Hpaid. congruence.
  - unfold getInvestorCount, get. cbv beta iota. rewrite Hin. simpl. f_equal.
    rewrite filter_app, length_app. simpl. rewrite String.eqb_refl. simpl.
    unfold investorsOf. lia.
Qed.

Lemma allocate_plain env req user post creator existing n w :
  buyout_branch req post existing = false ->
  distribution_branch post existing n = false ->
  allocate env req user post creator existing n w
  = (Ok tt,
     set_settlements w
       (settlements w
        ++ match creator with
           | Some c =>
               if negb (isFree post)
               then [processPaymentWithSplits env (req_amount req)
                       (orElse (Some (req_cryptocurrency req)) "USDC")
                       (walletAddress c) None None]
               else []
           | None => []
           end)).
Proof.
  unfold allocate, buyout_branch, distribution_branch. intros -> ->.
  destruct creator as [c|].
  - destruct (negb (isFree post)).
    + rewrite settle_eq. reflexivity.
    + unfold ret, set_settlements. now rewrite app_nil_r, world_eta.
  - unfold ret, set_settlements. now rewrite app_nil_r, world_eta.
Qed.

(** X14.  An ordinary (non-buyout) payment on a post whose investor pool
    is not full, or whose revenue share is not positive, changes no
    investor and records one settlement without investor splits, in which
    the creator receives the amount minus the flat fee (no settlement at
    all when the creator's user row is missing). *)
Theorem plain_unlock_pays_the_creator_only :
  forall env req w w1 post,
    POST_pay env req w = (Success false, w1) ->
    lookup_post (req_postId req) w = Some post ->
    req_isBuyout req = false ->
    Z.of_nat (List.length (investorsOf (req_postId req) w))
    <> maxInvestorSlots post
    \/ (investorRevenueShare post <= 0)%Q ->
    investors w1 = investors w
    /\ settlements w1
       = (settlements w
          ++ match find (fun u => String.eqb (user_id u) (creatorId post))
                     (users w) with
             | Some c =>
                 [processPaymentWithSplits env (req_amount req)
                    (orElse (Some (req_cryptocurrency req)) "USDC")
                    (walletAddress c) None None]
             | None => []
             end)%list.
Proof.
  intros env req w w1 post H Hp Hreg Hcond.
  apply POST_pay_success in H
    as (user & post' & w2 & Hv & Hs & Ha & _ & _ & _ & Hin & Hse & _).
  apply validate_inr in Hv as (Hw & Hp' & Hid & _ & Hfree & Hrec & _).
  rewrite Hp in Hp'. inversion Hp'; subst post'.
  rewrite Hin, Hse. unfold allocated in Ha.
  rewrite allocate_plain in Ha.
  - change (users (viewed (req_postId req) w)) with (users w) in Ha.
    inversion Ha; subst w2. cbn [investors settlements set_settlements].
    split; [reflexivity|]. f_equal.
    destruct (find _ (users w)) as [c|]; [|reflexivity].
    rewrite Hfree. reflexivity.
  - unfold buyout_branch. now rewrite Hreg.
  - unfold distribution_branch. rewrite length_orderBy_position.
    change (investorsOf (post_id post) (viewed (req_postId req) w))
      with (investorsOf (post_id post) w).
    assert (Hid' : post_id post = req_postId req) by (now rewrite Hid).
    rewrite Hid'.
    destruct Hcond as [Hne|Hle].
    + apply Z.eqb_neq in Hne. rewrite Hne. now rewrite andb_false_r.
    + apply Qle_bool_iff in Hle. rewrite Hle. now rewrite andb_false_r.
Qed.

(** ** From the payment to the media *)

Lemma validate_already_paid env req w :
  validate env req w = inl (Success true) ->
  exists user post,
    whoami (req_wallet req) w = Some user
    /\ lookup_post (req_postId req) w = Some post
    /\ isFree post || has_record (user_id user) (post_id post) content w
       = true.
Proof.
  unfold validate.
  destruct (whoami _ w) as [u|]; [|discriminate].
  destruct (lookup_post _ w) as [p|] eqn:Hp; [|discriminate].
  destruct (negb _); [discriminate|].
  destruct (_ || _) eqn:E.
  - intros _. now exists u, p.
  - destruct (network_rejected env req); discriminate.
Qed.

Lemma POST_pay_Success_true env req w w1 :
  POST_pay env req w = (Success true, w1) ->
  validate env req w = inl (Success true) /\ w1 = viewed (req_postId req) w.
Proof.
  intros H. pose proof (POST_pay_run env req w) as R.
  destruct (validate env req w) as [r|[user post]] eqn:Hv.
  - rewrite R in H. inversion H; subst. split; [reflexivity|].
    apply validate_already_paid in Hv as (u & p & -> & -> & _). reflexivity.
  - exfalso. destruct (slots_full req post w); [rewrite R in H; discriminate|].
    destruct (allocated env req user post _) as [[[]|e] w2];
      [|rewrite R in H; discriminate].
    cbv zeta in R.
    destruct (commentsLocked post);
      [destruct (has_record _ _ comment w)|]; rewrite R in H; discriminate.
Qed.

(** X15.  Whoever the payment route answers with success, whether
    [alreadyPaid] is false or true, is entitled to the media straight away:
    the media route, asked with the same wallet header, sends the decrypted
    file whenever the decryption yields one, and never the 404. *)
Theorem paid_viewer_is_served_the_media :
  forall env req w w1 b,
    POST_pay env req w = (Success b, w1) ->
    exists post',
      lookup_post (req_postId req) w1 = Some post'
      /\ entitled (media_request_of req) post' w1 = true
      /\ fst (GET_media env (media_request_of req) w1)
         = match plaintext env post' with
           | Some body => MediaSent (mimeType post') body
           | None => Redirect (blurredThumbnailPath post')
           end.
Proof.
  intros env req w w1 b H.
  assert (Hent : exists post',
             lookup_post (req_postId req) w1 = Some post'
             /\ entitled (media_request_of req) post' w1 = true).
  { destruct b.
    - apply POST_pay_Success_true in H as [Hv ->].
      apply validate_already_paid in Hv as (u & p & Hw & Hp & Hor).
      rewrite lookup_post_viewed, Hp. simpl. eexists. split; [reflexivity|].
      unfold entitled, media_request_of, media_wallet. simpl.
      change (whoami (req_wallet req) (viewed (req_postId req) w))
        with (whoami (req_wallet req) w).
      rewrite Hw, has_record_viewed.
      rewrite (lookup_post_id _ _ _ Hp) in *.
      rewrite String.eqb_refl. simpl.
      apply orb_true_iff in Hor as [->| ->]; [reflexivity|].
      now rewrite !orb_true_r.
    - pose proof H as H0.
      apply POST_pay_success in H
        as (user & post & w2 & Hv & _ & _ & Hu & Hpo & _).
      apply validate_inr in Hv as (Hw & Hp & _).
      pose proof (POST_pay_success_count _ _ _ _ _ H0 Hw) as Hc.
      assert (Hl : lookup_post (req_postId req) w1
                   = lookup_post (req_postId req) (viewed (req_postId req) w)).
      { unfold lookup_post. now rewrite Hpo. }
      rewrite Hl, lookup_post_viewed, Hp. simpl. eexists.
      split; [reflexivity|].
      unfold entitled, media_request_of, media_wallet. simpl.
      assert (Hwho : whoami (req_wallet req) w1 = whoami (req_wallet req) w).
      { unfold whoami. now rewrite Hu. }
      rewrite Hwho, Hw.
      assert (Hr : has_record (user_id user) (req_postId req) content w1
                   = true).
      { unfold paid_count in Hc. unfold has_record.
        destruct (existsb _ (payments w1)) eqn:E; [reflexivity|].
        rewrite (filter_none _ _ E) in Hc. discriminate. }
      rewrite Hr. now rewrite !orb_true_r. }
  destruct Hent as (post' & Hl & He). exists post'.
  split; [exact Hl|]. split; [exact He|].
  rewrite GET_media_eq. simpl.
  change (media_postId (media_request_of req)) with (req_postId req).
  now rewrite Hl, He.
Qed.

(** ** The network check of the payment route *)

(** X16.  A payment request in one of the five supported currencies that
    names no network is checked against the default network, base-mainnet
    in production and base-sepolia otherwise, and that network is accepted
    for USDC only: the request is refused when it pays in SOL, ETH, MATIC
    or BNB. *)
Theorem default_network_only_fits_USDC :
  forall env req,
    req_network req = None \/ req_network req = Some EmptyString ->
    In (req_cryptocurrency req) ["USDC"; "SOL"; "ETH"; "MATIC"; "BNB"] ->
    network_rejected env req
    = negb (String.eqb (req_cryptocurrency req) "USDC").
Proof.
  intros env req Hn Hin.
  assert (Hsel : selectedNetwork env req
                 = if isProduction env then "base-mainnet"
                   else "base-sepolia").
  { unfold selectedNetwork. destruct Hn as [-> | ->]; reflexivity. }
  unfold network_rejected, validNetworks. rewrite Hsel.
  destruct Hin as [<-|[<-|[<-|[<-|[<-|[]]]]]];
    destruct (isProduction env); reflexivity.
Qed.

(** ** The viral detection worker, as a function *)

Lemma mark_nil now l : map (mark now []) l = l.
Proof. unfold mark; simpl. apply map_id. Qed.

Lemma set_viral_idem p now : set_viral (set_viral p now) now = set_viral p now.
Proof. reflexivity. Qed.

Lemma mark_cons now id ids l :
  map (mark now ids)
    (map (fun p => if String.eqb (post_id p) id then set_viral p now else p) l)
  = map (mark now (id :: ids)) l.
Proof.
  rewrite map_map. apply map_ext. intros p. unfold mark; simpl.
  destruct (String.eqb (post_id p) id); simpl.
  - now destruct (existsb _ ids).
  - reflexivity.
Qed.

(** The events of the loop over the rows of a snapshot. *)
Lemma sweep_loop_map now rows :
  forall w,
    (forall post c, In (post, c) rows -> eligible post = true -> c <> None) ->
    forEach rows (sweep_row now) w
    = (Ok tt,
       set_broadcasts
         (set_posts w
            (map (mark now (map post_id (filter eligible (map fst rows))))
               (posts w)))
         (broadcasts w
          ++ flat_map
               (fun row =>
                  match snd row with
                  | Some c => [viralNotification (post_id (fst row))
                                 (viral_message (fst row) c)]
                  | None => []
                  end)
               (filter (fun row => eligible (fst row)) rows))).
Proof.
  induction rows as [|[post creator] rows IH]; intros w Hc.
  - simpl. unfold ret. rewrite mark_nil, app_nil_r.
    unfold set_broadcasts, set_posts; simpl. now rewrite world_eta.
  - assert (Hc' : forall post c,
               In (post, c) rows -> eligible post = true -> c <> None).
    { intros p c Hin. apply Hc. now right. }
    simpl forEach. unfold bind.
    set (loop := forEach rows (sweep_row now)) in *.
    cbn [map fst filter snd flat_map]. cbv beta iota.
    destruct (isViral post) eqn:Hviral.
    { assert (He : eligible post = false)
        by (unfold eligible; now rewrite Hviral).
      rewrite He. unfold ret; cbv beta iota. apply IH, Hc'. }
    destruct (VIRAL_UPVOTE_THRESHOLD <=? upvoteCount post) eqn:Hup.
    2:{ assert (He : eligible post = false)
          by (unfold eligible; now rewrite Hviral, Hup).
        rewrite He. unfold ret; cbv beta iota. apply IH, Hc'. }
    assert (He : eligible post = true)
      by (unfold eligible; now rewrite Hviral, Hup).
    rewrite He.
    destruct creator as [c|].
    2:{ exfalso. now apply (Hc post None); [left| |]. }
    unfold bind, markPostViral, update_post, broadcast, modify.
    cbv beta iota. rewrite IH by exact Hc'.
    cbn [map fst snd flat_map app].
    unfold set_broadcasts, set_posts; cbn -[mark eligible viral_message].
    rewrite mark_cons, <- app_assoc. reflexivity.
Qed.

Lemma mark_eligible now l :
  NoDup (map post_id l) ->
  map (mark now (map post_id (filter eligible l))) l = map (swept now) l.
Proof.
  intros Hnd. apply map_ext_in. intros p Hin. unfold mark, swept.
  destruct (eligible p) eqn:He.
  - assert (E : existsb (String.eqb (post_id p))
                  (map post_id (filter eligible l)) = true).
    { apply existsb_exists. exists (post_id p). split.
      - apply in_map, filter_In. now split.
      - apply String.eqb_refl. }
    now rewrite E.
  - destruct (existsb _ _) eqn:E; [|reflexivity]. exfalso.
    apply existsb_exists in E as (id & Hid & E).
    apply String.eqb_eq in E. subst id.
    apply in_map_iff in Hid as (q & Hq & Hqin).
    apply filter_In in Hqin as [Hqin Hqe].
    assert (q = p) by (eapply NoDup_map_eq; eauto).
    subst q. congruence.
Qed.

Lemma filter_map_fst_snapshot w :
  filter eligible (map fst (snapshot w)) = filter eligible (rev (posts w)).
Proof.
  unfold snapshot. rewrite map_map. simpl. now rewrite map_id.
Qed.

Lemma snapshot_events w :
  flat_map
    (fun row : Post * option User =>
       match snd row with
       | Some c => [viralNotification (post_id (fst row))
                      (viral_message (fst row) c)]
       | None => []
       end)
    (filter (fun row => eligible (fst row)) (snapshot w))
  = viral_events w.
Proof.
  unfold viral_events, snapshot, creatorOf.
  induction (rev (posts w)) as [|p l IH]; simpl; [reflexivity|].
  destruct (eligible p); simpl; now rewrite IH.
Qed.

Lemma existsb_rev {A} (f : A -> bool) l : existsb f (rev l) = existsb f l.
Proof.
  induction l as [|a l IH]; simpl; [reflexivity|].
  rewrite existsb_app, IH. simpl. rewrite orb_false_r. apply orb_comm.
Qed.

Lemma mark_rev now l l' :
  map (mark now (map post_id (filter eligible (rev l)))) l'
  = map (mark now (map post_id (filter eligible l))) l'.
Proof.
  apply map_ext. intros p. unfold mark.
  rewrite filter_rev, map_rev, existsb_rev. reflexivity.
Qed.

Lemma viralSweep_map now w :
  NoDup (map post_id (posts w)) ->
  (forall p, In p (posts w) -> eligible p = true -> creatorOf p w <> None) ->
  viralSweep now w
  = set_broadcasts (set_posts w (map (swept now) (posts w)))
      (broadcasts w ++ viral_events w).
Proof.
  intros Hnd Hc. rewrite viralSweep_eq, sweep_loop_map.
  - simpl. rewrite filter_map_fst_snapshot, mark_rev, mark_eligible by exact Hnd.
    now rewrite snapshot_events.
  - intros post c Hin He. unfold snapshot in Hin.
    apply in_map_iff in Hin as (p & E & Hin). inversion E; subst.
    apply Hc; [|exact He]. now apply in_rev.
Qed.

Lemma eligible_swept now p : eligible (swept now p) = false.
Proof.
  unfold swept. destruct (eligible p) eqn:E; [reflexivity|exact E].
Qed.

Lemma filter_eligible_swept now l :
  filter eligible (map (swept now) l) = [].
Proof.
  induction l as [|p l IH]; simpl; [reflexivity|].
  now rewrite eligible_swept.
Qed.

(** X17.  With unique post ids and a user row for the creator of every
    eligible post, one run of the viral worker marks exactly the posts that
    were not viral and have ten upvotes or more, and broadcasts one
    notification for each of them, newest post first; afterwards every post
    with ten upvotes or more is viral, and a second run changes nothing. *)
Theorem sweep_promotes_every_eligible_post :
  forall now w,
    NoDup (map post_id (posts w)) ->
    (forall p, In p (posts w) -> eligible p = true -> creatorOf p w <> None) ->
    let w' := viralSweep now w in
    posts w' = map (swept now) (posts w)
    /\ broadcasts w' = (broadcasts w ++ viral_events w)%list
    /\ (forall p', In p' (posts w') ->
          VIRAL_UPVOTE_THRESHOLD <= upvoteCount p' -> isViral p' = true)
    /\ forall now', viralSweep now' w' = w'.
Proof.
  intros now w Hnd Hc. cbv zeta. rewrite (viralSweep_map now w Hnd Hc).
  split; [reflexivity|]. split; [reflexivity|]. split.
  - simpl. intros p' Hin Hup. apply in_map_iff in Hin as (p & <- & _).
    pose proof (eligible_swept now p) as E. unfold eligible in E.
    apply Z.leb_le in Hup. rewrite Hup, andb_true_r in E.
    now apply negb_false_iff in E.
  - intros now'. rewrite viralSweep_map.
    + unfold viral_events. simpl.
      rewrite <- map_rev, filter_eligible_swept. simpl.
      rewrite app_nil_r, map_map.
      assert (E : map (fun p => swept now' (swept now p)) (posts w)
                  = map (swept now) (posts w)).
      { apply map_ext. intros p. unfold swept at 1.
        now rewrite eligible_swept. }
      rewrite E. reflexivity.
    + simpl. rewrite map_map.
      assert (E : map (fun p => post_id (swept now p)) (posts w)
                  = map post_id (posts w)).
      { apply map_ext. intros p. unfold swept. now destruct (eligible p). }
      now rewrite E.
    + simpl. intros p Hin He. apply in_map_iff in Hin as (q & <- & _).
      now rewrite eligible_swept in He.
Qed.

(** ** withRetry *)

(** X18.  An operation that never fails with one of the three connection
    codes is run once by [withRetry], whatever the positive number of
    retries: the wrapper returns its value or rethrows its error, and
    leaves the state the single attempt left. *)
Theorem withRetry_runs_other_failures_once :
  forall (S A : Type) (operation : S -> attempt A * S) (n : nat) (s : S),
    (forall s0 code message s1,
        operation s0 = (Failed code message, s1) -> retryable code = false) ->
    withRetry operation (Datatypes.S n) s
    = (match fst (operation s) with
       | Returned a => Resolved a
       | Failed code message => Rejected code message
       end, snd (operation s)).
Proof.
  intros S A operation n s H. unfold withRetry. simpl.
  destruct (operation s) as [[a|code message] s1] eqn:E; [reflexivity|].
  now rewrite (H _ _ _ _ E).
Qed.

Lemma retry_loop_exhausted {S A} (operation : S -> attempt A * S) n :
  (forall s0, exists code message,
      fst (operation s0) = Failed code message /\ retryable code = true) ->
  forall last s,
    snd (retry_loop operation n last s)
    = Nat.iter n (fun s0 => snd (operation s0)) s
    /\ forall a, fst (retry_loop operation n last s) <> Resolved a.
Proof.
  intros H. induction n as [|n IH]; intros last s.
  - simpl. split; [reflexivity|]. intros a.
    destruct last as [[c m]|]; discriminate.
  - cbn [retry_loop]. destruct (H s) as (code & message & Hf & Hr).
    destruct (operation s) as [o s1] eqn:E. simpl in Hf. subst o.
    rewrite Hr. destruct (IH (Some (code, message)) s1) as [IH1 IH2].
    rewrite IH1. split; [|exact IH2].
    assert (E1 : s1 = snd (operation s)) by (now rewrite E).
    rewrite E1.
    exact (Nat.iter_swap n S (fun s0 => snd (operation s0)) s).
Qed.

(** X19.  An operation that fails with a connection code at every attempt
    is attempted exactly [maxRetries] times, each attempt starting from the
    state the one before left, and [withRetry] never resolves. *)
Theorem withRetry_gives_up_after_maxRetries :
  forall (S A : Type) (operation : S -> attempt A * S) (maxRetries : nat)
         (s : S),
    (forall s0, exists code message,
        fst (operation s0) = Failed code message /\ retryable code = true) ->
    snd (withRetry operation maxRetries s)
    = Nat.iter maxRetries (fun s0 => snd (operation s0)) s
    /\ forall a, fst (withRetry operation maxRetries s) <> Resolved a.
Proof.
  intros S A operation maxRetries s H. unfold withRetry.
  now apply retry_loop_exhausted.
Qed.

(** ** Votes *)

Lemma same_vote_key u p v :
  same_vote u p v = true <-> vote_key v = (u, p).
Proof.
  unfold same_vote, vote_key. rewrite andb_true_iff, !String.eqb_eq.
  split; [intros [-> ->]; reflexivity|intros E; inversion E; auto].
Qed.

Lemma same_vote_tail u p a l :
  NoDup (map vote_key (a :: l)) -> same_vote u p a = true ->
  forall v, In v l -> same_vote u p v = false.
Proof.
  intros Hnd Ha v Hv. inversion Hnd as [|? ? Hnin _]; subst.
  apply same_vote_key in Ha.
  destruct (same_vote u p v) eqn:E; [|reflexivity].
  apply same_vote_key in E. elim Hnin. rewrite Ha, <- E. now apply in_map.
Qed.

Lemma recast_none u p t l :
  (forall v, In v l -> same_vote u p v = false) -> map (recast u p t) l = l.
Proof.
  intros H. rewrite <- (map_id l) at 2. apply map_ext_in. intros v Hv.
  unfold recast. now rewrite (H v Hv).
Qed.

Lemma filter_all {A} (f : A -> bool) l :
  (forall a, In a l -> f a = true) -> filter f l = l.
Proof.
  induction l as [|a l IH]; simpl; intros H; [reflexivity|].
  rewrite (H a) by now left. f_equal. apply IH. intros b Hb. apply H.
  now right.
Qed.

Lemma count_recast (P : Vote -> bool) u p t l e :
  NoDup (map vote_key l) ->
  find (same_vote u p) l = Some e ->
  (List.length (filter P (map (recast u p t) l)) + b2n (P e)
   = List.length (filter P l) + b2n (P (set_voteType e t)))%nat.
Proof.
  induction l as [|a l IH]; simpl; [discriminate|]. intros Hnd F.
  destruct (same_vote u p a) eqn:Ha.
  - inversion F; subst a. unfold recast at 1. rewrite Ha.
    rewrite (recast_none u p t l)
      by (eapply same_vote_tail; eauto).
    destruct (P e), (P (set_voteType e t)); simpl; lia.
  - unfold recast at 1. rewrite Ha.
    assert (Hnd' : NoDup (map vote_key l)) by (now inversion Hnd).
    specialize (IH Hnd' F). destruct (P a); simpl; lia.
Qed.

Lemma count_unvote (P : Vote -> bool) u p l e :
  NoDup (map vote_key l) ->
  find (same_vote u p) l = Some e ->
  (List.length (filter P (filter (fun v => negb (same_vote u p v)) l))
   + b2n (P e)
   = List.length (filter P l))%nat.
Proof.
  induction l as [|a l IH]; simpl; [discriminate|]. intros Hnd F.
  destruct (same_vote u p a) eqn:Ha; simpl.
  - inversion F; subst a.
    rewrite (filter_all (fun v => negb (same_vote u p v)) l).
    + destruct (P e); simpl; lia.
    + intros v Hv. now rewrite (same_vote_tail u p e l Hnd Ha v Hv).
  - assert (Hnd' : NoDup (map vote_key l)) by (now inversion Hnd).
    specialize (IH Hnd' F). destruct (P a); simpl; lia.
Qed.

Lemma find_same_vote u p l e :
  find (same_vote u p) l = Some e -> vote_userId e = u /\ vote_postId e = p.
Proof.
  intros F. apply find_some in F as [_ F]. apply same_vote_key in F.
  now inversion F.
Qed.

Lemma keys_recast u p t l :
  map vote_key (map (recast u p t) l) = map vote_key l.
Proof.
  rewrite map_map. apply map_ext. intros v. unfold recast.
  now destruct (same_vote u p v).
Qed.

Lemma createOrUpdateVote_new u p t b :
  find (same_vote u p) (votes b) = None ->
  createOrUpdateVote (mkInsertVote u p t) b
  = if negb (existsb (fun q => String.eqb (post_id q) p) (posts (ledger b)))
       || negb (existsb (fun x => String.eqb (user_id x) u)
                  (users (ledger b)))
    then (Throw "violates foreign key constraint", b)
    else
      let vote := mkVote (nextId (ledger b)) p u t in
      (Ok (Some vote),
       mkBallots
         (set_posts
            (set_payments (ledger b) (payments (ledger b))
               (S (nextId (ledger b))))
            (recount p (assign t 1 (mkUpdates None None))
               (posts (ledger b))))
         (votes b ++ [vote])).
Proof.
  intros F. unfold createOrUpdateVote, bindB, getUserVote. simpl.
  rewrite F. unfold insert_vote. simpl.
  destruct (negb _ || negb _); [reflexivity|].
  rewrite <- find_existsb, F. reflexivity.
Qed.

Lemma createOrUpdateVote_again u p t b e :
  find (same_vote u p) (votes b) = Some e ->
  snd (createOrUpdateVote (mkInsertVote u p t) b)
  = mkBallots
      (match lookup_post p (ledger b) with
       | Some _ =>
           set_posts (ledger b)
             (recount p
                (assign t 1 (assign (voteType e) (-1) (mkUpdates None None)))
                (posts (ledger b)))
       | None => ledger b
       end)
      (map (recast u p t) (votes b)).
Proof.
  intros F. unfold createOrUpdateVote, bindB, getUserVote. simpl.
  rewrite F. unfold liftB, getPost, get. simpl.
  fold (lookup_post p (ledger b)).
  destruct (lookup_post p (ledger b)); reflexivity.
Qed.

Lemma tallied_recount b w' votes' U p :
  tallied b ->
  posts w' = posts (ledger b) ->
  (forall id,
      Z.of_nat (up_votes id votes')
      = Z.of_nat (up_votes id (votes b))
        + (if String.eqb id p
           then match upd_upvoteCount U with Some d => d | None => 0 end
           else 0)) ->
  (forall id,
      Z.of_nat (down_votes id votes')
      = Z.of_nat (down_votes id (votes b))
        + (if String.eqb id p
           then match upd_downvoteCount U with Some d => d | None => 0 end
           else 0)) ->
  tallied (mkBallots (set_posts w' (recount p U (posts w'))) votes').
Proof.
  intros Ht Hp Hu Hd q' Hq'. simpl in *. rewrite Hp in Hq'.
  apply in_map_iff in Hq' as (q & <- & Hq).
  destruct (Ht q Hq) as [Hup Hdown].
  specialize (Hu (post_id q)). specialize (Hd (post_id q)).
  destruct (String.eqb (post_id q) p).
  - simpl. rewrite Hu, Hd, Hup, Hdown.
    destruct (upd_upvoteCount U), (upd_downvoteCount U); split; lia.
  - rewrite Hu, Hd, Hup, Hdown. split; lia.
Qed.

Lemma up_votes_app id l v :
  up_votes id (l ++ [v])
  = (up_votes id l
     + b2n (String.eqb (vote_postId v) id && is_up (voteType v)))%nat.
Proof.
  unfold up_votes. rewrite filter_app, length_app. simpl.
  now destruct (_ && _).
Qed.

Lemma down_votes_app id l v :
  down_votes id (l ++ [v])
  = (down_votes id l
     + b2n (String.eqb (vote_postId v) id && negb (is_up (voteType v))))%nat.
Proof.
  unfold down_votes. rewrite filter_app, length_app. simpl.
  now destruct (_ && _).
Qed.

(** X20.  A first vote and a vote that changes the type keep the counters
    of every post equal to the number of up and of down votes in the votes
    table, with at most one vote of a user on a post. *)
Theorem first_or_changed_vote_keeps_the_tally :
  forall u p t b,
    tallied b -> one_vote_each b ->
    (forall e, find (same_vote u p) (votes b) = Some e ->
               is_up (voteType e) = negb (is_up t)) ->
    let b' := snd (createOrUpdateVote (mkInsertVote u p t) b) in
    tallied b' /\ one_vote_each b'.
Proof.
  intros u p t b Ht Hone Hflip. cbv zeta.
  destruct (find (same_vote u p) (votes b)) as [e|] eqn:F.
  - specialize (Hflip e eq_refl).
    rewrite (createOrUpdateVote_again u p t b e F).
    destruct (find_same_vote _ _ _ _ F) as [_ Hep].
    assert (Hup : forall id,
               Z.of_nat (up_votes id (map (recast u p t) (votes b)))
               = Z.of_nat (up_votes id (votes b))
                 + (if String.eqb id p
                    then (if is_up t then 1 else -1) else 0)).
    { intros id.
      pose proof (count_recast
                    (fun v => String.eqb (vote_postId v) id
                              && is_up (voteType v)) u p t _ e Hone F) as C.
      simpl in C. rewrite Hep, Hflip, (String.eqb_sym p id) in C.
      unfold up_votes.
      destruct (String.eqb id p), (is_up t); simpl in C; lia. }
    assert (Hdown : forall id,
               Z.of_nat (down_votes id (map (recast u p t) (votes b)))
               = Z.of_nat (down_votes id (votes b))
                 + (if String.eqb id p
                    then (if is_up t then -1 else 1) else 0)).
    { intros id.
      pose proof (count_recast
                    (fun v => String.eqb (vote_postId v) id
                              && negb (is_up (voteType v))) u p t _ e Hone F)
        as C.
      simpl in C. rewrite Hep, Hflip, (String.eqb_sym p id) in C.
      unfold down_votes.
      destruct (String.eqb id p), (is_up t); simpl in C; lia. }
    split.
    + destruct (lookup_post p (ledger b)) as [q|] eqn:Hq.
      * apply (tallied_recount b (ledger b)); auto.
        -- intros id. rewrite Hup. unfold assign. fold (is_up (voteType e)).
           fold (is_up t). rewrite Hflip.
           now destruct (String.eqb id p), (is_up t).
        -- intros id. rewrite Hdown. unfold assign. fold (is_up (voteType e)).
           fold (is_up t). rewrite Hflip.
           now destruct (String.eqb id p), (is_up t).
      * intros q Hq'. simpl in *. destruct (Ht q Hq') as [H1 H2].
        assert (Hne : String.eqb (post_id q) p = false).
        { destruct (String.eqb (post_id q) p) eqn:E; [|reflexivity].
          unfold lookup_post in Hq.
          pose proof (find_none _ _ Hq q Hq') as N. simpl in N. congruence. }
        specialize (Hup (post_id q)). specialize (Hdown (post_id q)).
        rewrite Hne in Hup, Hdown. split; lia.
    + unfold one_vote_each in *. simpl.
      change (fun v : Vote => (vote_userId v, vote_postId v)) with vote_key.
      now rewrite keys_recast.
  - rewrite (createOrUpdateVote_new u p t b F).
    destruct (negb _ || negb _); [now split|]. cbv zeta. split.
    + apply (tallied_recount b
               (set_payments (ledger b) (payments (ledger b))
                  (S (nextId (ledger b))))); auto.
      * intros id. rewrite up_votes_app. simpl.
        unfold assign. fold (is_up t). rewrite (String.eqb_sym p id).
        destruct (String.eqb id p), (is_up t); simpl; lia.
      * intros id. rewrite down_votes_app. simpl.
        unfold assign. fold (is_up t). rewrite (String.eqb_sym p id).
        destruct (String.eqb id p), (is_up t); simpl; lia.
    + unfold one_vote_each in *. simpl. rewrite map_app. simpl.
      apply NoDup_app; [exact Hone|repeat constructor; intros []|].
      intros k Hin [<-|[]]. apply in_map_iff in Hin as (v & E & Hv).
      pose proof (find_none _ _ F v Hv) as N.
      assert (same_vote u p v = true) by (now apply same_vote_key).
      congruence.
Qed.

Lemma set_voteType_same v : set_voteType v (voteType v) = v.
Proof. now destruct v. Qed.

Lemma recast_same u p l e :
  NoDup (map vote_key l) ->
  find (same_vote u p) l = Some e ->
  map (recast u p (voteType e)) l = l.
Proof.
  intros Hnd F. rewrite <- (map_id l) at 2. apply map_ext_in. intros v Hv.
  unfold recast. destruct (same_vote u p v) eqn:E; [|reflexivity].
  apply find_some in F as [He Fe].
  apply same_vote_key in E. apply same_vote_key in Fe.
  assert (v = e) by (eapply NoDup_map_eq; eauto; congruence).
  subst v. apply set_voteType_same.
Qed.

Lemma lookup_post_recount p U w w' :
  posts w' = recount p U (posts w) ->
  lookup_post p w' = option_map (apply_updates U) (lookup_post p w).
Proof.
  intros E. unfold lookup_post. rewrite E. unfold recount.
  rewrite (find_map_key post_id).
  - destruct (find _ (posts w)) as [q|] eqn:F; [|reflexivity].
    apply find_some in F as [_ F]. simpl. now rewrite F.
  - intros q. now destruct (String.eqb (post_id q) p).
Qed.

(** X21.  A vote of the type the user's vote already has leaves the votes
    table as it is and still adds one to the counter of that type: after
    it the counters no longer agree with the votes table. *)
Theorem repeated_vote_inflates_the_counter :
  forall u p t b e q,
    one_vote_each b ->
    find (same_vote u p) (votes b) = Some e ->
    voteType e = t ->
    lookup_post p (ledger b) = Some q ->
    let b' := snd (createOrUpdateVote (mkInsertVote u p t) b) in
    votes b' = votes b
    /\ lookup_post p (ledger b')
       = Some (if is_up t
               then set_counts q (upvoteCount q + 1) (downvoteCount q)
               else set_counts q (upvoteCount q) (downvoteCount q + 1))
    /\ (tallied b -> ~ tallied b').
Proof.
  intros u p t b e q Hone F Ht Hq. cbv zeta.
  rewrite (createOrUpdateVote_again u p t b e F), Hq. simpl.
  assert (Hv : map (recast u p t) (votes b) = votes b).
  { rewrite <- Ht. now apply recast_same. }
  assert (Hl : lookup_post p
                 (set_posts (ledger b)
                    (recount p
                       (assign t 1
                          (assign (voteType e) (-1) (mkUpdates None None)))
                       (posts (ledger b))))
               = Some (if is_up t
                       then set_counts q (upvoteCount q + 1) (downvoteCount q)
                       else set_counts q (upvoteCount q)
                              (downvoteCount q + 1))).
  { rewrite (lookup_post_recount p _ (ledger b)) by reflexivity.
    rewrite Hq, Ht. simpl. f_equal. unfold assign, apply_updates.
    fold (is_up t). now destruct (is_up t). }
  split; [exact Hv|]. split; [exact Hl|].
  intros Htal Htal'.
  unfold lookup_post in Hl, Hq.
  apply find_some in Hl as [Hin' _]. apply find_some in Hq as [Hin Hid].
  destruct (Htal q Hin) as [H1 H2].
  destruct (Htal' _ Hin') as [H1' H2']. simpl in H1', H2'.
  rewrite Hv in H1', H2'.
  destruct (is_up t); simpl in H1', H2'; lia.
Qed.

Lemma deleteVote_eq u p b :
  snd (deleteVote u p b)
  = match find (same_vote u p) (votes b) with
    | None => b
    | Some e =>
        mkBallots
          (set_posts (ledger b)
             (recount p (assign (voteType e) (-1) (mkUpdates None None))
                (posts (ledger b))))
          (filter (fun v => negb (same_vote u p v)) (votes b))
    end.
Proof.
  unfold deleteVote, bindB, getUserVote. simpl.
  destruct (find _ (votes b)); reflexivity.
Qed.

Lemma NoDup_map_filter {A K} (f : A -> K) (g : A -> bool) l :
  NoDup (map f l) -> NoDup (map f (filter g l)).
Proof.
  induction l as [|a l IH]; simpl; [auto|]. intros Hnd.
  inversion Hnd as [|? ? Hnin Hnd']; subst.
  destruct (g a); simpl; [|auto]. constructor; [|auto].
  intros Hin. apply Hnin. apply in_map_iff in Hin as (x & E & Hx).
  apply filter_In in Hx as [Hx _]. rewrite <- E. now apply in_map.
Qed.

Lemma find_unvoted u p l :
  find (same_vote u p) (filter (fun v => negb (same_vote u p v)) l) = None.
Proof.
  destruct (find _ _) as [v|] eqn:F; [|reflexivity].
  apply find_some in F as [Hin E]. apply filter_In in Hin as [_ N].
  rewrite E in N. discriminate.
Qed.

(** X22.  Deleting a vote keeps the counters of every post equal to the
    votes table and leaves no vote of the user on the post. *)
Theorem deleting_a_vote_keeps_the_tally :
  forall u p b,
    tallied b -> one_vote_each b ->
    let b' := snd (deleteVote u p b) in
    tallied b' /\ one_vote_each b'
    /\ find (same_vote u p) (votes b') = None.
Proof.
  intros u p b Ht Hone. cbv zeta. rewrite deleteVote_eq.
  destruct (find (same_vote u p) (votes b)) as [e|] eqn:F;
    [|split; [exact Ht|split; [exact Hone|exact F]]].
  destruct (find_same_vote _ _ _ _ F) as [_ Hep].
  split; [|split].
  - apply (tallied_recount b (ledger b)); auto.
    + intros id.
      pose proof (count_unvote
                    (fun v => String.eqb (vote_postId v) id
                              && is_up (voteType v)) u p _ e Hone F) as C.
      simpl in C. rewrite Hep, (String.eqb_sym p id) in C.
      unfold up_votes, assign. fold (is_up (voteType e)).
      destruct (String.eqb id p), (is_up (voteType e)); simpl in *; lia.
    + intros id.
      pose proof (count_unvote
                    (fun v => String.eqb (vote_postId v) id
                              && negb (is_up (voteType v))) u p _ e Hone F)
        as C.
      simpl in C. rewrite Hep, (String.eqb_sym p id) in C.
      unfold down_votes, assign. fold (is_up (voteType e)).
      destruct (String.eqb id p), (is_up (voteType e)); simpl in *; lia.
  - unfold one_vote_each in *. simpl. now apply NoDup_map_filter.
  - simpl. apply find_unvoted.
Qed.

Lemma apply_updates_undo t q :
  apply_updates (assign t (-1) (mkUpdates None None))
    (apply_updates (assign t 1 (mkUpdates None None)) q) = q.
Proof.
  unfold assign, apply_updates, set_counts. destruct q; simpl.
  destruct (String.eqb t "up"); simpl; f_equal; lia.
Qed.

(** X23.  A first vote followed by its deletion is a round trip: the votes
    table and the posts, counters included, are what they were; only the
    id counter has moved. *)
Theorem vote_then_unvote_round_trip :
  forall u p t b vote,
    find (same_vote u p) (votes b) = None ->
    fst (createOrUpdateVote (mkInsertVote u p t) b) = Ok vote ->
    let b1 := snd (createOrUpdateVote (mkInsertVote u p t) b) in
    let b2 := snd (deleteVote u p b1) in
    votes b2 = votes b
    /\ posts (ledger b2) = posts (ledger b)
    /\ users (ledger b2) = users (ledger b)
    /\ payments (ledger b2) = payments (ledger b)
    /\ investors (ledger b2) = investors (ledger b).
Proof.
  intros u p t b vote F Hok. cbv zeta.
  rewrite (createOrUpdateVote_new u p t b F) in *.
  destruct (negb _ || negb _); [discriminate|]. cbv zeta in *. simpl fst in *.
  rewrite deleteVote_eq. cbn [votes snd].
  assert (Hex : existsb (same_vote u p) (votes b) = false).
  { rewrite <- find_existsb, F. reflexivity. }
  rewrite (find_app_none (same_vote u p) (votes b)
             (mkVote (nextId (ledger b)) p u t) Hex)
    by (unfold same_vote; simpl; now rewrite !String.eqb_refl).
  cbn [votes ledger posts users payments investors set_posts set_payments
       voteType].
  split; [|split; [|now repeat split]].
  - rewrite filter_app. simpl. unfold same_vote at 2. simpl.
    rewrite !String.eqb_refl. simpl. rewrite app_nil_r.
    apply filter_all. intros v Hv.
    rewrite <- find_existsb in Hex.
    pose proof (find_none _ _ F v Hv) as N. now rewrite N.
  - unfold recount. rewrite map_map. rewrite <- (map_id (posts (ledger b))) at 2.
    apply map_ext. intros q.
    destruct (String.eqb (post_id q) p) eqn:E.
    + simpl. rewrite E. apply apply_updates_undo.
    + now rewrite E.
Qed.

(** ** The backfill of investor earnings *)

Lemma overwrite_twice l a e e' i :
  overwrite l e' (if (inv_id i =? inv_id a)%nat
                  then set_totalEarnings i e else i)
  = if (inv_id i =? inv_id a)%nat
    then (if existsb (fun inv => (inv_id i =? inv_id inv)%nat) l
          then set_totalEarnings i e' else set_totalEarnings i e)
    else overwrite l e' i.
Proof.
  unfold overwrite. destruct (inv_id i =? inv_id a)%nat; [|reflexivity].
  simpl. now destruct (existsb _ l).
Qed.

Lemma forEach_overwrite e l w :
  forEach l (fun investor => update_totalEarnings (inv_id investor) e) w
  = (Ok tt, set_investors w (map (overwrite l e) (investors w)) (nextId w)).
Proof.
  revert w. induction l as [|a l IH]; intros w; simpl.
  - unfold ret, set_investors, overwrite; simpl.
    now rewrite map_id, world_eta.
  - unfold bind, update_totalEarnings at 1, modify. rewrite IH.
    unfold set_investors; simpl. f_equal. f_equal.
    rewrite map_map. apply map_ext. intros i.
    rewrite overwrite_twice. unfold overwrite. simpl.
    destruct (inv_id i =? inv_id a)%nat; simpl; [|reflexivity].
    now destruct (existsb _ l).
Qed.

Lemma forEachCounting_overwrite e l n w :
  forEachCounting l n (fun investor count =>
    update_totalEarnings (inv_id investor) e ;;; ret (S count)) w
  = (Ok (n + List.length l)%nat,
     set_investors w (map (overwrite l e) (investors w)) (nextId w)).
Proof.
  revert n w. induction l as [|a l IH]; intros n w; simpl.
  - unfold ret, set_investors, overwrite; simpl.
    now rewrite map_id, world_eta, Nat.add_0_r.
  - unfold bind, update_totalEarnings at 1, modify, ret. rewrite IH.
    unfold set_investors; simpl. f_equal; [f_equal; lia|]. f_equal.
    rewrite map_map. apply map_ext. intros i.
    rewrite overwrite_twice. unfold overwrite. simpl.
    destruct (inv_id i =? inv_id a)%nat; simpl; [|reflexivity].
    now destruct (existsb _ l).
Qed.

Lemma inv_id_overwritten tbl (f : Investor -> Investor) :
  (forall i, inv_id (f i) = inv_id i) ->
  map inv_id (map f tbl) = map inv_id tbl.
Proof.
  intros H. rewrite map_map. apply map_ext. exact H.
Qed.

Lemma in_investors_of_post tbl p i :
  NoDup (map inv_id tbl) -> In i tbl ->
  existsb (fun inv => (inv_id i =? inv_id inv)%nat)
    (orderBy_position (filter (fun j => String.eqb (inv_postId j) p) tbl))
  = String.eqb (inv_postId i) p.
Proof.
  intros Hnd Hi. destruct (String.eqb (inv_postId i) p) eqn:E.
  - apply existsb_exists. exists i. split; [|apply Nat.eqb_refl].
    apply In_orderBy_position, filter_In. now split.
  - destruct (existsb _ _) eqn:X; [|reflexivity].
    apply existsb_exists in X as (j & Hj & Hid).
    apply In_orderBy_position, filter_In in Hj as [Hj Hp].
    apply Nat.eqb_eq in Hid.
    assert (i = j) by (eapply NoDup_map_eq; eauto). subst j. congruence.
Qed.

Lemma backfill_post_eq p n w :
  NoDup (map inv_id (investors w)) ->
  backfill_post p n w
  = (Ok (n + List.length (investorsOf (post_id p) w))%nat,
     set_investors w
       (map (fun i => if String.eqb (inv_postId i) (post_id p)
                      then set_totalEarnings i
                             (backfill_earnings (post_id p) w)
                      else i) (investors w))
       (nextId w)).
Proof.
  intros Hnd. unfold backfill_post, bind, get. cbv beta iota.
  rewrite length_orderBy_position.
  destruct (List.length (investorsOf (post_id p) w) =? 0)%nat eqn:E.
  - apply Nat.eqb_eq in E. rewrite E, Nat.add_0_r. unfold ret. f_equal.
    assert (M : map (fun i => if String.eqb (inv_postId i) (post_id p)
                              then set_totalEarnings i
                                     (backfill_earnings (post_id p) w)
                              else i) (investors w) = investors w).
    { rewrite <- (map_id (investors w)) at 2. apply map_ext_in.
      intros i Hi. destruct (String.eqb (inv_postId i) (post_id p)) eqn:X;
        [|reflexivity].
      exfalso. apply length_zero_iff_nil in E.
      assert (Hin : In i (investorsOf (post_id p) w))
        by (apply filter_In; now split).
      rewrite E in Hin. destruct Hin. }
    rewrite M. unfold set_investors. now rewrite world_eta.
  - rewrite forEach_overwrite. cbv beta iota zeta.
    etransitivity;
      [exact (forEachCounting_overwrite (backfill_earnings (post_id p) w)
                _ n _)|].
    rewrite length_orderBy_position.
    unfold set_investors; simpl. f_equal. f_equal.
    rewrite map_map. apply map_ext_in. intros i Hi.
    unfold overwrite at 1.
    assert (Hid : inv_id
                    (overwrite
                       (orderBy_position (investorsOf (post_id p) w)) 0 i)
                  = inv_id i).
    { unfold overwrite. now destruct (existsb _ _). }
    rewrite Hid. unfold overwrite, investorsOf.
    rewrite (in_investors_of_post _ _ _ Hnd Hi).
    now destruct (String.eqb (inv_postId i) (post_id p)).
Qed.

Lemma backfill_loop ps :
  forall n w,
    NoDup (map inv_id (investors w)) ->
    exists n',
      forEachCounting ps n backfill_post w
      = (Ok n',
         set_investors w
           (map (fun i =>
                   if existsb (fun p => String.eqb (inv_postId i) (post_id p))
                        ps
                   then set_totalEarnings i
                          (backfill_earnings (inv_postId i) w)
                   else i) (investors w))
           (nextId w)).
Proof.
  induction ps as [|p ps IH]; intros n w Hnd.
  - exists n. simpl. unfold ret, set_investors.
    now rewrite map_id, world_eta.
  - simpl. unfold bind. rewrite backfill_post_eq by exact Hnd.
    set (w1 := set_investors w _ (nextId w)).
    destruct (IH (n + List.length (investorsOf (post_id p) w))%nat w1)
      as (n' & E).
    { unfold w1; simpl. rewrite inv_id_overwritten; [exact Hnd|].
      intros i. now destruct (String.eqb _ _). }
    exists n'. rewrite E. unfold w1, set_investors; simpl. f_equal. f_equal.
    rewrite map_map. apply map_ext. intros i.
    destruct (String.eqb (inv_postId i) (post_id p)) eqn:X; simpl.
    + apply String.eqb_eq in X. rewrite <- X.
      now destruct (existsb _ ps).
    + reflexivity.
Qed.

Lemma has_buyout_filter id l :
  existsb (fun p => String.eqb (post_id p) id && with_buyout p) l
  = existsb (fun p => String.eqb id (post_id p)) (filter with_buyout l).
Proof.
  induction l as [|p l IH]; simpl; [reflexivity|].
  rewrite IH. destruct (with_buyout p); simpl.
  - now rewrite andb_true_r, (String.eqb_sym id (post_id p)).
  - now rewrite andb_false_r.
Qed.

Lemma POST_backfill_eq wallet w u :
  NoDup (map inv_id (investors w)) ->
  whoami wallet w = Some u ->
  exists n,
    POST_backfill wallet w
    = (Backfilled n (List.length (filter with_buyout (posts w))),
       set_investors w (map (backfilled w) (investors w)) (nextId w)).
Proof.
  intros Hnd Hw. unfold POST_backfill, backfill, bind.
  rewrite getCurrentUser_eq, Hw. unfold get. cbv beta iota.
  change (filter (fun p => match buyoutPrice p with
                           | Some _ => true
                           | None => false
                           end) (posts w))
    with (filter with_buyout (posts w)).
  destruct (backfill_loop (filter with_buyout (posts w)) 0%nat w Hnd)
    as (n & E).
  exists n. rewrite E. unfold ret. f_equal. f_equal.
  apply map_ext. intros i. unfold backfilled.
  replace (has_buyout (inv_postId i) w)
    with (existsb (fun p => String.eqb (inv_postId i) (post_id p))
            (filter with_buyout (posts w)))
    by (symmetry; apply has_buyout_filter).
  reflexivity.
Qed.

Lemma backfilled_twice w w' i :
  posts w' = posts w -> payments w' = payments w ->
  backfilled w' (backfilled w i) = backfilled w i.
Proof.
  intros Hp Hpay.
  assert (Hi : inv_postId (backfilled w i) = inv_postId i).
  { unfold backfilled. now destruct (has_buyout _ _). }
  assert (Hb : forall id, has_buyout id w' = has_buyout id w).
  { intros id. unfold has_buyout. now rewrite Hp. }
  assert (He : forall id, backfill_earnings id w' = backfill_earnings id w).
  { intros id. unfold backfill_earnings. now rewrite Hpay. }
  unfold backfilled at 1. rewrite Hi, Hb, He.
  unfold backfilled. now destruct (has_buyout (inv_postId i) w).
Qed.

(** X24.  The backfill route, called by any signed-in user on a ledger
    with unique investor ids, overwrites the earnings of every investor of
    a post that has a buyout price with the backfill amount of that post,
    whatever the investor had earned, and touches nothing else; a second
    call changes nothing more. *)
Theorem backfill_overwrites_the_earnings :
  forall wallet w,
    NoDup (map inv_id (investors w)) ->
    whoami wallet w <> None ->
    let w' := snd (POST_backfill wallet w) in
    investors w' = map (backfilled w) (investors w)
    /\ users w' = users w /\ posts w' = posts w
    /\ payments w' = payments w /\ platformFees w' = platformFees w
    /\ nextId w' = nextId w
    /\ (exists n,
          fst (POST_backfill wallet w)
          = Backfilled n (List.length (filter with_buyout (posts w))))
    /\ snd (POST_backfill wallet w') = w'.
Proof.
  intros wallet w Hnd Hw. cbv zeta.
  destruct (whoami wallet w) as [u|] eqn:Hu; [clear Hw|congruence].
  destruct (POST_backfill_eq wallet w u Hnd Hu) as (n & E).
  rewrite E. simpl.
  repeat (split; [reflexivity|]). split; [now exists n|].
  set (w' := set_investors w (map (backfilled w) (investors w)) (nextId w)).
  assert (Hnd' : NoDup (map inv_id (investors w'))).
  { unfold w'; simpl. rewrite inv_id_overwritten; [exact Hnd|].
    intros i. unfold backfilled. now destruct (has_buyout _ _). }
  assert (Hu' : whoami wallet w' = Some u) by exact Hu.
  destruct (POST_backfill_eq wallet w' u Hnd' Hu') as (n' & E').
  rewrite E'. simpl. unfold w', set_investors; simpl. f_equal.
  rewrite map_map. apply map_ext. intros i.
  now apply backfilled_twice.
Qed.

(** X25.  The amount the backfill writes is exactly five cents for each
    content payment of the post after the tenth, with no rounding; the
    price of the post, its revenue share and the number of its investors
    play no part. *)
Theorem backfill_pays_five_cents_per_late_payment :
  forall id w,
    (backfill_earnings id w
     == inject_Z (Z.of_nat (content_count id w - 10)) * (5 # 100))%Q.
Proof.
  intros id w. unfold backfill_earnings, content_count.
  rewrite length_skipn.
  set (k := Z.of_nat (_ - 10)).
  assert (Hk : 0 <= k) by (unfold k; lia).
  unfold toFixed2.
  assert (Hpos : Qle_bool 0 (inject_Z k * (5 # 100)) = true).
  { apply Qle_bool_iff. apply Qmult_le_0_compat; [|discriminate].
    change 0%Q with (inject_Z 0). now rewrite <- Zle_Qle. }
  rewrite Hpos.
  assert (H : (inject_Z k * (5 # 100) * 100 + (1 # 2)
               == inject_Z (5 * k) + (1 # 2))%Q).
  { rewrite inject_Z_mult. change (inject_Z 5) with 5%Q. field. }
  rewrite H, Qfloor_half.
  unfold Qeq, Qmult, inject_Z. cbn [Qnum Qden]. lia.
Qed.

(** ** The comments gate *)

Lemma GET_comments_eq wallet id w :
  GET_comments wallet id w
  = (match lookup_post id w with
     | None => CommentsNotFound404
     | Some post =>
         if commentsLocked post
         then match whoami wallet w with
              | Some u =>
                  if isFree post
                     || has_record (user_id u) id content w
                     || has_record (user_id u) id comment w
                     || String.eqb (user_id u) (creatorId post)
                  then CommentsListed
                  else CommentsLocked403 (commentFee post)
              | None => CommentsLocked403 (commentFee post)
              end
         else CommentsListed
     end, w).
Proof.
  unfold GET_comments, comments, bind. rewrite getCurrentUser_eq.
  unfold getPost at 1, get. fold (lookup_post id w).
  destruct (lookup_post id w) as [post|] eqn:Hp; [|reflexivity].
  destruct (whoami wallet w) as [u|];
    [|destruct (commentsLocked post); reflexivity].
  destruct (commentsLocked post); [|reflexivity].
  rewrite !hasUserPaid_eq.
  assert (Hf : post_is_free id w = isFree post).
  { unfold post_is_free. now rewrite Hp. }
  rewrite Hf.
  destruct (isFree post), (has_record (user_id u) id content w),
    (has_record (user_id u) id comment w),
    (String.eqb (user_id u) (creatorId post)); reflexivity.
Qed.

(** X26.  On a free post the comment lock binds anonymous visitors only:
    every signed-in user is shown the comments, and the comment fee cannot
    be paid, the payment route answering [alreadyPaid: true] without
    recording anything. *)
Theorem comment_lock_of_a_free_post_binds_no_user :
  forall env req w user post,
    whoami (req_wallet req) w = Some user ->
    lookup_post (req_postId req) w = Some post ->
    isFree post = true ->
    fst (GET_comments (req_wallet req) (req_postId req) w) = CommentsListed
    /\ POST_pay_comment env req w = (Success true, w).
Proof.
  intros env req w user post Hw Hp Hf. split.
  - rewrite GET_comments_eq, Hp, Hw, Hf. simpl.
    now destruct (commentsLocked post).
  - rewrite POST_pay_comment_run, Hw, Hp, Hf.
    now destruct (commentsLocked post).
Qed.

(** X27.  A comment payment opens the comments and nothing else: the
    payer is shown the comments, while the media route keeps answering
    with the blurred thumbnail as long as the payer is neither the creator
    nor holds a content record. *)
Theorem comment_payment_opens_comments_not_media :
  forall env req w w1 user post,
    POST_pay_comment env req w = (Success false, w1) ->
    whoami (req_wallet req) w = Some user ->
    lookup_post (req_postId req) w = Some post ->
    String.eqb (user_id user) (creatorId post) = false ->
    has_record (user_id user) (req_postId req) content w = false ->
    fst (GET_comments (req_wallet req) (req_postId req) w1) = CommentsListed
    /\ fst (GET_media env (media_request_of req) w1)
       = Redirect (blurredThumbnailPath post).
Proof.
  intros env req w w1 user post H Hw Hp Hc Hr.
  rewrite POST_pay_comment_run, Hw, Hp in H.
  destruct (commentsLocked post) eqn:Hl; simpl in H; [|discriminate].
  destruct (isFree post) eqn:Hf; simpl in H; [discriminate|].
  destruct (has_record _ _ comment w) eqn:Hrc; [discriminate|].
  inversion H; subst w1; clear H.
  pose proof (lookup_post_id _ _ _ Hp) as Hid.
  assert (Hp1 : lookup_post (req_postId req) (comment_paid req user post w)
                = Some post) by exact Hp.
  assert (Hw1 : whoami (req_wallet req) (comment_paid req user post w)
                = Some user) by exact Hw.
  assert (Hcontent : has_record (user_id user) (req_postId req) content
                       (comment_paid req user post w) = false).
  { unfold has_record, comment_paid; simpl. rewrite existsb_app. simpl.
    unfold has_record in Hr. rewrite Hr. unfold matches_payment; simpl.
    now rewrite !andb_false_r. }
  assert (Hcomment : has_record (user_id user) (req_postId req) comment
                       (comment_paid req user post w) = true).
  { unfold has_record, comment_paid; simpl. rewrite existsb_app. simpl.
    unfold matches_payment at 2; simpl.
    now rewrite Hid, !String.eqb_refl, orb_true_r. }
  split.
  - rewrite GET_comments_eq, Hp1, Hl, Hw1, Hcomment.
    now rewrite orb_true_r.
  - rewrite GET_media_eq.
    change (media_postId (media_request_of req)) with (req_postId req).
    rewrite Hp1. unfold entitled.
    change (media_wallet (media_request_of req)) with (req_wallet req).
    change (media_postId (media_request_of req)) with (req_postId req).
    now rewrite Hw1, Hf, Hc, Hcontent.
Qed.

Lemma POST_pay_paid env req w w1 b :
  POST_pay env req w = (Success b, w1) ->
  exists user post',
    whoami (req_wallet req) w1 = Some user
    /\ lookup_post (req_postId req) w1 = Some post'
    /\ isFree post' || has_record (user_id user) (req_postId req) content w1
       = true.
Proof.
  intros H. destruct b.
  - apply POST_pay_Success_true in H as [Hv ->].
    apply validate_already_paid in Hv as (u & p & Hw & Hp & Hor).
    exists u. rewrite lookup_post_viewed, Hp. simpl. eexists.
    split; [exact Hw|]. split; [reflexivity|].
    rewrite has_record_viewed, (lookup_post_id _ _ _ Hp) in *.
    rewrite String.eqb_refl. exact Hor.
  - pose proof H as H0.
    apply POST_pay_success in H
      as (user & post & w2 & Hv & _ & _ & Hu & Hpo & _).
    apply validate_inr in Hv as (Hw & Hp & _).
    pose proof (POST_pay_success_count _ _ _ _ _ H0 Hw) as Hc.
    assert (Hl : lookup_post (req_postId req) w1
                 = lookup_post (req_postId req) (viewed (req_postId req) w)).
    { unfold lookup_post. now rewrite Hpo. }
    exists user. rewrite Hl, lookup_post_viewed, Hp. simpl. eexists.
    split; [unfold whoami; now rewrite Hu|]. split; [reflexivity|].
    assert (Hr : has_record (user_id user) (req_postId req) content w1
                 = true).
    { unfold paid_count in Hc. unfold has_record.
      destruct (existsb _ (payments w1)) eqn:E; [reflexivity|].
      rewrite (filter_none _ _ E) in Hc. discriminate. }
    rewrite Hr. apply orb_true_r.
Qed.

(** X28.  Whoever the payment route answers with success is shown the
    comments of the post from then on, locked or not. *)
Theorem paid_viewer_is_shown_the_comments :
  forall env req w w1 b,
    POST_pay env req w = (Success b, w1) ->
    fst (GET_comments (req_wallet req) (req_postId req) w1) = CommentsListed.
Proof.
  intros env req w w1 b H.
  apply POST_pay_paid in H as (user & post' & Hw & Hp & Hor).
  rewrite GET_comments_eq, Hp, Hw. simpl.
  destruct (commentsLocked post'); [|reflexivity].
  apply orb_true_iff in Hor as [-> | ->]; [reflexivity|].
  now rewrite orb_true_r.
Qed.

(** ** The further properties at work on the small deployment *)

Lemma consistent_without_investors w : investors w = [] -> consistent w.
Proof.
  intros E. unfold consistent, dense, positions, investorsOf. rewrite E.
  simpl. repeat split; try (intros ? []); try constructor.
  intros id. lia.
Qed.

Lemma file_slices_recover_parts_witness :
  fileEncryptedData
    (fileWithMetadata (repeat x00 12) [x2a; x2b] (repeat xff 16))
  = [x2a; x2b].
Proof.
  exact (proj1 (proj2 (file_slices_recover_parts (repeat x00 12) [x2a; x2b]
                         (repeat xff 16) eq_refl eq_refl))).
Defined.


Lemma runs_keep_the_ledger_consistent_witness :
  consistent
    (snd (run Demo.env
            [APay (Demo.request Demo.alice "p1" 10 true); ASweep 1;
             APayComment (Demo.request Demo.carol "p3" 1 false)]
            Demo.world0)).
Proof.
  apply runs_keep_the_ledger_consistent.
  apply consistent_without_investors. reflexivity.
Defined.


Lemma rejected_payment_writes_nothing_witness :
  payments (snd (POST_pay Demo.env (Demo.request Demo.alice "p2" 1 false)
                   Demo.world0))
  = payments Demo.world0.
Proof.
  refine (proj1 (rejected_payment_writes_nothing Demo.env
                   (Demo.request Demo.alice "p2" 1 false) Demo.world0 _ _)).
  - vm_compute. discriminate.
  - intros e. vm_compute. discriminate.
Defined.

Lemma comment_payment_is_idempotent_witness :
  POST_pay_comment Demo.env (Demo.request Demo.carol "p3" 1 false)
    Demo.world_commented
  = (Success true, Demo.world_commented).
Proof.
  assert (H : POST_pay_comment Demo.env
                (Demo.request Demo.carol "p3" 1 false) Demo.world0
              = (Success false, Demo.world_commented))
    by (vm_compute; reflexivity).
  destruct (comment_payment_is_idempotent _ _ _ _ H)
    as (user & post & _ & _ & _ & _ & _ & _ & Hagain).
  exact Hagain.
Defined.

Lemma buyout_adds_one_investor_row_witness :
  settlements
    (Demo.pay_step (Demo.request Demo.alice "p1" 10 true) Demo.world0)
  = settlements Demo.world0
  /\ fst (getInvestorCount "p1"
            (Demo.pay_step (Demo.request Demo.alice "p1" 10 true)
               Demo.world0))
     = Ok 1%nat.
Proof.
  assert (H : POST_pay Demo.env (Demo.request Demo.alice "p1" 10 true)
                Demo.world0
              = (Success false,
                 Demo.pay_step (Demo.request Demo.alice "p1" 10 true)
                   Demo.world0))
    by (vm_compute; reflexivity).
  assert (Hc : consistent Demo.world0)
    by (apply consistent_without_investors; reflexivity).
  destruct (buyout_adds_one_investor_row Demo.env _ _ _ Demo.post1 H
              eq_refl eq_refl Hc)
    as (user & id & _ & _ & Hs & _ & Hn).
  split; [exact Hs|exact Hn].
Defined.

Lemma plain_unlock_pays_the_creator_only_witness :
  investors
    (Demo.pay_step (Demo.request Demo.dave "p3" 1.05 false) Demo.world0)
  = investors Demo.world0.
Proof.
  assert (H : POST_pay Demo.env (Demo.request Demo.dave "p3" 1.05 false)
                Demo.world0
              = (Success false,
                 Demo.pay_step (Demo.request Demo.dave "p3" 1.05 false)
                   Demo.world0))
    by (vm_compute; reflexivity).
  refine (proj1 (plain_unlock_pays_the_creator_only Demo.env _ _ _
                   Demo.post3 H eq_refl eq_refl _)).
  left. vm_compute. discriminate.
Defined.

Lemma paid_viewer_is_served_the_media_witness :
  exists post',
    lookup_post "p1"
      (Demo.pay_step (Demo.request Demo.alice "p1" 10 true) Demo.world0)
    = Some post'
    /\ entitled (media_request_of (Demo.request Demo.alice "p1" 10 true))
         post'
         (Demo.pay_step (Demo.request Demo.alice "p1" 10 true) Demo.world0)
       = true.
Proof.
  assert (H : POST_pay Demo.env (Demo.request Demo.alice "p1" 10 true)
                Demo.world0
              = (Success false,
                 Demo.pay_step (Demo.request Demo.alice "p1" 10 true)
                   Demo.world0))
    by (vm_compute; reflexivity).
  destruct (paid_viewer_is_served_the_media _ _ _ _ _ H)
    as (post' & Hl & He & _).
  exists post'. split; [exact Hl|exact He].
Defined.

Lemma default_network_only_fits_USDC_witness :
  network_rejected Demo.env (Demo.request Demo.alice "p1" 10 true) = false.
Proof.
  exact (default_network_only_fits_USDC Demo.env
           (Demo.request Demo.alice "p1" 10 true) (or_introl eq_refl)
           (or_introl eq_refl)).
Defined.

Lemma sweep_promotes_every_eligible_post_witness :
  posts (viralSweep 1 Demo.world0) = map (swept 1) (posts Demo.world0)
  /\ viralSweep 2 (viralSweep 1 Demo.world0) = viralSweep 1 Demo.world0.
Proof.
  assert (Hnd : NoDup (map post_id (posts Demo.world0))).
  { vm_compute. repeat constructor; simpl; intuition discriminate. }
  assert (Hc : forall p, In p (posts Demo.world0) -> eligible p = true ->
                         creatorOf p Demo.world0 <> None).
  { intros p [<-|[<-|[<-|[]]]] _; vm_compute; discriminate. }
  destruct (sweep_promotes_every_eligible_post 1%nat Demo.world0 Hnd Hc)
    as (Hp & _ & _ & Hagain).
  split; [exact Hp|exact (Hagain 2%nat)].
Defined.

Lemma withRetry_runs_other_failures_once_witness :
  withRetry Demo.duplicate_key 3 0%nat
  = (Rejected (Some "23505") "duplicate key value", 1%nat).
Proof.
  refine (withRetry_runs_other_failures_once nat unit Demo.duplicate_key 2
            0%nat _).
  intros s0 code message s1 E. inversion E. reflexivity.
Defined.

Lemma withRetry_gives_up_after_maxRetries_witness :
  snd (withRetry Demo.connection_reset 3 0%nat) = 3%nat.
Proof.
  refine (proj1 (withRetry_gives_up_after_maxRetries nat unit
                   Demo.connection_reset 3 0%nat _)).
  intros s0. exists (Some "ECONNRESET"), "read ECONNRESET".
  split; reflexivity.
Defined.

Lemma first_or_changed_vote_keeps_the_tally_witness :
  tallied Demo.ballots1 /\ one_vote_each Demo.ballots1.
Proof.
  refine (first_or_changed_vote_keeps_the_tally "u1" "p1" "up"
            Demo.ballots0 _ _ _).
  - intros p [<-|[]]. split; reflexivity.
  - constructor.
  - intros e F. discriminate.
Defined.

Lemma repeated_vote_inflates_the_counter_witness :
  votes (snd (createOrUpdateVote (mkInsertVote "u1" "p1" "up")
                Demo.ballots1))
  = votes Demo.ballots1
  /\ lookup_post "p1"
       (ledger (snd (createOrUpdateVote (mkInsertVote "u1" "p1" "up")
                       Demo.ballots1)))
     = Some (set_counts Demo.post1 2 0).
Proof.
  assert (Hone : one_vote_each Demo.ballots1).
  { vm_compute. repeat constructor; simpl; intuition discriminate. }
  destruct (repeated_vote_inflates_the_counter "u1" "p1" "up" Demo.ballots1
              (mkVote 0 "p1" "u1" "up") (set_counts Demo.post1 1 0)
              Hone eq_refl eq_refl eq_refl)
    as (Hv & Hl & _).
  split; [exact Hv|exact Hl].
Defined.

Lemma deleting_a_vote_keeps_the_tally_witness :
  tallied (snd (deleteVote "u1" "p1" Demo.ballots1))
  /\ find (same_vote "u1" "p1")
       (votes (snd (deleteVote "u1" "p1" Demo.ballots1))) = None.
Proof.
  assert (Ht : tallied Demo.ballots1).
  { intros p [<-|[]]. split; reflexivity. }
  assert (Hone : one_vote_each Demo.ballots1).
  { vm_compute. repeat constructor; simpl; intuition discriminate. }
  destruct (deleting_a_vote_keeps_the_tally "u1" "p1" Demo.ballots1 Ht Hone)
    as (Ht' & _ & Hf).
  split; [exact Ht'|exact Hf].
Defined.

Lemma vote_then_unvote_round_trip_witness :
  votes (snd (deleteVote "u1" "p1" Demo.ballots1)) = votes Demo.ballots0
  /\ posts (ledger (snd (deleteVote "u1" "p1" Demo.ballots1)))
     = posts (ledger Demo.ballots0).
Proof.
  destruct (vote_then_unvote_round_trip "u1" "p1" "up" Demo.ballots0
              (Some (mkVote 0 "p1" "u1" "up")) eq_refl eq_refl)
    as (Hv & Hp & _).
  split; [exact Hv|exact Hp].
Defined.

Lemma backfill_overwrites_the_earnings_witness :
  investors (snd (POST_backfill (Some "0xA1") Demo.world_full))
  = map (backfilled Demo.world_full) (investors Demo.world_full).
Proof.
  refine (proj1 (backfill_overwrites_the_earnings (Some "0xA1")
                   Demo.world_full _ _)).
  - vm_compute. repeat constructor; simpl; intuition discriminate.
  - vm_compute. discriminate.
Defined.

Lemma comment_lock_of_a_free_post_binds_no_user_witness :
  fst (GET_comments (Some "0xA1") "p2" Demo.world0) = CommentsListed
  /\ POST_pay_comment Demo.env (Demo.request Demo.alice "p2" 1 false)
       Demo.world0
     = (Success true, Demo.world0).
Proof.
  exact (comment_lock_of_a_free_post_binds_no_user Demo.env
           (Demo.request Demo.alice "p2" 1 false) Demo.world0 Demo.alice
           Demo.post2 eq_refl eq_refl eq_refl).
Defined.

Lemma comment_payment_opens_comments_not_media_witness :
  fst (GET_comments (Some "0xC3") "p3" Demo.world_commented) = CommentsListed
  /\ fst (GET_media Demo.env
            (media_request_of (Demo.request Demo.carol "p3" 1 false))
            Demo.world_commented)
     = Redirect "thumbnails/p3.jpg".
Proof.
  assert (H : POST_pay_comment Demo.env
                (Demo.request Demo.carol "p3" 1 false) Demo.world0
              = (Success false, Demo.world_commented))
    by (vm_compute; reflexivity).
  exact (comment_payment_opens_comments_not_media Demo.env _ _ _ Demo.carol
           Demo.post3 H eq_refl eq_refl eq_refl eq_refl).
Defined.

Lemma paid_viewer_is_shown_the_comments_witness :
  fst (GET_comments (Some "0xA1") "p3"
         (Demo.pay_step (Demo.request Demo.alice "p3" 2 false) Demo.world0))
  = CommentsListed.
Proof.
  assert (H : POST_pay Demo.env (Demo.request Demo.alice "p3" 2 false)
                Demo.world0
              = (Success false,
                 Demo.pay_step (Demo.request Demo.alice "p3" 2 false)
                   Demo.world0))
    by (vm_compute; reflexivity).
  exact (paid_viewer_is_shown_the_comments _ _ _ _ _ H).
Defined.
